(** * QWERA, Tool 2 (Wind Shade Calculator): the shadow-casting engine

    A shallow embedding of
    [src/qwera_tools/algorithms/TOOL_2_Windshade_Calculator.py]
    (class [TOOLBOX_2_HILLSHADES]): the array part of [_prepare_dem], the
    strip sweep of [_compute_shadow_octant] with its 1-D gap fill and 2-D
    closing, the mask writer [_write_shadow_mask] and the row loop of
    [processAlgorithm] with its choice between the SAGA backend and the
    internal scan; and, around them, the helpers [_to_float] and [_slug],
    the column lookup of the two table readers,
    [infer_octants_from_azimuths], the array part of [_saga_shadow_mask],
    [_close_and_optionally_dilate] and the checks of [processAlgorithm] on
    the table and on the files created.

    Conventions of the embedding.
    - The scan is embedded twice.  In the first embedding a Python [float]
      is an exact rational ([Q]); a literal such as [1e-9] denotes its
      decimal value, and neither the rounding of binary64 arithmetic nor
      the narrowing [astype(np.float32)] is modelled.  The statements made
      about it are those that do not rest on how the arithmetic rounds: the
      order and the rule of the sweep, the gap fill, the closing, the
      writer, the choice of the backend.  In the second embedding (module
      [B64]) a [float] is a binary64 number ([PrimFloat.float]), every
      operation of lines 467-575 is rounded as Python rounds it, and
      [round], [math.floor] and [math.ceil] raise where Python's do.  The
      statements that rest on the rounding (a flat raster, two altitudes,
      the cover of the raster by the strips) are made about it.
    - A cell of the height raster is an [npfloat]: a finite value or [NaN]
      ([_prepare_dem] stores [NaN] in every no-data cell); in [B64] it is a
      [float].
    - In the first embedding [float("inf")] only occurs as the strip width;
      it is the constructor [Inf] of [width], and the three comparisons it
      takes part in are written out.
    - [math.radians], [math.cos], [math.sin], [math.tan] are not embedded:
      they are the fields of a record [libm] the scan is parameterised by.
    - A numpy 2-D array is a list of rows, read with [get] and rebuilt with
      [tabulate]; [a[i, j] = v] is [set].
    - A raised [QgsProcessingException] is [None] (the writer) or a tagged
      result (the row loop); the SAGA backend is a function that returns a
      mask or the text of the exception it raises.
    - A [str] is a [string] of code points below 256.  [float(s)] of a
      text, [str.lower] and the alphanumeric characters above ASCII are
      parameters of the definitions that use them.
    - GDAL and OGR input/output, the parsing of the CSV file, the naming of
      the output files beyond [_slug] and the exception of
      [int(round(...))], the progress reports and the cancellation checks
      of [feedback] are left out. *)

From Stdlib Require Import String Ascii.
From Stdlib Require Import QArith Qround Qabs ZArith List Bool Lia Lqa.
From Stdlib Require Import Sorted Permutation.
From Stdlib Require Import Floats.
Import ListNotations.

Open Scope Q_scope.

(** ** Numbers *)

Definition Qltb (x y : Q) : bool := negb (Qle_bool y x).
Definition Qleb (x y : Q) : bool := Qle_bool x y.

Definition QofZ (z : Z) : Q := inject_Z z.
Definition Qofnat (n : nat) : Q := inject_Z (Z.of_nat n).

(** Python's two-argument [min] and [max]: the first argument wins ties. *)
Definition py_min (a b : Q) : Q := if Qltb b a then b else a.
Definition py_max (a b : Q) : Q := if Qltb a b then b else a.

(** [round(x)] of Python 3: to the nearest integer, halves to the even one. *)
Definition py_round (x : Q) : Z :=
  let f := Qfloor x in
  let r := x - QofZ f in
  if Qltb r (1 # 2) then f
  else if Qltb (1 # 2) r then (f + 1)%Z
  else if Z.even f then f else (f + 1)%Z.

(** [x % 360.0] for a float [x]: the result lies in [0, 360). *)
Definition fmod360 (x : Q) : Q := x - 360 * QofZ (Qfloor (x / 360)).

(** [range(a, b)] over Python integers. *)
Definition zrange (a b : Z) : list Z :=
  map (fun k => (a + Z.of_nat k)%Z) (seq 0 (Z.to_nat (b - a))).

(** ** Arrays *)

Definition array2 (A : Type) : Type := list (list A).

Definition get {A : Type} (d : A) (a : array2 A) (i j : nat) : A :=
  nth j (nth i a []) d.

Fixpoint set_nth {A : Type} (l : list A) (k : nat) (v : A) : list A :=
  match l, k with
  | [], _ => []
  | _ :: r, O => v :: r
  | x :: r, S k' => x :: set_nth r k' v
  end.

(** [a[i, j] = v] for indices inside the array. *)
Definition set {A : Type} (a : array2 A) (i j : nat) (v : A) : array2 A :=
  set_nth a i (set_nth (nth i a []) j v).

Definition tabulate {A : Type} (ny nx : nat) (f : nat -> nat -> A) : array2 A :=
  map (fun i => map (fun j => f i j) (seq 0 nx)) (seq 0 ny).

(** [np.zeros((ny, nx), dtype=bool)]. *)
Definition zeros (ny nx : nat) : array2 bool := tabulate ny nx (fun _ _ => false).

(** [a.shape == (ny, nx)]. *)
Definition has_shape {A : Type} (a : array2 A) (ny nx : nat) : bool :=
  (length a =? ny)%nat && forallb (fun r => (length r =? nx)%nat) a.

(** [a[mask] = v] for a boolean [mask] of the shape [(ny, nx)] of [a]. *)
Definition mask_assign {A : Type} (d : A) (ny nx : nat)
    (a : array2 A) (mask : array2 bool) (v : A) : array2 A :=
  tabulate ny nx (fun i j => if get false mask i j then v else get d a i j).

(** ** The prepared raster ([_prepare_dem]) *)

Inductive npfloat : Type :=
  | Fin (q : Q)
  | NaN.

Definition isfinite (z : npfloat) : bool :=
  match z with Fin _ => true | NaN => false end.

(** [z > 0.0]; a comparison with [NaN] is false. *)
Definition gt0 (z : npfloat) : bool :=
  match z with Fin q => Qltb 0 q | NaN => false end.

(** The six coefficients of a GDAL geotransform. *)
Record geotransform : Type := mk_gt {
  gt0_ : Q; gt1 : Q; gt2 : Q; gt3 : Q; gt4 : Q; gt5 : Q
}.

(** The dictionary returned by [_prepare_dem]; the key ["Z"] is [dem_Z]. *)
Record dem_info : Type := mk_dem {
  dem_Z : array2 npfloat;
  mask_nd : array2 bool;
  nodata : Q;
  gt : geotransform;
  proj : string;
  ny : nat;
  nx : nat
}.

(** [Z == nodata] for a cell of the band; a comparison with [NaN] is false. *)
Definition is_nodata (z : npfloat) (v : Q) : bool :=
  match z with Fin q => Qeq_bool q v | NaN => false end.

(** The array part of [_prepare_dem] (lines 287-305).  [band] is the array
    read from the raster, with [NaN] for every value that is not finite;
    [band_nodata] is [band.GetNoDataValue()], a value that float32 holds
    exactly (line 300 compares in float32, after the narrowing of line
    293). *)
Definition _prepare_dem (band : array2 npfloat) (band_nodata : option Q)
    (g : geotransform) (p : string) : dem_info :=
  let nodata_ := match band_nodata with Some v => v | None => - 9999 end in
  let ny_ := length band in
  let nx_ := length (hd [] band) in
  let mask := tabulate ny_ nx_ (fun i j =>
    negb (isfinite (get NaN band i j)) || is_nodata (get NaN band i j) nodata_) in
  {| dem_Z := mask_assign NaN ny_ nx_ band mask NaN;
     mask_nd := mask;
     nodata := nodata_;
     gt := g;
     proj := p;
     ny := ny_;
     nx := nx_ |}.

(** What [_prepare_dem] guarantees: both arrays have the shape [(ny, nx)],
    and a cell is no-data exactly when its height is [NaN]. *)
Definition dem_ok (dem : dem_info) : Prop :=
  has_shape (dem_Z dem) (ny dem) (nx dem) = true /\
  has_shape (mask_nd dem) (ny dem) (nx dem) = true /\
  forall i j, (i < ny dem)%nat -> (j < nx dem)%nat ->
    get false (mask_nd dem) i j = negb (isfinite (get NaN (dem_Z dem) i j)).

(** ** Class attributes of [TOOLBOX_2_HILLSHADES] used by the scan *)

Record tool : Type := mk_tool {
  _EDGE_BIAS_PX : Q;
  _MAX_DIST : Q;
  _EPS_M : option Q;
  __RAY_GAP_MAX : option Z;
  _OCTANTS : Z
}.

(** The class as declared; [processAlgorithm] resets [_EPS_M] to [None]. *)
Definition TOOLBOX_2_HILLSHADES : tool :=
  {| _EDGE_BIAS_PX := - (1 # 2);
     _MAX_DIST := 0;
     _EPS_M := None;
     __RAY_GAP_MAX := Some 3%Z;
     _OCTANTS := 32%Z |}.

(** ** Solar geometry (lines 467-500) *)

Record libm : Type := mk_libm {
  radians : Q -> Q;
  cos : Q -> Q;
  sin : Q -> Q;
  tan : Q -> Q
}.

Definition dir_eps : Q := 1 # 1000000000.

(** [if abs(d) < dir_eps: d = 0.0]. *)
Definition snap (d : Q) : Q := if Qltb (Qabs d) dir_eps then 0 else d.

Section Geometry.
Variable m : libm.
Variable g : geotransform.
Variables az alt : Q.

Definition cellx : Q := Qabs (gt1 g).
Definition celly : Q := Qabs (gt5 g).

Definition azr : Q := radians m (fmod360 (450 - az)).
Definition tan_alt : Q := tan m (radians m alt).

Definition ux : Q := - cos m azr.
Definition uy : Q := - sin m azr.

Definition vx_col_x : Q := cellx.
Definition vx_col_y : Q := 0.
Definition vx_row_x : Q := 0.
Definition vx_row_y : Q := - celly.

Definition dL_col : Q := vx_col_x * ux + vx_col_y * uy.
Definition dL_row : Q := vx_row_x * ux + vx_row_y * uy.

Definition upx : Q := - uy.
Definition upy : Q := ux.

Definition dS_col : Q := snap (vx_col_x * upx + vx_col_y * upy).
Definition dS_row : Q := snap (vx_row_x * upx + vx_row_y * upy).
End Geometry.

(** ** Strip partition (lines 502-552) *)

(** The strip width is a float that may be [float("inf")]. *)
Inductive width : Type :=
  | Finite (w : Q)
  | Inf.

(** [abs(d) if abs(d) > 0.0 else float("inf")]. *)
Definition step_or_inf (d : Q) : width :=
  if Qltb 0 (Qabs d) then Finite (Qabs d) else Inf.

Definition width_min (a b : width) : width :=
  match a, b with
  | Finite x, Finite y => Finite (py_min x y)
  | Finite x, Inf => Finite x
  | Inf, Finite y => Finite y
  | Inf, Inf => Inf
  end.

(** [max(1e-9, w)]. *)
Definition width_floor (w : width) : width :=
  match w with
  | Finite x => Finite (py_max (1 # 1000000000) x)
  | Inf => Inf
  end.

Definition strip_w (dSc dSr : Q) : width :=
  width_floor (width_min (step_or_inf dSc) (step_or_inf dSr)).

(** [x / strip_w]: a finite [x] over [inf] is zero. *)
Definition div_width (x : Q) (w : width) : Q :=
  match w with Finite w => x / w | Inf => 0 end.

(** [abs(x - s_idx * strip_w) > 0.5 * strip_w].  For the infinite width
    [s_idx * strip_w] is an infinity or [NaN], the left side is [inf] or
    [NaN], and the comparison with [inf] is false. *)
Definition beyond_half (w : width) (s_idx : Z) (x : Q) : bool :=
  match w with
  | Finite w => Qltb ((1 # 2) * w) (Qabs (x - QofZ s_idx * w))
  | Inf => false
  end.

(** [abs(x - s_idx * strip_w) <= 0.5 * strip_w].  For the infinite width
    this is [inf <= inf] when [s_idx] is not zero and a comparison with
    [NaN] when it is. *)
Definition within_half (w : width) (s_idx : Z) (x : Q) : bool :=
  match w with
  | Finite w => Qleb (Qabs (x - QofZ s_idx * w)) ((1 # 2) * w)
  | Inf => negb (s_idx =? 0)%Z
  end.

(** [S_target] where it is used as a number; the branch that does so is only
    taken when [dS_col] is not zero, hence when the width is finite. *)
Definition S_target (w : width) (s_idx : Z) : Q :=
  match w with Finite w => QofZ s_idx * w | Inf => 0 end.

Section Partition.
Variables dLc dLr dSc dSr : Q.
Variable nd : array2 bool.
Variables ny_ nx_ : nat.

Definition S_of (i j : Z) : Q := QofZ i * dSr + QofZ j * dSc.
Definition L_of (i j : nat) : Q := Qofnat i * dLr + Qofnat j * dLc.

  (** S-range from the DEM corners. *)
Definition corners : list (Z * Z) :=
    let ny1 := (Z.of_nat ny_ - 1)%Z in
    let nx1 := (Z.of_nat nx_ - 1)%Z in
    [(0, 0); (0, nx1); (ny1, 0); (ny1, nx1)]%Z.

Definition S_vals : list Q := map (fun c => S_of (fst c) (snd c)) corners.

Definition Smin : Q := fold_left py_min (tl S_vals) (hd 0 S_vals).
Definition Smax : Q := fold_left py_max (tl S_vals) (hd 0 S_vals).

Definition s_idx_min : Z := (py_round (div_width Smin (strip_w dSc dSr)) - 1)%Z.
Definition s_idx_max : Z := (py_round (div_width Smax (strip_w dSc dSr)) + 1)%Z.

  (** The columns scanned in row [i] for strip [s_idx]. *)
Definition j_range (s_idx : Z) (i : nat) : list nat :=
    let w := strip_w dSc dSr in
    if Qltb dir_eps (Qabs dSc) then
      let j_star := (S_target w s_idx - Qofnat i * dSr) / dSc in
      let j0 := Z.max 0 (Qfloor (j_star - 1)) in
      let j1 := Z.min (Z.of_nat nx_ - 1) (Qceiling (j_star + 1)) in
      map Z.to_nat (zrange j0 (j1 + 1))
    else
      let S_row0 := Qofnat i * dSr in
      if beyond_half w s_idx S_row0 then [] else seq 0 nx_.

  (** The list [cells_i] of one strip: triples [(L_ij, i, j)]. *)
Definition collect_cells (s_idx : Z) : list (Q * nat * nat) :=
    let w := strip_w dSc dSr in
    flat_map (fun i =>
      flat_map (fun j =>
        let S_ij := Qofnat i * dSr + Qofnat j * dSc in
        if within_half w s_idx S_ij then
          if negb (get false nd i j) then [(L_of i j, i, j)] else []
        else [])
      (j_range s_idx i))
    (seq 0 ny_).
End Partition.

(** ** Horizon sweep (lines 559-575) *)

Definition cell : Type := (Q * nat * nat)%type.
Definition key (c : cell) : Q := fst (fst c).

(** [cells_i.sort(key=lambda t: t[0])]: a stable sort on the first
    component, here by insertion. *)
Fixpoint insert_cell (c : cell) (l : list cell) : list cell :=
  match l with
  | [] => [c]
  | y :: r => if Qltb (key y) (key c) then y :: insert_cell c r else c :: y :: r
  end.

Fixpoint sort_cells (l : list cell) : list cell :=
  match l with
  | [] => []
  | c :: r => insert_cell c (sort_cells r)
  end.

Definition minus_1e38 : Q := - (100000000000000000000000000000000000000 # 1).

Section Sweep.
Variable hgt : array2 npfloat.
Variables tan_a eps_m maxd L0 : Q.

  (** The [for (Lk, i, j) in cells_i] loop, with its [break]. *)
Fixpoint horizon_sweep (cells : list cell) (horizon : Q) (shadow : array2 bool)
      : array2 bool :=
    match cells with
    | [] => shadow
    | (Lk, i, j) :: rest =>
        let d := Lk - L0 in
        match get NaN hgt i j with
        | Fin z =>
            let T := z + tan_a * d in
            let shadow' := if Qltb (T - eps_m) horizon then set shadow i j true else shadow in
            let horizon' := if Qltb horizon T then T else horizon in
            if Qltb 0 maxd && Qltb maxd d then shadow'
            else horizon_sweep rest horizon' shadow'
        | NaN =>
            (* T is NaN: neither comparison holds *)
            if Qltb 0 maxd && Qltb maxd d then shadow
            else horizon_sweep rest horizon shadow
        end
    end.
End Sweep.

(** ** 1-D closing along a strip (lines 577-600) *)

(** The inner [while k < n_vals and not vals[k]: k += 1]. *)
Fixpoint skip_false (fuel : nat) (vals : list bool) (n_vals k : nat) : nat :=
  match fuel with
  | O => k
  | S fuel' =>
      if (k <? n_vals)%nat && negb (nth k vals false)
      then skip_false fuel' vals n_vals (k + 1)
      else k
  end.

(** [for t in range(start, end + 1): vals[t] = True]. *)
Definition fill_range (vals : list bool) (start end_ : nat) : list bool :=
  fold_left (fun v t => set_nth v t true) (seq start (end_ + 1 - start)) vals.

(** The outer [while k < n_vals]; every round advances [k]. *)
Fixpoint gap_while (fuel : nat) (gap_max : nat) (vals : list bool) (n_vals k : nat)
    : list bool :=
  match fuel with
  | O => vals
  | S fuel' =>
      if (k <? n_vals)%nat then
        if nth k vals false then gap_while fuel' gap_max vals n_vals (k + 1)
        else
          let start := k in
          let k' := skip_false n_vals vals n_vals k in
          let end_ := (k' - 1)%nat in
          let gap_len := (end_ - start + 1)%nat in
          let left_true := (1 <=? start)%nat && nth (start - 1) vals false in
          let right_true := (end_ + 1 <? n_vals)%nat && nth (end_ + 1) vals false in
          let vals' :=
            if left_true && right_true && (gap_len <=? gap_max)%nat
            then fill_range vals start end_ else vals in
          gap_while fuel' gap_max vals' n_vals k'
      else vals
  end.

Definition ray_gap_fill (gap_max : nat) (vals : list bool) : list bool :=
  let n_vals := length vals in
  gap_while (S n_vals) gap_max vals n_vals 0.

(** [for val, (_, i, j) in zip(vals, cells_i): shadow[i, j] = val]. *)
Definition write_back (vals : list bool) (cells : list cell) (shadow : array2 bool)
    : array2 bool :=
  fold_left (fun sh vc => set sh (snd (fst (snd vc))) (snd (snd vc)) (fst vc))
            (combine vals cells) shadow.

(** [gap_max] as read from the class attribute. *)
Definition gap_max_of (self : tool) : nat :=
  match __RAY_GAP_MAX self with
  | Some v => if (v <? 0)%Z then O else Z.to_nat v
  | None => O
  end.

(** ** One strip, and the loop over the strips *)

Section Strips.
Variable hgt : array2 npfloat.
Variables tan_a eps_m maxd : Q.
Variable gap_max : nat.

  (** What the body of [for s_idx in range(...)] does with the list
      [cells_i] it has collected. *)
Definition scan_strip (shadow : array2 bool) (cells_i : list cell) : array2 bool :=
    match cells_i with
    | [] => shadow
    | _ :: _ =>
        let cells := sort_cells cells_i in
        let L0 := key (hd (0, O, O) cells) in
        let shadow1 := horizon_sweep hgt tan_a eps_m maxd L0 cells minus_1e38 shadow in
        if (0 <? gap_max)%nat then
          let vals := map (fun c => get false shadow1 (snd (fst c)) (snd c)) cells in
          if (3 <=? length vals)%nat
          then write_back (ray_gap_fill gap_max vals) cells shadow1
          else shadow1
        else shadow1
    end.

Definition scan_strips (strips : list (list cell)) (shadow : array2 bool)
      : array2 bool :=
    fold_left scan_strip strips shadow.
End Strips.

(** ** 2-D morphology (lines 607-635) *)

(** [np.pad(m, 1, mode="constant", constant_values=False)]. *)
Definition np_pad (mask : array2 bool) : array2 bool :=
  let ny_ := length mask in
  let nx_ := length (hd [] mask) in
  tabulate (ny_ + 2) (nx_ + 2) (fun i j =>
    match i, j with
    | S i', S j' => if (i' <? ny_)%nat && (j' <? nx_)%nat then get false mask i' j' else false
    | _, _ => false
    end).

(** The view [a[r0 : r0 + ny_, c0 : c0 + nx_]]. *)
Definition view (a : array2 bool) (r0 c0 ny_ nx_ : nat) : array2 bool :=
  tabulate ny_ nx_ (fun i j => get false a (r0 + i) (c0 + j)).

(** Element-wise [a | b] of two arrays of shape [(ny_, nx_)]. *)
Definition logical_or (ny_ nx_ : nat) (a b : array2 bool) : array2 bool :=
  tabulate ny_ nx_ (fun i j => get false a i j || get false b i j).

(** [np.logical_or.reduce(neigh)]. *)
Definition logical_or_reduce (ny_ nx_ : nat) (neigh : list (array2 bool)) : array2 bool :=
  fold_left (logical_or ny_ nx_) neigh (zeros ny_ nx_).

(** [~m]. *)
Definition logical_not (mask : array2 bool) : array2 bool := map (map negb) mask.

Definition _binary_dilate (mask_bool : array2 bool) (kernel_size : nat) : array2 bool :=
  let ny_ := length mask_bool in
  let nx_ := length (hd [] mask_bool) in
  let padded := np_pad mask_bool in
  if (kernel_size =? 2)%nat then
    let a := view padded 0 0 ny_ nx_ in
    let b := view padded 0 1 ny_ nx_ in
    let c := view padded 1 0 ny_ nx_ in
    let d := view padded 1 1 ny_ nx_ in
    logical_or ny_ nx_ (logical_or ny_ nx_ (logical_or ny_ nx_ a b) c) d
  else
    let neigh :=
      [ view padded 0 0 ny_ nx_; view padded 0 1 ny_ nx_; view padded 0 2 ny_ nx_;
        view padded 1 0 ny_ nx_; view padded 1 1 ny_ nx_; view padded 1 2 ny_ nx_;
        view padded 2 0 ny_ nx_; view padded 2 1 ny_ nx_; view padded 2 2 ny_ nx_ ] in
    logical_or_reduce ny_ nx_ neigh.

(** The 2-D closing pass: [d1] then [e1] (lines 629-631). *)
Definition closing (shadow : array2 bool) : array2 bool :=
  let d1 := _binary_dilate shadow 3 in
  let e1 := logical_not (_binary_dilate (logical_not d1) 3) in
  e1.

(** ** The mask writer (lines 322-351) *)

Record written : Type := mk_written {
  w_shadow : array2 bool;   (* [shadow_bool] after the writer has masked it in place *)
  w_out : array2 Q          (* the array handed to [WriteArray] *)
}.

(** [None] is the [QgsProcessingException] of the shape test. *)
Definition _write_shadow_mask (dem : dem_info) (shadow_bool : array2 bool)
    (const_val : option Q) : option written :=
  let ny_ := ny dem in
  let nx_ := nx dem in
  if negb (has_shape shadow_bool ny_ nx_) then None
  else
    let shadow := mask_assign false ny_ nx_ shadow_bool (mask_nd dem) false in
    let mask_le := tabulate ny_ nx_ (fun i j =>
      negb (get false (mask_nd dem) i j)
      && isfinite (get NaN (dem_Z dem) i j)
      && gt0 (get NaN (dem_Z dem) i j)) in
    let c := match const_val with Some v => v | None => 1 end in
    let out := tabulate ny_ nx_ (fun i j => if get false shadow i j then c else 0) in
    let out :=
      if Qltb (Qabs (c - 5)) (1 # 1000000)
      then mask_assign 0 ny_ nx_ out mask_le 5 else out in
    let out := mask_assign 0 ny_ nx_ out (mask_nd dem) (nodata dem) in
    Some {| w_shadow := shadow; w_out := out |}.

(** ** [_compute_shadow_octant] (lines 453-638) *)

Record scan_result : Type := mk_scan {
  r_self : tool;                 (* the instance, with [_EPS_M] set *)
  r_raw : array2 bool;           (* [shadow] after the strip loop *)
  r_masked : array2 bool;        (* after [shadow[mask_nd] = False], line 605 *)
  r_handed : array2 bool;        (* the array passed to [_write_shadow_mask] *)
  r_written : option written     (* what the writer did with it *)
}.

Definition eps_of (self : tool) (g : geotransform) : Q :=
  match _EPS_M self with
  | Some e => e
  | None => (1 # 100000) * py_max (cellx g) (celly g)
  end.

(** The tolerance kept on the instance is unset or is the one of this
    raster, as it is throughout a run of [processAlgorithm]. *)
Definition eps_state_ok (self : tool) (g : geotransform) : Prop :=
  _EPS_M self = None \/
  _EPS_M self = Some ((1 # 100000) * py_max (cellx g) (celly g)).

(** The lists [cells_i] of all strips, in the order of the strip loop. *)
Definition strips_of (m : libm) (dem : dem_info) (az : Q) : list (list cell) :=
  let g := gt dem in
  let dLc := dL_col m g az in
  let dLr := dL_row m g az in
  let dSc := dS_col m g az in
  let dSr := dS_row m g az in
  map (collect_cells dLc dLr dSc dSr (mask_nd dem) (ny dem) (nx dem))
      (zrange (s_idx_min dSc dSr (ny dem) (nx dem))
              (s_idx_max dSc dSr (ny dem) (nx dem) + 1)).

Definition _compute_shadow_octant (m : libm) (self : tool) (dem : dem_info)
    (az alt : Q) (octants : Z) (maxd : Q) (edge_bias_px : Q)
    (const_val : option Q) (fat_shadow : bool) (fat_kernel : nat) : scan_result :=
  let eps_m := eps_of self (gt dem) in
  let self' := {| _EDGE_BIAS_PX := _EDGE_BIAS_PX self;
                  _MAX_DIST := _MAX_DIST self;
                  _EPS_M := Some eps_m;
                  __RAY_GAP_MAX := __RAY_GAP_MAX self;
                  _OCTANTS := _OCTANTS self |} in
  let shadow0 := zeros (ny dem) (nx dem) in
  let raw := scan_strips (dem_Z dem) (tan_alt m alt) eps_m maxd (gap_max_of self)
                         (strips_of m dem az) shadow0 in
  let masked := mask_assign false (ny dem) (nx dem) raw (mask_nd dem) false in
  let closed := closing masked in
  let handed := if fat_shadow then _binary_dilate closed fat_kernel else closed in
  {| r_self := self';
     r_raw := raw;
     r_masked := masked;
     r_handed := handed;
     r_written := _write_shadow_mask dem handed const_val |}.

(** ** Notions used in the statements *)

(** The value of the padded array at [(i, j)]. *)
Definition padv (a : array2 bool) (ny nx i j : nat) : bool :=
  match i, j with
  | S i', S j' => if (i' <? ny)%nat && (j' <? nx)%nat then get false a i' j' else false
  | _, _ => false
  end.

(** Indices at most one apart. *)
Definition near (i i' : nat) : Prop := (i <= i' + 1)%nat /\ (i' <= i + 1)%nat.

(** Cell-wise inclusion of masks of shape [(ny, nx)]. *)
Definition mask_le (ny nx : nat) (a b : array2 bool) : Prop :=
  forall i j, (i < ny)%nat -> (j < nx)%nat ->
    get false a i j = true -> get false b i j = true.

(** ** Backend selection in [processAlgorithm] (lines 683-757) *)

(** ASCII lower-casing, for [str(saga_err).lower()]. *)
Definition lower_ascii (c : ascii) : ascii :=
  let n := nat_of_ascii c in
  if (65 <=? n)%nat && (n <=? 90)%nat then ascii_of_nat (n + 32) else c.

Fixpoint lower (s : string) : string :=
  match s with
  | EmptyString => EmptyString
  | String c r => String (lower_ascii c) (lower r)
  end.

(** [needle in hay]. *)
Fixpoint contains (needle hay : string) : bool :=
  prefix needle hay ||
  match hay with
  | EmptyString => false
  | String _ r => contains needle r
  end.

(** The test that switches the backend off for the following rows. *)
Definition is_unavailable (saga_err : string) : bool :=
  let msg := lower saga_err in
  contains "not found" msg
  || (contains "algorithm" msg && contains "not" msg && contains "found" msg)
  || contains "sagang" msg.

(** A row of the parameter table whose azimuth, altitude and constant are
    numbers or missing; [name] is the label after [strip()].  The rows that
    [_read_table] returns, which may hold [nan] or an infinity, are the
    [table_row]s below. *)
Record row : Type := mk_row {
  name : string;
  azimuth : option Q;
  altitude : option Q;
  constant : option Q
}.

(** What a call of [_saga_shadow_mask] does: it returns a mask or raises. *)
Inductive saga_outcome : Type :=
  | SagaMask (shadow_mask : array2 bool)
  | SagaRaises (saga_err : string).

(** How a row of the table ends. *)
Inductive row_result : Type :=
  | RowSkipped                      (* incomplete row: reported, [continue] *)
  | RowSaga (w : written)           (* the SAGA mask, written as it is *)
  | RowScan (r : scan_result)       (* the internal scan, written *)
  | RowError (r : scan_result).     (* the internal scan raised: outer [except] *)

Record run_state : Type := mk_state {
  saga_enabled : bool;
  self_ : tool
}.

Section Rows.
Variable m : libm.
(** The external backend, by row number, azimuth and altitude. *)
Variable saga : nat -> Q -> Q -> saga_outcome.
Variable dem : dem_info.
Variable fat_shadow : bool.
Variable fat_kernel : nat.

(** The inner [try]: the backend, then the writer; [inr] carries the text of
    the exception caught as [saga_err]. *)
Definition try_saga (idx : nat) (az alt cval : Q) : written + string :=
  match saga idx az alt with
  | SagaRaises saga_err => inr saga_err
  | SagaMask shadow_mask =>
      match _write_shadow_mask dem shadow_mask (Some cval) with
      | Some w => inl w
      | None => inr "Shadow mask dimensions do not match input raster."%string
      end
  end.

(** The call of [_compute_shadow_octant] made by either branch. *)
Definition internal_scan (st : run_state) (az alt cval : Q) : run_state * row_result :=
  let self := self_ st in
  let r := _compute_shadow_octant m self dem az alt (_OCTANTS self) (_MAX_DIST self)
             (_EDGE_BIAS_PX self) (Some cval) fat_shadow fat_kernel in
  let st' := {| saga_enabled := saga_enabled st; self_ := r_self r |} in
  match r_written r with
  | Some _ => (st', RowScan r)
  | None => (st', RowError r)
  end.

(** The body of [for idx, row in enumerate(rows, start=1)]. *)
Definition process_row (st : run_state) (idx : nat) (r : row) : run_state * row_result :=
  match azimuth r, altitude r, constant r with
  | Some az, Some alt, Some cval =>
      if (String.length (name r) =? 0)%nat then (st, RowSkipped)
      else if saga_enabled st then
        match try_saga idx az alt cval with
        | inl w => (st, RowSaga w)
        | inr saga_err =>
            let st1 :=
              if is_unavailable saga_err
              then {| saga_enabled := false; self_ := self_ st |}
              else st in
            internal_scan st1 az alt cval
        end
      else internal_scan st az alt cval
  | _, _, _ => (st, RowSkipped)
  end.

Fixpoint process_rows (st : run_state) (idx : nat) (rows : list row)
    : run_state * list row_result :=
  match rows with
  | [] => (st, [])
  | r :: rest =>
      let (st1, res) := process_row st idx r in
      let (st2, ress) := process_rows st1 (S idx) rest in
      (st2, res :: ress)
  end.
End Rows.

(** ** Scenarios *)

Definition lookup (tbl : list (Q * Q)) (x : Q) : Q :=
  match find (fun p => Qeq_bool (fst p) x) tbl with
  | Some p => snd p
  | None => 0
  end.

(** The doubles that Python's [math] returns at the arguments the scenarios
    below use, written as Python prints them. *)
Definition py_libm : libm :=
  {| radians := lookup
       [ (180, 3141592653589793 # 1000000000000000);
         (270, 471238898038469 # 100000000000000);
         (45, 7853981633974483 # 10000000000000000);
         (135, 2356194490192345 # 1000000000000000);
         (1 # 10000, 17453292519943296 # 10000000000000000000000) ];
     cos := lookup
       [ (3141592653589793 # 1000000000000000, -1);
         (471238898038469 # 100000000000000,
          - (18369701987210297 # 100000000000000000000000000000000)) ];
     sin := lookup
       [ (3141592653589793 # 1000000000000000,
          12246467991473532 # 100000000000000000000000000000000);
         (471238898038469 # 100000000000000, -1) ];
     tan := lookup
       [ (7853981633974483 # 10000000000000000, 9999999999999999 # 10000000000000000);
         (2356194490192345 # 1000000000000000, - (10000000000000002 # 10000000000000000));
         (17453292519943296 # 10000000000000000000000,
          17453292519961018 # 10000000000000000000000) ] |}.

(** A north-up raster with 1 m x 1 m cells. *)
Definition gt_1m : geotransform := mk_gt 0 1 0 0 0 (-1).

(** The 10 x 10 grid of height 0 with [height[5][5] = 10]. *)
Definition spike_dem : dem_info :=
  {| dem_Z := tabulate 10 10 (fun i j =>
       if (i =? 5)%nat && (j =? 5)%nat then Fin 10 else Fin 0);
     mask_nd := zeros 10 10;
     nodata := - 9999;
     gt := gt_1m;
     proj := EmptyString;
     ny := 10;
     nx := 10 |}.

(** A single lit cell of positive height, for the class-5 rule. *)
Definition one_cell_dem : dem_info :=
  {| dem_Z := [[Fin 1]];
     mask_nd := [[false]];
     nodata := - 9999;
     gt := gt_1m;
     proj := EmptyString;
     ny := 1;
     nx := 1 |}.

(** A backend that fails on the first row. *)
Definition saga_flaky (idx : nat) (az alt : Q) : saga_outcome :=
  if (idx =? 1)%nat then SagaRaises "Input layer is corrupt"
  else SagaMask (zeros 3 3).

Definition row_west : row :=
  {| name := "W"; azimuth := Some 270; altitude := Some 45; constant := Some 1 |}.

(** The 1-D closing, position by position: a lit position is filled when
    its run of lit positions has a shadowed position on either side and at
    most [gap_max] members.  [left] says whether the run has a shadowed
    position on its left, [before] counts the members to the left of the
    current position. *)
Fixpoint falses_ahead (l : list bool) : nat :=
  match l with
  | false :: r => S (falses_ahead r)
  | _ => O
  end.

Fixpoint closed_ahead (l : list bool) : bool :=
  match l with
  | false :: r => closed_ahead r
  | true :: _ => true
  | [] => false
  end.

Fixpoint gap_rule (gap_max : nat) (left : bool) (before : nat) (l : list bool)
    : list bool :=
  match l with
  | [] => []
  | true :: r => true :: gap_rule gap_max true O r
  | false :: r =>
      (left && closed_ahead r && (before + 1 + falses_ahead r <=? gap_max)%nat)
      :: gap_rule gap_max left (S before) r
  end.

(** The value left of position [k]: [start - 1 >= 0 and vals[start - 1]]. *)
Definition prev_true (vals : list bool) (k : nat) : bool :=
  (1 <=? k)%nat && nth (k - 1) vals false.

(** Row and column of a cell of a strip, and the order of the sweep. *)
Definition crow (c : cell) : nat := snd (fst c).
Definition ccol (c : cell) : nat := snd c.
Definition key_le (a b : cell) : Prop := key a <= key b.

(** Position-wise implication of lists of flags. *)
Definition flags_le (l2 l1 : list bool) : Prop :=
  Forall2 (fun b2 b1 => b2 = true -> b1 = true) l2 l1.

(** Inclusion of masks, at every index. *)
Definition mask_sub (a b : array2 bool) : Prop :=
  forall i j, get false a i j = true -> get false b i j = true.


(** A 3 x 5 grid with an obstacle at (1, 0) and a no-data cell at (1, 2). *)
Definition hole_dem : dem_info :=
  {| dem_Z := [ [Fin 0; Fin 0; Fin 0; Fin 0; Fin 0];
                [Fin 10; Fin 0; NaN; Fin 0; Fin 0];
                [Fin 0; Fin 0; Fin 0; Fin 0; Fin 0] ];
     mask_nd := [ [false; false; false; false; false];
                  [false; false; true; false; false];
                  [false; false; false; false; false] ];
     nodata := - 9999;
     gt := gt_1m;
     proj := EmptyString;
     ny := 3;
     nx := 5 |}.

(** The raster [dem] with another height array. *)
Definition with_heights (dem : dem_info) (hgt : array2 npfloat) : dem_info :=
  {| dem_Z := hgt;
     mask_nd := mask_nd dem;
     nodata := nodata dem;
     gt := gt dem;
     proj := proj dem;
     ny := ny dem;
     nx := nx dem |}.

(** The heights of [hole_dem] with a value put under its no-data cell. *)
Definition hole_heights : array2 npfloat :=
  [ [Fin 0; Fin 0; Fin 0; Fin 0; Fin 0];
    [Fin 10; Fin 0; Fin 1000; Fin 0; Fin 0];
    [Fin 0; Fin 0; Fin 0; Fin 0; Fin 0] ].

(** ** The classification rule of the sweep, as the specification words it *)

(** Projected height [T = height + tan_alt * (L - L0)] of a cell. *)
Definition projected (hgt : array2 npfloat) (tan_a L0 : Q) (c : cell) : Q :=
  match get NaN hgt (crow c) (ccol c) with
  | Fin z => z + tan_a * (key c - L0)
  | NaN => 0
  end.

(** The cells the loop reaches: all of them, or, with a cut-off [maxd > 0],
    those up to the first one farther than [maxd]. *)
Fixpoint visited (maxd L0 : Q) (cells : list cell) : list cell :=
  match cells with
  | [] => []
  | c :: r =>
      if Qltb 0 maxd && Qltb maxd (key c - L0) then [c]
      else c :: visited maxd L0 r
  end.

(** The running horizon before the [k]-th visited cell: the maximum of the
    start value and of the projected heights of the cells visited before. *)
Definition running_horizon (start : Q) (Ts : list Q) (k : nat) : Q :=
  fold_left py_max (firstn k Ts) start.

(** The [k]-th visited cell is marked when the running horizon before it is
    strictly greater than [T - eps]. *)
Definition marked_by_rule (start eps : Q) (Ts : list Q) (k : nat) : bool :=
  Qltb (nth k Ts 0 - eps) (running_horizon start Ts k).

(** The same rule with the horizon starting from minus infinity: the maximum
    of the earlier projected heights exceeds [T - eps] exactly when one of
    them does. *)
Definition marked_from_minus_infinity (eps : Q) (Ts : list Q) (k : nat) : bool :=
  existsb (fun T => Qltb (nth k Ts 0 - eps) T) (firstn k Ts).

Definition no_cell : cell := (0, O, O).

(** The marks of the rule, written into a mask. *)
Definition rule_mask (start eps : Q) (vis : list cell) (Ts : list Q)
    (shadow : array2 bool) (i j : nat) : bool :=
  get false shadow i j
  || existsb (fun k =>
       (crow (nth k vis no_cell) =? i)%nat && (ccol (nth k vis no_cell) =? j)%nat
       && marked_by_rule start eps Ts k)
     (seq 0 (length vis)).

(** A single cell of height [-2^127], a finite float32 value below the
    start value of the horizon. *)
Definition deep_dem : dem_info :=
  {| dem_Z := [[Fin (- (170141183460469231731687303715884105728 # 1))]];
     mask_nd := [[false]];
     nodata := - 9999;
     gt := gt_1m;
     proj := EmptyString;
     ny := 1;
     nx := 1 |}.

(** The 3 x 3 grid of height 0. *)
Definition flat_dem : dem_info :=
  {| dem_Z := tabulate 3 3 (fun _ _ => Fin 0);
     mask_nd := zeros 3 3;
     nodata := - 9999;
     gt := gt_1m;
     proj := EmptyString;
     ny := 3;
     nx := 3 |}.

(** ** Text: the [str] methods used for the table and the file names *)

(** A [str] is a [string] of its code points, all below 256.
    [ch.isspace()], which is also what [strip()] removes: the controls
    9-13 and 28-31, the space, NEL (133) and the no-break space (160). *)
Definition isspace (ch : ascii) : bool :=
  let n := nat_of_ascii ch in
  ((9 <=? n) && (n <=? 13) || (28 <=? n) && (n <=? 32) || (n =? 133) || (n =? 160))%nat.

(** [ch.isalnum()]: the digits and letters of ASCII; for a code point above
    127 the Unicode database decides, here the parameter [uni]. *)
Definition isalnum (uni : ascii -> bool) (ch : ascii) : bool :=
  let n := nat_of_ascii ch in
  if (n <? 128)%nat then
    ((48 <=? n) && (n <=? 57) || (65 <=? n) && (n <=? 90) || (97 <=? n) && (n <=? 122))%nat
  else uni ch.

(** [ch in chars] for a single character [ch]. *)
Definition in_chars (chars : string) (ch : ascii) : bool :=
  existsb (Ascii.eqb ch) (list_ascii_of_string chars).

Fixpoint lstrip (p : ascii -> bool) (s : string) : string :=
  match s with
  | EmptyString => EmptyString
  | String ch r => if p ch then lstrip p r else s
  end.

Fixpoint rstrip (p : ascii -> bool) (s : string) : string :=
  match s with
  | EmptyString => EmptyString
  | String ch r =>
      match rstrip p r with
      | EmptyString => if p ch then EmptyString else String ch EmptyString
      | String ch' r' => String ch (String ch' r')
      end
  end.

(** [s.strip()] is [strip isspace s]; [s.strip(chars)] is
    [strip (in_chars chars) s]. *)
Definition strip (p : ascii -> bool) (s : string) : string := rstrip p (lstrip p s).

Fixpoint map_str (f : ascii -> ascii) (s : string) : string :=
  match s with
  | EmptyString => EmptyString
  | String ch r => String (f ch) (map_str f r)
  end.

(** [s.replace(old, new)] for two single characters. *)
Definition replace (old new : ascii) (s : string) : string :=
  map_str (fun ch => if Ascii.eqb ch old then new else ch) s.

(** ** [_to_float] (lines 165-174) *)

(** The values [_to_float] is applied to: [None], a number (an [int] or a
    [float] [v], given by [float(v)]), or any other object, given by
    [str(v)]. *)
Inductive pyval (F : Type) : Type :=
  | PyNone
  | PyNum (x : F)
  | PyStr (s : string).

Arguments PyNone {F}.
Arguments PyNum {F} x.
Arguments PyStr {F} s.

Section ToFloat.
Variable F : Type.
(** [float(s)] of a string; [None] when it raises. *)
Variable float_of_str : string -> option F.

Definition _to_float (v : pyval F) : option F :=
  match v with
  | PyNone => None
  | PyNum x => Some x
  | PyStr v =>
      let s := replace "," "." (strip isspace v) in
      float_of_str s
  end.
End ToFloat.

(** ** [_slug] (lines 176-181) *)

Definition _slug (uni : ascii -> bool) (name : option string) : string :=
  let name_or := match name with Some n => n | None => EmptyString end in
  let out := map_str (fun ch =>
                        if isalnum uni ch || in_chars ".-_" ch then ch else "_"%char)
                     (strip isspace name_or) in
  let s := strip (in_chars " .") out in
  match s with
  | EmptyString => "shadow"
  | String _ _ => s
  end.

(** ** Column lookup of [_read_csv] and [_read_excel_ogr] (lines 205-210, 230-237) *)

(** A [dict] with [str] keys, in insertion order: [d[k] = v] and
    [d.get(k, default)]. *)
Fixpoint dict_set {V : Type} (d : list (string * V)) (k : string) (v : V)
    : list (string * V) :=
  match d with
  | [] => [(k, v)]
  | (k', v') :: r =>
      if String.eqb k' k then (k', v) :: r else (k', v') :: dict_set r k v
  end.

Fixpoint dict_get {V : Type} (d : list (string * V)) (k : string) (default : V) : V :=
  match d with
  | [] => default
  | (k', v') :: r => if String.eqb k' k then v' else dict_get r k default
  end.

Section Columns.
(** [s.lower()]. *)
Variable str_lower : string -> string.

(** [{h.lower(): h for h in fieldnames}], and the same dictionary built by
    the loop over the field definitions of the sheet. *)
Definition headers (fieldnames : list string) : list (string * string) :=
  fold_left (fun d h => dict_set d (str_lower h) h) fieldnames [].

Definition pick (fieldnames : list string) (col : string) : string :=
  dict_get (headers fieldnames) (str_lower col) col.
End Columns.

(** ** [infer_octants_from_azimuths] (lines 259-278) *)

(** [np.round(x, 6)]: the nearest multiple of 1e-6, halves to the even one. *)
Definition np_round6 (x : Q) : Q := QofZ (py_round (x * 1000000)) / 1000000.

(** [np.sort], by insertion. *)
Fixpoint insert_q (x : Q) (l : list Q) : list Q :=
  match l with
  | [] => [x]
  | y :: r => if Qltb y x then y :: insert_q x r else x :: y :: r
  end.

Fixpoint np_sort (l : list Q) : list Q :=
  match l with
  | [] => []
  | x :: r => insert_q x (np_sort r)
  end.

(** The elements of a sorted array that differ from their predecessor. *)
Fixpoint drop_repeats (prev : Q) (l : list Q) : list Q :=
  match l with
  | [] => []
  | x :: r => if Qeq_bool x prev then drop_repeats x r else x :: drop_repeats x r
  end.

(** [np.unique]: the sorted distinct values. *)
Definition np_unique (l : list Q) : list Q :=
  match np_sort l with
  | [] => []
  | x :: r => x :: drop_repeats x r
  end.

(** [np.diff]. *)
Fixpoint np_diff (l : list Q) : list Q :=
  match l with
  | [] => []
  | x :: r =>
      match r with
      | [] => []
      | y :: _ => (y - x) :: np_diff r
      end
  end.

Definition np_sum (l : list Q) : Q := fold_left Qplus l 0.

(** [np.max] of an array that is not empty. *)
Definition np_max (l : list Q) : Q := fold_left py_max (tl l) (hd 0 l).

(** The entries kept by [a is not None and not np.isnan(a)]. *)
Definition valid_azimuths (az_values : list (option npfloat)) : list Q :=
  flat_map (fun a => match a with Some (Fin q) => [q] | _ => [] end) az_values.

(** [None] is the [IndexError] of [az_sorted[-1]] on an empty array, which
    is reached when [min_parts] is not positive and no entry is valid. *)
Definition infer_octants_from_azimuths (az_values : list (option npfloat))
    (tolerance_deg : Q) (min_parts : Z) (default_octants : Z) : option Z :=
  let az := valid_azimuths az_values in
  let az := map fmod360 az in
  let az := np_unique (map np_round6 az) in
  let n := length az in
  if (Z.of_nat n <? min_parts)%Z then Some default_octants
  else
    let az_sorted := np_sort az in
    match az_sorted with
    | [] => None
    | first :: _ =>
        let diffs := np_diff az_sorted in
        let diffs := diffs ++ [360 - (last az_sorted 0 - first)] in
        let mean_step := np_sum diffs / Qofnat (length diffs) in
        if Qleb mean_step 0 then Some default_octants
        else
          let max_dev := np_max (map (fun d => Qabs (d - mean_step)) diffs) in
          if Qleb max_dev tolerance_deg
             && (Qleb 350 (np_sum diffs) && Qleb (np_sum diffs) 370)
          then Some (py_round (360 / mean_step))
          else Some default_octants
    end.

(** Numbers that are equal are the same fraction, within a list. *)
Definition canonical (l : list Q) : Prop :=
  forall a b, In a l -> In b l -> a == b -> a = b.

(** ** [_saga_shadow_mask] (lines 377-421) *)

(** [arr == float(ndv)] for a cell; a comparison with [NaN] is false. *)
Definition eq_float (v ndv : npfloat) : bool :=
  match v, ndv with
  | Fin a, Fin b => Qeq_bool a b
  | _, _ => false
  end.

(** What the call of the SAGA algorithm and the reading of its output give:
    an exception of [processing.run], no ["SHADE"] entry, a raster that
    cannot be opened or read, or the band with its no-data value. *)
Inductive saga_run : Type :=
  | SagaFails (err : string)
  | SagaNoShade
  | SagaNotOpened
  | SagaNotRead
  | SagaBand (arr : array2 npfloat) (ndv : option npfloat).

Definition _saga_shadow_mask (res : saga_run) : saga_outcome :=
  match res with
  | SagaFails err => SagaRaises err
  | SagaNoShade => SagaRaises "SAGA output 'SHADE' not returned."
  | SagaNotOpened => SagaRaises "SAGA shade raster could not be opened."
  | SagaNotRead => SagaRaises "SAGA shade raster could not be read."
  | SagaBand arr ndv =>
      let nodata_mask :=
        map (map (fun v => negb (isfinite v)
                           || match ndv with
                              | Some ndv => eq_float v ndv
                              | None => false
                              end)) arr in
      SagaMask (logical_not nodata_mask)
  end.

(** ** [_close_and_optionally_dilate] (lines 423-451) *)

(** Its nested [_binary_dilate] has the text of the one nested in
    [_compute_shadow_octant]. *)
Definition _close_and_optionally_dilate (mask_bool : array2 bool)
    (extra_dilate : bool) (kernel_size : nat) : array2 bool :=
  let m := mask_bool in
  let d1 := _binary_dilate m 3 in
  let e1 := logical_not (_binary_dilate (logical_not d1) 3) in
  let m := e1 in
  if extra_dilate then _binary_dilate m kernel_size else m.

(** ** [processAlgorithm] from the table to the result (lines 674-771) *)

(** A float as [_to_float] returns it: a number, [nan] (the text "nan") or
    an infinity (the text "inf", or a number beyond the doubles). *)
Inductive pyfloat : Type :=
  | PyFin (q : Q)
  | PyNaN
  | PyInf.

(** A row of the table as [_read_table] returns it; [t_name] is the label
    after [strip()].  The constant is a number: a [nan] or an infinity in
    that column takes the path of a number and is written into the raster
    as it is. *)
Record table_row : Type := mk_table_row {
  t_name : string;
  t_azimuth : option pyfloat;
  t_altitude : option pyfloat;
  t_constant : option Q
}.

(** A row that the loop does not skip (line 698). *)
Definition table_complete (r : table_row) : bool :=
  negb (String.length (t_name r) =? 0)%nat
  && match t_azimuth r, t_altitude r, t_constant r with
     | Some _, Some _, Some _ => true
     | _, _, _ => false
     end.

(** [int(round(x))] raises at [nan] (a [ValueError]) and at an infinity (an
    [OverflowError]); the texts are those of the two exceptions. *)
Definition int_round_error (x : pyfloat) : option string :=
  match x with
  | PyFin _ => None
  | PyNaN => Some "cannot convert float NaN to integer"%string
  | PyInf => Some "cannot convert float infinity to integer"%string
  end.

(** The exception that building the file name raises for a row (line 704,
    outside the [try] of line 709): the azimuth is converted first. *)
Definition name_error (r : table_row) : option string :=
  if table_complete r then
    match t_azimuth r, t_altitude r with
    | Some az, Some alt =>
        match int_round_error az with
        | Some msg => Some msg
        | None => int_round_error alt
        end
    | _, _ => None
    end
  else None.

Definition number (x : option pyfloat) : option Q :=
  match x with
  | Some (PyFin q) => Some q
  | _ => None
  end.

(** The numbers of a row of the table. *)
Definition row_of (r : table_row) : row :=
  {| name := t_name r;
     azimuth := number (t_azimuth r);
     altitude := number (t_altitude r);
     constant := t_constant r |}.

(** A row of numbers that the loop does not skip. *)
Definition complete (r : row) : bool :=
  negb (String.length (name r) =? 0)%nat
  && match azimuth r, altitude r, constant r with
     | Some _, Some _, Some _ => true
     | _, _, _ => false
     end.

(** [created], as the numbers of the rows whose [out_path] it holds. *)
Fixpoint created (idx : nat) (results : list row_result) : list nat :=
  match results with
  | [] => []
  | RowSaga _ :: rest => idx :: created (S idx) rest
  | RowScan _ :: rest => idx :: created (S idx) rest
  | _ :: rest => created (S idx) rest
  end.

Section Table.
Variable m : libm.
Variable saga : nat -> Q -> Q -> saga_outcome.
Variable dem : dem_info.
Variable fat_shadow : bool.
Variable fat_kernel : nat.

(** The loop [for idx, row in enumerate(rows, start=1)] over the rows of
    the table: the results of the rows it got through and, when building a
    file name raised, the text of the exception that ended the run. *)
Fixpoint table_loop (st : run_state) (idx : nat) (rows : list table_row)
    : list row_result * option string :=
  match rows with
  | [] => ([], None)
  | r :: rest =>
      if table_complete r then
        match name_error r with
        | Some msg => ([], Some msg)
        | None =>
            let (st1, res) :=
              process_row m saga dem fat_shadow fat_kernel st idx (row_of r) in
            let (ress, err) := table_loop st1 (S idx) rest in
            (res :: ress, err)
        end
      else
        let (ress, err) := table_loop st (S idx) rest in
        (RowSkipped :: ress, err)
  end.
End Table.

(** The run ends with an exception, after the rows in [results], or
    returns [created]. *)
Inductive run_result : Type :=
  | RunRaises (msg : string) (results : list row_result)
  | RunReturns (results : list row_result) (output_files : list nat).

Definition run_results (out : run_result) : list row_result :=
  match out with
  | RunRaises _ results => results
  | RunReturns results _ => results
  end.

(** [processAlgorithm] from the point where the table has been read;
    [octs] is the value of [infer_octants_from_azimuths] at line 679. *)
Definition processAlgorithm_table (m : libm) (saga : nat -> Q -> Q -> saga_outcome)
    (dem : dem_info) (rows : list table_row) (prefer_saga fat_shadow : bool)
    (fat_kernel_idx : nat) (octs : Z) : run_result :=
  match rows with
  | [] => RunRaises "Table contains no data." []
  | _ :: _ =>
      let self := {| _EDGE_BIAS_PX := _EDGE_BIAS_PX TOOLBOX_2_HILLSHADES;
                     _MAX_DIST := _MAX_DIST TOOLBOX_2_HILLSHADES;
                     _EPS_M := None;
                     __RAY_GAP_MAX := __RAY_GAP_MAX TOOLBOX_2_HILLSHADES;
                     _OCTANTS := octs |} in
      let fat_kernel := if (fat_kernel_idx =? 0)%nat then 3%nat else 2%nat in
      let (results, err) :=
        table_loop m saga dem fat_shadow fat_kernel
          {| saga_enabled := prefer_saga; self_ := self |} 1 rows in
      match err with
      | Some msg => RunRaises msg results
      | None =>
          match created 1 results with
          | [] => RunRaises "No shadow masks were created." results
          | _ :: _ => RunReturns results (created 1 results)
          end
      end
  end.

(** A complete row of the table: west light at 45 degrees, constant 1. *)
Definition table_west : table_row :=
  {| t_name := "W"; t_azimuth := Some (PyFin 270); t_altitude := Some (PyFin 45);
     t_constant := Some 1 |}.

(** * The scan in binary64

    The strip sweep once more, now with every [float] a binary64 number
    ([PrimFloat.float]) and every operation of lines 467-575 rounded as
    Python rounds it.  The statements that depend on how the arithmetic
    rounds are made about these definitions.  The boolean stages (1-D gap
    fill, 2-D closing, dilation) are the ones defined above. *)

Module B64.
#[local] Set Warnings "-inexact-float".
Local Open Scope float_scope.

(** ** Numbers *)

(** [float(n)] for a Python integer [n]: the nearest double.  (Beyond the
    range of the doubles Python raises an [OverflowError] where this is an
    infinity; the indices of a raster are far below.) *)
Definition of_int (n : Z) : float := SF2Prim (binary_normalize prec emax n 0 false).

(** Python's two-argument [min] and [max]: the first argument wins unless
    the second is strictly smaller (larger); a comparison with [nan] is
    false. *)
Definition py_min (a b : float) : float := if b <? a then b else a.
Definition py_max (a b : float) : float := if a <? b then b else a.

(** The value [n * 2^e] of a finite float, as a pair [(n, e)]; [None] for
    an infinity or [nan]. *)
Definition to_scaled (x : float) : option (Z * Z) :=
  match Prim2SF x with
  | S754_zero _ => Some (0%Z, 0%Z)
  | S754_finite s m e => Some (if s then Z.neg m else Z.pos m, e)
  | _ => None
  end.

(** Numerator and denominator of a finite float. *)
Definition to_fraction (x : float) : option (Z * Z) :=
  match to_scaled x with
  | Some (n, e) =>
      Some (if (0 <=? e)%Z then (n * 2 ^ e, 1) else (n, 2 ^ (- e)))%Z
  | None => None
  end.

(** [int(math.floor(x))], [int(math.ceil(x))] and [round(x)] (halves to the
    even integer); [None] is the [ValueError] or [OverflowError] they raise
    at [nan] and at an infinity. *)
Definition py_floor (x : float) : option Z :=
  match to_fraction x with
  | Some (n, d) => Some (n / d)%Z
  | None => None
  end.

Definition py_ceil (x : float) : option Z :=
  match to_fraction x with
  | Some (n, d) => Some (- ((- n) / d))%Z
  | None => None
  end.

Definition py_round (x : float) : option Z :=
  match to_fraction x with
  | Some (n, d) =>
      let f := (n / d)%Z in
      let r := (2 * (n - f * d))%Z in
      Some (if (r <? d)%Z then f
            else if (d <? r)%Z then (f + 1)%Z
            else if Z.even f then f else (f + 1)%Z)
  | None => None
  end.

(** [x % y] for floats, [y] finite and not zero: the remainder of C's
    [fmod], which is exact, moved to the sign of [y] by one rounded
    addition. *)
Definition py_mod (x y : float) : float :=
  match to_scaled x, to_scaled y with
  | Some (nx, ex), Some (ny, ey) =>
      let e := Z.min ex ey in
      let a := (nx * 2 ^ (ex - e))%Z in
      let b := (ny * 2 ^ (ey - e))%Z in
      let r := Z.rem a b in
      let fm := SF2Prim (binary_normalize prec emax r e (x <? 0)) in
      if (r =? 0)%Z then (if y <? 0 then (- 0) else 0)
      else if Bool.eqb (y <? 0) (fm <? 0) then fm else fm + y
  | _, _ => nan
  end.

(** Narrowing to float32 ([astype(np.float32)]). *)
Definition f32 (x : float) : float :=
  match Prim2SF x with
  | S754_finite s m e =>
      SF2Prim (binary_normalize 24 128 (if s then Z.neg m else Z.pos m) e s)
  | _ => x
  end.

(** ** The prepared raster and the class attributes *)

Record geotransform : Type := mk_gt {
  gt0_ : float; gt1 : float; gt2 : float; gt3 : float; gt4 : float; gt5 : float
}.

(** The dictionary returned by [_prepare_dem]: [dem_Z] holds float32
    values, [nan] in every no-data cell. *)
Record dem_info : Type := mk_dem {
  dem_Z : array2 float;
  mask_nd : array2 bool;
  nodata : float;
  gt : geotransform;
  proj : string;
  ny : nat;
  nx : nat
}.

Record tool : Type := mk_tool {
  _EDGE_BIAS_PX : float;
  _MAX_DIST : float;
  _EPS_M : option float;
  __RAY_GAP_MAX : option Z;
  _OCTANTS : Z
}.

Definition TOOLBOX_2_HILLSHADES : tool :=
  {| _EDGE_BIAS_PX := -0.5;
     _MAX_DIST := 0.0;
     _EPS_M := None;
     __RAY_GAP_MAX := Some 3%Z;
     _OCTANTS := 32%Z |}.

Definition gap_max_of (self : tool) : nat :=
  match __RAY_GAP_MAX self with
  | Some v => if (v <? 0)%Z then O else Z.to_nat v
  | None => O
  end.

(** ** Solar geometry (lines 467-500) *)

Record libm : Type := mk_libm {
  radians : float -> float;
  cos : float -> float;
  sin : float -> float;
  tan : float -> float
}.

Definition dir_eps : float := 1e-9.

(** [if abs(d) < dir_eps: d = 0.0]. *)
Definition snap (d : float) : float := if abs d <? dir_eps then 0.0 else d.

Section Geometry.
Variable m : libm.
Variable g : geotransform.
Variables az alt : float.

Definition cellx : float := abs (gt1 g).
Definition celly : float := abs (gt5 g).

Definition azr : float := radians m (py_mod (450.0 - az) 360.0).
Definition tan_alt : float := tan m (radians m alt).

Definition ux : float := - cos m azr.
Definition uy : float := - sin m azr.

Definition vx_col_x : float := cellx.
Definition vx_col_y : float := 0.0.
Definition vx_row_x : float := 0.0.
Definition vx_row_y : float := - celly.

Definition dL_col : float := vx_col_x * ux + vx_col_y * uy.
Definition dL_row : float := vx_row_x * ux + vx_row_y * uy.

Definition upx : float := - uy.
Definition upy : float := ux.

Definition dS_col : float := snap (vx_col_x * upx + vx_col_y * upy).
Definition dS_row : float := snap (vx_row_x * upx + vx_row_y * upy).
End Geometry.

(** ** Strip partition (lines 502-552) *)

Definition strip_w (dSc dSr : float) : float :=
  py_max 1e-9
    (py_min (if 0.0 <? abs dSc then abs dSc else infinity)
            (if 0.0 <? abs dSr then abs dSr else infinity)).

Definition cell : Type := (float * nat * nat)%type.
Definition key (c : cell) : float := fst (fst c).
Definition crow (c : cell) : nat := snd (fst c).
Definition ccol (c : cell) : nat := snd c.

(** The results of the rows of one strip, or of the strips of the loop, put
    together; [None] as soon as one of them raises. *)
Fixpoint gather {A B : Type} (f : A -> option (list B)) (l : list A)
    : option (list B) :=
  match l with
  | [] => Some []
  | x :: r =>
      match f x, gather f r with
      | Some a, Some b => Some (a ++ b)
      | _, _ => None
      end
  end.

Section Partition.
Variables dLc dLr dSc dSr : float.
Variable nd : array2 bool.
Variables ny_ nx_ : nat.

Definition S_of (i j : Z) : float := of_int i * dSr + of_int j * dSc.
Definition L_of (i j : nat) : float :=
  of_int (Z.of_nat i) * dLr + of_int (Z.of_nat j) * dLc.

  (** S-range from the DEM corners. *)
Definition corners : list (Z * Z) :=
    let ny1 := (Z.of_nat ny_ - 1)%Z in
    let nx1 := (Z.of_nat nx_ - 1)%Z in
    [(0, 0); (0, nx1); (ny1, 0); (ny1, nx1)]%Z.

Definition S_vals : list float := map (fun c => S_of (fst c) (snd c)) corners.

Definition Smin : float := fold_left py_min (tl S_vals) (hd 0.0 S_vals).
Definition Smax : float := fold_left py_max (tl S_vals) (hd 0.0 S_vals).

Definition s_idx_min : option Z :=
    match py_round (Smin / strip_w dSc dSr) with
    | Some k => Some (k - 1)%Z
    | None => None
    end.

Definition s_idx_max : option Z :=
    match py_round (Smax / strip_w dSc dSr) with
    | Some k => Some (k + 1)%Z
    | None => None
    end.

  (** The columns scanned in row [i] for strip [s_idx]; [None] when
      [math.floor] or [math.ceil] raises. *)
Definition j_range (s_idx : Z) (i : nat) : option (list nat) :=
    let S_target := of_int s_idx * strip_w dSc dSr in
    let half_w := 0.5 * strip_w dSc dSr in
    if dir_eps <? abs dSc then
      let j_star := (S_target - of_int (Z.of_nat i) * dSr) / dSc in
      match py_floor (j_star - 1), py_ceil (j_star + 1) with
      | Some f, Some c =>
          let j0 := Z.max 0 f in
          let j1 := Z.min (Z.of_nat nx_ - 1) c in
          Some (map Z.to_nat (zrange j0 (j1 + 1)))
      | _, _ => None
      end
    else
      let S_row0 := of_int (Z.of_nat i) * dSr in
      if half_w <? abs (S_row0 - S_target) then Some [] else Some (seq 0 nx_).

  (** The cells of row [i] that strip [s_idx] takes. *)
Definition row_cells (s_idx : Z) (i : nat) : option (list cell) :=
    let S_target := of_int s_idx * strip_w dSc dSr in
    let half_w := 0.5 * strip_w dSc dSr in
    match j_range s_idx i with
    | Some js =>
        Some (flat_map (fun j =>
          let S_ij := of_int (Z.of_nat i) * dSr + of_int (Z.of_nat j) * dSc in
          if abs (S_ij - S_target) <=? half_w then
            if negb (get false nd i j) then [(L_of i j, i, j)] else []
          else []) js)
    | None => None
    end.

  (** The list [cells_i] of one strip: triples [(L_ij, i, j)]. *)
Definition collect_cells (s_idx : Z) : option (list cell) :=
    gather (row_cells s_idx) (seq 0 ny_).
End Partition.

(** ** Horizon sweep (lines 559-575) *)

(** [cells_i.sort(key=lambda t: t[0])]: a stable sort on the first
    component, here by insertion. *)
Fixpoint insert_cell (c : cell) (l : list cell) : list cell :=
  match l with
  | [] => [c]
  | y :: r => if key y <? key c then y :: insert_cell c r else c :: y :: r
  end.

Fixpoint sort_cells (l : list cell) : list cell :=
  match l with
  | [] => []
  | c :: r => insert_cell c (sort_cells r)
  end.

Section Sweep.
Variable hgt : array2 float.
Variables tan_a eps_m maxd L0 : float.

  (** The [for (Lk, i, j) in cells_i] loop, with its [break]. *)
Fixpoint horizon_sweep (cells : list cell) (horizon : float) (shadow : array2 bool)
      : array2 bool :=
    match cells with
    | [] => shadow
    | (Lk, i, j) :: rest =>
        let d := Lk - L0 in
        let z := get nan hgt i j in
        let T := z + tan_a * d in
        let shadow' := if T - eps_m <? horizon then set shadow i j true else shadow in
        let horizon' := if horizon <? T then T else horizon in
        if (0.0 <? maxd) && (maxd <? d) then shadow'
        else horizon_sweep rest horizon' shadow'
    end.
End Sweep.

(** [for val, (_, i, j) in zip(vals, cells_i): shadow[i, j] = val]. *)
Definition write_back (vals : list bool) (cells : list cell) (shadow : array2 bool)
    : array2 bool :=
  fold_left (fun sh vc => set sh (crow (snd vc)) (ccol (snd vc)) (fst vc))
            (combine vals cells) shadow.

(** ** One strip, and the loop over the strips *)

Section Strips.
Variable hgt : array2 float.
Variables tan_a eps_m maxd : float.
Variable gap_max : nat.

Definition scan_strip (shadow : array2 bool) (cells_i : list cell) : array2 bool :=
    match cells_i with
    | [] => shadow
    | _ :: _ =>
        let cells := sort_cells cells_i in
        let L0 := key (hd (0.0, O, O) cells) in
        let shadow1 := horizon_sweep hgt tan_a eps_m maxd L0 cells (-1e38) shadow in
        if (0 <? gap_max)%nat then
          let vals := map (fun c => get false shadow1 (crow c) (ccol c)) cells in
          if (3 <=? length vals)%nat
          then write_back (ray_gap_fill gap_max vals) cells shadow1
          else shadow1
        else shadow1
    end.

Definition scan_strips (strips : list (list cell)) (shadow : array2 bool)
      : array2 bool :=
    fold_left scan_strip strips shadow.
End Strips.

(** ** The mask writer (lines 322-351) *)

Record written : Type := mk_written {
  w_shadow : array2 bool;   (* [shadow_bool] after the writer has masked it in place *)
  w_out : array2 float      (* the float32 array handed to [WriteArray] *)
}.

(** [None] is the [QgsProcessingException] of the shape test. *)
Definition _write_shadow_mask (dem : dem_info) (shadow_bool : array2 bool)
    (const_val : option float) : option written :=
  let ny_ := ny dem in
  let nx_ := nx dem in
  if negb (has_shape shadow_bool ny_ nx_) then None
  else
    let shadow := mask_assign false ny_ nx_ shadow_bool (mask_nd dem) false in
    let mask_le := tabulate ny_ nx_ (fun i j =>
      negb (get false (mask_nd dem) i j)
      && is_finite (get nan (dem_Z dem) i j)
      && (0.0 <? get nan (dem_Z dem) i j)) in
    let c := match const_val with Some v => v | None => 1.0 end in
    let out := tabulate ny_ nx_ (fun i j => f32 (if get false shadow i j then c else 0.0)) in
    let out :=
      if abs (c - 5.0) <? 1e-6
      then mask_assign 0.0 ny_ nx_ out mask_le 5.0 else out in
    let out := mask_assign 0.0 ny_ nx_ out (mask_nd dem) (f32 (nodata dem)) in
    Some {| w_shadow := shadow; w_out := out |}.

(** ** [_compute_shadow_octant] (lines 453-638) *)

Record scan_result : Type := mk_scan {
  r_raw : array2 bool;           (* [shadow] after the strip loop *)
  r_masked : array2 bool;        (* after [shadow[mask_nd] = False], line 605 *)
  r_handed : array2 bool;        (* the array passed to [_write_shadow_mask] *)
  r_written : option written     (* what the writer did with it *)
}.

Definition eps_of (self : tool) (g : geotransform) : float :=
  match _EPS_M self with
  | Some e => e
  | None => 1e-5 * py_max (cellx g) (celly g)
  end.

(** The lists [cells_i] of all strips, in the order of the strip loop;
    [None] when [round], [math.floor] or [math.ceil] raises. *)
Definition strips_of (m : libm) (dem : dem_info) (az : float)
    : option (list (list cell)) :=
  let g := gt dem in
  let dLc := dL_col m g az in
  let dLr := dL_row m g az in
  let dSc := dS_col m g az in
  let dSr := dS_row m g az in
  match s_idx_min dSc dSr (ny dem) (nx dem), s_idx_max dSc dSr (ny dem) (nx dem) with
  | Some lo, Some hi =>
      gather (fun s_idx =>
                match collect_cells dLc dLr dSc dSr (mask_nd dem) (ny dem) (nx dem) s_idx with
                | Some cells_i => Some [cells_i]
                | None => None
                end)
             (zrange lo (hi + 1))
  | _, _ => None
  end.

(** The instance after the call (the tolerance is set at line 471, before
    anything can raise) and, unless the strip geometry raised, the masks. *)
Definition _compute_shadow_octant (m : libm) (self : tool) (dem : dem_info)
    (az alt : float) (octants : Z) (maxd : float) (edge_bias_px : float)
    (const_val : option float) (fat_shadow : bool) (fat_kernel : nat)
    : tool * option scan_result :=
  let eps_m := eps_of self (gt dem) in
  let self' := {| _EDGE_BIAS_PX := _EDGE_BIAS_PX self;
                  _MAX_DIST := _MAX_DIST self;
                  _EPS_M := Some eps_m;
                  __RAY_GAP_MAX := __RAY_GAP_MAX self;
                  _OCTANTS := _OCTANTS self |} in
  match strips_of m dem az with
  | None => (self', None)
  | Some strips =>
      let shadow0 := zeros (ny dem) (nx dem) in
      let raw := scan_strips (dem_Z dem) (tan_alt m alt) eps_m maxd (gap_max_of self)
                             strips shadow0 in
      let masked := mask_assign false (ny dem) (nx dem) raw (mask_nd dem) false in
      let closed := closing masked in
      let handed := if fat_shadow then _binary_dilate closed fat_kernel else closed in
      (self', Some {| r_raw := raw;
                      r_masked := masked;
                      r_handed := handed;
                      r_written := _write_shadow_mask dem handed const_val |})
  end.

(** ** Scenarios *)

Definition lookup (tbl : list (float * float)) (x : float) : float :=
  match find (fun p => fst p =? x) tbl with
  | Some p => snd p
  | None => nan
  end.

(** The doubles that Python's [math] returns at the arguments the scenarios
    below use. *)
Definition py_libm : libm :=
  {| radians := lookup
       [ (180.0, 0x1.921fb54442d18p+1);         (* 3.141592653589793 *)
         (45.0, 0x1.921fb54442d18p-1);          (* 0.7853981633974483 *)
         (135.0, 0x1.2d97c7f3321d2p+1);         (* 2.356194490192345 *)
         (0.0001, 0x1.d4821ce8eba53p-20);       (* 1.7453292519943296e-06 *)
         (0.0007, 0x1.99f1d94bce308p-17);       (* 1.2217304763960306e-05 *)
         (26.565509541480615, 0x1.dac88934830eap-2);   (* 0.46365560896880587 *)
         (26.565509541480626, 0x1.dac88934830edp-2) ]; (* 0.46365560896880603 *)
     cos := lookup
       [ (0x1.921fb54442d18p+1, -1.0);
         (0x1.921fb54442d18p-1, 0x1.6a09e667f3bcdp-1) ];   (* 0.7071067811865476 *)
     sin := lookup
       [ (0x1.921fb54442d18p+1, 0x1.1a62633145c07p-53);    (* 1.2246467991473532e-16 *)
         (0x1.921fb54442d18p-1, 0x1.6a09e667f3bccp-1) ];   (* 0.7071067811865475 *)
     tan := lookup
       [ (0x1.921fb54442d18p-1, 0x1.fffffffffffffp-1);     (* 0.9999999999999999 *)
         (0x1.2d97c7f3321d2p+1, -0x1.0000000000001p+0);    (* -1.0000000000000002 *)
         (0x1.d4821ce8eba53p-20, 0x1.d4821ce8edb04p-20);   (* 1.7453292519961018e-06 *)
         (0x1.99f1d94bce308p-17, 0x1.99f1d94c25caap-17);   (* 1.2217304764568167e-05 *)
         (0x1.dac88934830eap-2, 0x1.00014f8b588e1p-1);     (* 0.5000099999999997 *)
         (0x1.dac88934830edp-2, 0x1.00014f8b588e3p-1) ] |}. (* 0.50001 *)

(** A raster without no-data cells, from its heights and its pixel size. *)
Definition raster (hgt : array2 float) (px py : float) : dem_info :=
  {| dem_Z := hgt;
     mask_nd := zeros (length hgt) (length (hd [] hgt));
     nodata := -9999.0;
     gt := mk_gt 0.0 px 0.0 0.0 0.0 (- py);
     proj := EmptyString;
     ny := length hgt;
     nx := length (hd [] hgt) |}.

(** ** Notions used in the statements *)

(** The outcomes of the test [horizon > T - eps_m] at the cells the loop
    of lines 566-575 visits, in the order of the visit. *)
Fixpoint sweep_tests (hgt : array2 float) (tan_a eps_m maxd L0 : float)
    (cells : list cell) (horizon : float) : list bool :=
  match cells with
  | [] => []
  | (Lk, i, j) :: rest =>
      let d := Lk - L0 in
      let z := get nan hgt i j in
      let T := z + tan_a * d in
      (T - eps_m <? horizon)
      :: (if (0.0 <? maxd) && (maxd <? d) then []
          else sweep_tests hgt tan_a eps_m maxd L0 rest
                 (if horizon <? T then T else horizon))
  end.


(** The tests of every strip of a scan. *)
Definition scan_tests (m : libm) (self : tool) (dem : dem_info) (az alt maxd : float)
    : option (list (list bool)) :=
  match strips_of m dem az with
  | Some strips =>
      Some (map (fun cells_i =>
                   let cells := sort_cells cells_i in
                   sweep_tests (dem_Z dem) (tan_alt m alt) (eps_of self (gt dem)) maxd
                     (key (hd (0.0, O, O) cells)) cells (-1e38))
                strips)
  | None => None
  end.

(** Every test that succeeds in the first list succeeds in the second. *)
Definition tests_le (t2 t1 : list bool) : bool :=
  forallb (fun p => implb (fst p) (snd p)) (combine t2 t1).

Definition tests_ordered (m : libm) (self : tool) (dem : dem_info)
    (az alt1 alt2 maxd : float) : bool :=
  match scan_tests m self dem az alt1 maxd, scan_tests m self dem az alt2 maxd with
  | Some ts1, Some ts2 =>
      forallb (fun p => tests_le (fst p) (snd p)) (combine ts2 ts1)
  | _, _ => false
  end.

(** Projected height of a cell of a raster of uniform height [h], as line
    569 computes it. *)
Definition flat_T (h tan_a L0 : float) (c : cell) : float :=
  h + tan_a * (key c - L0).

(** In a sorted strip of a raster of uniform height, no cell has its
    [T - eps_m] below the start value of the horizon or below the [T] of a
    cell before it; [earlier] holds the projected heights met so far. *)
Fixpoint separated (h tan_a eps_m L0 : float) (earlier : list float)
    (cells : list cell) : bool :=
  match cells with
  | [] => true
  | c :: r =>
      let T := flat_T h tan_a L0 c in
      negb (T - eps_m <? -1e38)
      && forallb (fun T' => negb (T - eps_m <? T')) earlier
      && separated h tan_a eps_m L0 (T :: earlier) r
  end.

Definition strips_separated (m : libm) (self : tool) (dem : dem_info)
    (az alt h : float) : bool :=
  match strips_of m dem az with
  | Some strips =>
      forallb (fun cells_i =>
                 let cells := sort_cells cells_i in
                 separated h (tan_alt m alt) (eps_of self (gt dem))
                   (key (hd (0.0, O, O) cells)) [] cells)
              strips
  | None => false
  end.

(** Whether the cell [(i, j)] is in a list [cells_i]. *)
Definition holds_cell (i j : nat) (cells_i : list cell) : bool :=
  existsb (fun c => (crow c =? i)%nat && (ccol c =? j)%nat) cells_i.

(** The 3 x 3 grid of height 0 with 1 m x 1 m cells. *)
Definition flat_dem : dem_info := raster (tabulate 3 3 (fun _ _ => 0.0)) 1.0 1.0.

(** A row of four cells of height 2^37 (a float32 value), 1 m x 1 m. *)
Definition high_flat_dem : dem_info :=
  raster [[137438953472.0; 137438953472.0; 137438953472.0; 137438953472.0]] 1.0 1.0.

(** A row of five cells, 1 m x 1 m. *)
Definition ridge_dem : dem_info := raster [[0.5; 1.0; 1.0; 0.5; 10.0]] 1.0 1.0.

(** The 10 x 10 grid of height 0 with [height[5][5] = 10], 1 m x 1 m. *)
Definition spike_dem : dem_info :=
  raster (tabulate 10 10 (fun i j =>
            if (i =? 5)%nat && (j =? 5)%nat then 10.0 else 0.0)) 1.0 1.0.

(** A flat 4 x 4 grid with cells 1.5 m wide and 1 m high. *)
Definition oblong_dem : dem_info := raster (tabulate 4 4 (fun _ _ => 0.0)) 1.5 1.0.

End B64.

(** * Properties *)

(** ** Comparisons *)

Lemma Qltb_lt (x y : Q) : Qltb x y = true <-> x < y.
Proof.
  unfold Qltb. rewrite negb_true_iff. split; intro H.
  - apply Qnot_le_lt. intro Hle. apply Qle_bool_iff in Hle. congruence.
  - destruct (Qle_bool y x) eqn:E; [|reflexivity].
    apply Qle_bool_iff in E. exfalso. apply (Qlt_not_le _ _ H E).
Qed.

Lemma Qltb_ge (x y : Q) : Qltb x y = false <-> y <= x.
Proof.
  unfold Qltb. rewrite negb_false_iff. apply Qle_bool_iff.
Qed.

Lemma Qleb_le (x y : Q) : Qleb x y = true <-> x <= y.
Proof. apply Qle_bool_iff. Qed.

Lemma Qleb_gt (x y : Q) : Qleb x y = false <-> y < x.
Proof.
  unfold Qleb. split; intro H.
  - apply Qnot_le_lt. intro Hle. apply Qle_bool_iff in Hle. congruence.
  - destruct (Qle_bool x y) eqn:E; [|reflexivity].
    apply Qle_bool_iff in E. exfalso. apply (Qlt_not_le _ _ H E).
Qed.

Ltac qbool :=
  repeat match goal with
  | H : Qltb _ _ = true |- _ => apply Qltb_lt in H
  | H : Qltb _ _ = false |- _ => apply Qltb_ge in H
  | H : Qleb _ _ = true |- _ => apply Qleb_le in H
  | H : Qleb _ _ = false |- _ => apply Qleb_gt in H
  end.

(** ** Arrays *)

Lemma nth_set_nth {A : Type} (l : list A) (k k' : nat) (v d : A) :
  nth k' (set_nth l k v) d =
  if (k =? k')%nat && (k <? length l)%nat then v else nth k' l d.
Proof.
  revert k k'. induction l as [|x r IH]; intros k k'.
  - simpl. rewrite andb_false_r. reflexivity.
  - destruct k as [|k]; destruct k' as [|k']; simpl; try reflexivity.
    rewrite IH. reflexivity.
Qed.

Lemma length_set_nth {A : Type} (l : list A) (k : nat) (v : A) :
  length (set_nth l k v) = length l.
Proof.
  revert k. induction l as [|x r IH]; intros [|k]; simpl; auto.
Qed.

Section ArrayFacts.
Context {A : Type}.

Lemma get_set (a : array2 A) (i j i' j' : nat) (v d : A) :
    get d (set a i j v) i' j' =
    if (i =? i')%nat && (j =? j')%nat
       && (i <? length a)%nat && (j <? length (nth i a []))%nat
    then v else get d a i' j'.
  Proof.
    unfold get, set. rewrite nth_set_nth.
    destruct (i =? i')%nat eqn:Ei; simpl; [|reflexivity].
    apply Nat.eqb_eq in Ei. subst i'.
    destruct (i <? length a)%nat eqn:Hi; simpl.
    - rewrite nth_set_nth.
      destruct (j =? j')%nat; simpl; [|reflexivity].
      destruct (j <? length (nth i a []))%nat; reflexivity.
    - rewrite andb_false_r. reflexivity.
  Qed.

Lemma get_tabulate (ny nx : nat) (f : nat -> nat -> A) (d : A) (i j : nat) :
    (i < ny)%nat -> (j < nx)%nat -> get d (tabulate ny nx f) i j = f i j.
  Proof.
    intros Hi Hj. unfold get, tabulate.
    rewrite (nth_indep _ [] (map (fun j0 => f 0%nat j0) (seq 0 nx)))
      by (rewrite length_map, length_seq; exact Hi).
    rewrite (map_nth (fun i0 => map (fun j0 => f i0 j0) (seq 0 nx)) (seq 0 ny) 0%nat i).
    rewrite seq_nth by exact Hi. simpl.
    rewrite (nth_indep _ d (f i 0%nat))
      by (rewrite length_map, length_seq; exact Hj).
    rewrite (map_nth (fun j0 => f i j0) (seq 0 nx) 0%nat j).
    rewrite seq_nth by exact Hj. reflexivity.
  Qed.

Lemma has_shape_tabulate (ny nx : nat) (f : nat -> nat -> A) :
    has_shape (tabulate ny nx f) ny nx = true.
  Proof.
    unfold has_shape, tabulate. rewrite length_map, length_seq, Nat.eqb_refl. simpl.
    apply forallb_forall. intros r Hr. apply in_map_iff in Hr.
    destruct Hr as [i [<- _]]. rewrite length_map, length_seq. apply Nat.eqb_refl.
  Qed.

Lemma has_shape_length (a : array2 A) (ny nx : nat) :
    has_shape a ny nx = true -> length a = ny.
  Proof.
    unfold has_shape. intro H. apply andb_true_iff in H. destruct H as [H _].
    apply Nat.eqb_eq in H. exact H.
  Qed.

Lemma has_shape_row (a : array2 A) (ny nx i : nat) :
    has_shape a ny nx = true -> (i < ny)%nat -> length (nth i a []) = nx.
  Proof.
    unfold has_shape. intros H Hi. apply andb_true_iff in H. destruct H as [Hl Hr].
    apply Nat.eqb_eq in Hl. rewrite forallb_forall in Hr.
    apply Nat.eqb_eq. apply Hr. apply nth_In. lia.
  Qed.

Lemma has_shape_hd (a : array2 A) (ny nx : nat) :
    has_shape a ny nx = true -> (0 < ny)%nat -> length (hd [] a) = nx.
  Proof.
    intros H Hpos. rewrite <- (has_shape_row a ny nx 0 H Hpos).
    destruct a; reflexivity.
  Qed.

Lemma has_shape_set (a : array2 A) (ny nx i j : nat) (v : A) :
    has_shape a ny nx = true -> has_shape (set a i j v) ny nx = true.
  Proof.
    unfold has_shape, set. intro H. apply andb_true_iff in H. destruct H as [Hl Hr].
    rewrite length_set_nth, Hl. simpl.
    rewrite forallb_forall in Hr. apply forallb_forall. intros r Hin.
    destruct (In_nth _ _ [] Hin) as [k [Hk Hnth]].
    rewrite length_set_nth in Hk. rewrite nth_set_nth in Hnth. subst r.
    destruct ((i =? k)%nat && (i <? length a)%nat) eqn:E.
    - rewrite length_set_nth. apply Hr. apply nth_In.
      apply andb_true_iff in E. destruct E as [_ E]. apply Nat.ltb_lt in E. exact E.
    - apply Hr. apply nth_In. exact Hk.
  Qed.

  (** Two arrays of one shape with the same cells are the same array. *)
Lemma array2_ext (a b : array2 A) (ny nx : nat) (d : A) :
    has_shape a ny nx = true -> has_shape b ny nx = true ->
    (forall i j, (i < ny)%nat -> (j < nx)%nat -> get d a i j = get d b i j) ->
    a = b.
  Proof.
    intros Ha Hb Hget.
    apply (nth_ext a b [] []).
    - rewrite (has_shape_length _ _ _ Ha), (has_shape_length _ _ _ Hb). reflexivity.
    - intros i Hi. rewrite (has_shape_length _ _ _ Ha) in Hi.
      apply (nth_ext _ _ d d).
      + rewrite (has_shape_row _ _ _ _ Ha Hi), (has_shape_row _ _ _ _ Hb Hi). reflexivity.
      + intros j Hj. rewrite (has_shape_row _ _ _ _ Ha Hi) in Hj.
        apply (Hget i j Hi Hj).
  Qed.

Lemma get_mask_assign (d : A) (ny nx : nat) (a : array2 A) (mask : array2 bool)
      (v : A) (i j : nat) :
    (i < ny)%nat -> (j < nx)%nat ->
    get d (mask_assign d ny nx a mask v) i j =
    if get false mask i j then v else get d a i j.
  Proof.
    intros Hi Hj. unfold mask_assign. rewrite get_tabulate by assumption. reflexivity.
  Qed.
End ArrayFacts.

Lemma get_zeros (ny nx i j : nat) : get false (zeros ny nx) i j = false.
Proof.
  unfold zeros.
  destruct (Nat.ltb_spec i ny) as [Hi|Hi]; destruct (Nat.ltb_spec j nx) as [Hj|Hj].
  - apply get_tabulate; assumption.
  - unfold get, tabulate.
    rewrite (nth_indep _ [] (map (fun _ => false) (seq 0 nx)))
      by (rewrite length_map, length_seq; exact Hi).
    rewrite (map_nth (fun _ : nat => map (fun _ : nat => false) (seq 0 nx)) (seq 0 ny) 0%nat i).
    apply nth_overflow. rewrite length_map, length_seq. exact Hj.
  - unfold get. rewrite (nth_overflow (tabulate ny nx _)).
    + destruct j; reflexivity.
    + unfold tabulate. rewrite length_map, length_seq. exact Hi.
  - unfold get. rewrite (nth_overflow (tabulate ny nx _)).
    + destruct j; reflexivity.
    + unfold tabulate. rewrite length_map, length_seq. exact Hi.
Qed.

(** ** The prepared raster *)

Lemma prepare_dem_ok (band : array2 npfloat) (band_nodata : option Q)
    (g : geotransform) (p : string) :
  dem_ok (_prepare_dem band band_nodata g p).
Proof.
  unfold dem_ok, _prepare_dem. cbn [dem_Z mask_nd ny nx].
  split; [apply has_shape_tabulate|]. split; [apply has_shape_tabulate|].
  intros i j Hi Hj. rewrite get_mask_assign by assumption.
  rewrite get_tabulate by assumption.
  destruct (isfinite (get NaN band i j)) eqn:Ef; cbn [negb orb].
  - destruct (is_nodata (get NaN band i j) _); [reflexivity|].
    rewrite Ef. reflexivity.
  - reflexivity.
Qed.

(** ** Morphology *)

Lemma padv_true (a : array2 bool) (ny nx i j : nat) :
  padv a ny nx i j = true <->
  exists i' j', i = S i' /\ j = S j' /\ (i' < ny)%nat /\ (j' < nx)%nat /\
                get false a i' j' = true.
Proof.
  unfold padv. split.
  - destruct i as [|i']; [discriminate|]. destruct j as [|j']; [discriminate|].
    destruct ((i' <? ny)%nat && (j' <? nx)%nat) eqn:E; [|discriminate].
    apply andb_true_iff in E. destruct E as [Hi Hj].
    apply Nat.ltb_lt in Hi. apply Nat.ltb_lt in Hj.
    intro H. exists i', j'. auto.
  - intros [i' [j' [-> [-> [Hi [Hj H]]]]]].
    apply Nat.ltb_lt in Hi. apply Nat.ltb_lt in Hj. rewrite Hi, Hj. exact H.
Qed.

Lemma get_np_pad (a : array2 bool) (i j : nat) :
  (i < length a + 2)%nat -> (j < length (hd [] a) + 2)%nat ->
  get false (np_pad a) i j = padv a (length a) (length (hd [] a)) i j.
Proof.
  intros Hi Hj. unfold np_pad. rewrite get_tabulate by assumption. reflexivity.
Qed.

Lemma get_view_pad (a : array2 bool) (r c i j : nat) :
  (r <= 2)%nat -> (c <= 2)%nat -> (i < length a)%nat -> (j < length (hd [] a))%nat ->
  get false (view (np_pad a) r c (length a) (length (hd [] a))) i j =
  padv a (length a) (length (hd [] a)) (r + i) (c + j).
Proof.
  intros Hr Hc Hi Hj. unfold view. rewrite get_tabulate by assumption.
  apply get_np_pad; lia.
Qed.

Lemma get_logical_or (ny nx : nat) (a b : array2 bool) (i j : nat) :
  (i < ny)%nat -> (j < nx)%nat ->
  get false (logical_or ny nx a b) i j = get false a i j || get false b i j.
Proof.
  intros Hi Hj. unfold logical_or. rewrite get_tabulate by assumption. reflexivity.
Qed.

Lemma get_logical_not (a : array2 bool) (ny nx i j : nat) :
  has_shape a ny nx = true -> (i < ny)%nat -> (j < nx)%nat ->
  get false (logical_not a) i j = negb (get false a i j).
Proof.
  intros Hs Hi Hj. unfold get, logical_not.
  rewrite (nth_indep _ [] (map negb [])) by (rewrite length_map, (has_shape_length _ _ _ Hs); exact Hi).
  rewrite (map_nth (map negb) a [] i).
  rewrite (nth_indep _ false (negb true))
    by (rewrite length_map, (has_shape_row _ _ _ _ Hs Hi); exact Hj).
  rewrite (map_nth negb (nth i a []) true j).
  f_equal. apply nth_indep. rewrite (has_shape_row _ _ _ _ Hs Hi). exact Hj.
Qed.

Lemma has_shape_logical_not (a : array2 bool) (ny nx : nat) :
  has_shape a ny nx = true -> has_shape (logical_not a) ny nx = true.
Proof.
  unfold has_shape, logical_not. intro H. apply andb_true_iff in H. destruct H as [Hl Hr].
  rewrite length_map, Hl. simpl. rewrite forallb_forall in Hr.
  apply forallb_forall. intros r Hin. apply in_map_iff in Hin.
  destruct Hin as [r0 [<- Hin]]. rewrite length_map. apply Hr. exact Hin.
Qed.

Lemma has_shape_dilate (a : array2 bool) (k : nat) :
  has_shape (_binary_dilate a k) (length a) (length (hd [] a)) = true.
Proof.
  unfold _binary_dilate. destruct (k =? 2)%nat.
  - apply has_shape_tabulate.
  - unfold logical_or_reduce. simpl. apply has_shape_tabulate.
Qed.

(** The 3x3 dilation, cell by cell: the OR over the nine shifted views. *)
Lemma get_dilate3 (a : array2 bool) (i j : nat) :
  let ny_ := length a in
  let nx_ := length (hd [] a) in
  (i < ny_)%nat -> (j < nx_)%nat ->
  get false (_binary_dilate a 3) i j =
  (padv a ny_ nx_ (0 + i) (0 + j) || padv a ny_ nx_ (0 + i) (1 + j)
   || padv a ny_ nx_ (0 + i) (2 + j) || padv a ny_ nx_ (1 + i) (0 + j)
   || padv a ny_ nx_ (1 + i) (1 + j) || padv a ny_ nx_ (1 + i) (2 + j)
   || padv a ny_ nx_ (2 + i) (0 + j) || padv a ny_ nx_ (2 + i) (1 + j)
   || padv a ny_ nx_ (2 + i) (2 + j)).
Proof.
  intros ny_ nx_ Hi Hj. unfold _binary_dilate.
  change (3 =? 2)%nat with false. cbv iota.
  unfold logical_or_reduce. cbn [fold_left].
  repeat (rewrite get_logical_or by assumption).
  rewrite get_zeros. cbn [orb].
  repeat (rewrite get_view_pad by (assumption || lia)).
  reflexivity.
Qed.

Lemma dilate3_true (a : array2 bool) (i j : nat) :
  (i < length a)%nat -> (j < length (hd [] a))%nat ->
  (get false (_binary_dilate a 3) i j = true <->
   exists i' j', (i' < length a)%nat /\ (j' < length (hd [] a))%nat /\
                 near i i' /\ near j j' /\ get false a i' j' = true).
Proof.
  intros Hi Hj. rewrite (get_dilate3 a i j Hi Hj). unfold near.
  repeat rewrite orb_true_iff. repeat rewrite padv_true. split.
  - intro H.
    repeat match goal with H : _ \/ _ |- _ => destruct H as [H|H] end;
      destruct H as [i' [j' [Ei [Ej [Hi' [Hj' Hg]]]]]];
      exists i', j'; repeat split; try assumption; lia.
  - intros [i' [j' [Hi' [Hj' [[Hn1 Hn2] [[Hm1 Hm2] Hg]]]]]].
    assert (Ei : (0 + i = S i' \/ 1 + i = S i' \/ 2 + i = S i')%nat) by lia.
    assert (Ej : (0 + j = S j' \/ 1 + j = S j' \/ 2 + j = S j')%nat) by lia.
    destruct Ei as [Ei|[Ei|Ei]]; destruct Ej as [Ej|[Ej|Ej]];
      [ do 8 left | do 7 left; right | do 6 left; right
      | do 5 left; right | do 4 left; right | do 3 left; right
      | do 2 left; right | left; right | right ];
      exists i', j'; repeat split; assumption.
Qed.

Lemma has_shape_dims {A : Type} (a : array2 A) (ny nx i : nat) :
  has_shape a ny nx = true -> (i < ny)%nat ->
  length a = ny /\ length (hd [] a) = nx.
Proof.
  intros H Hi. split.
  - apply (has_shape_length _ _ _ H).
  - apply (has_shape_hd _ _ _ H). lia.
Qed.

(** The erosion [~dilate(~a)], cell by cell: all neighbours inside the grid
    are set. *)
Lemma erode3_true (a : array2 bool) (ny nx i j : nat) :
  has_shape a ny nx = true -> (i < ny)%nat -> (j < nx)%nat ->
  (get false (logical_not (_binary_dilate (logical_not a) 3)) i j = true <->
   forall i' j', (i' < ny)%nat -> (j' < nx)%nat -> near i i' -> near j j' ->
                 get false a i' j' = true).
Proof.
  intros Hs Hi Hj.
  pose proof (has_shape_logical_not _ _ _ Hs) as Hn.
  destruct (has_shape_dims _ _ _ _ Hn Hi) as [Hl Hh].
  pose proof (has_shape_dilate (logical_not a) 3) as Hd. rewrite Hl, Hh in Hd.
  rewrite (get_logical_not _ _ _ _ _ Hd Hi Hj). rewrite negb_true_iff.
  split.
  - intros Hf i' j' Hi' Hj' Ni Nj.
    destruct (get false a i' j') eqn:E; [reflexivity|]. exfalso.
    assert (Ht : get false (_binary_dilate (logical_not a) 3) i j = true).
    { apply dilate3_true; [lia | lia |].
      exists i', j'. rewrite Hl, Hh. repeat split; try assumption; try apply Ni; try apply Nj.
      rewrite (get_logical_not _ _ _ _ _ Hs Hi' Hj'), E. reflexivity. }
    congruence.
  - intros Hall.
    destruct (get false (_binary_dilate (logical_not a) 3) i j) eqn:E; [|reflexivity].
    exfalso. apply dilate3_true in E; [|lia|lia].
    destruct E as [i' [j' [Hi' [Hj' [Ni [Nj Hg]]]]]]. rewrite Hl in Hi'. rewrite Hh in Hj'.
    rewrite (get_logical_not _ _ _ _ _ Hs Hi' Hj') in Hg.
    rewrite (Hall i' j' Hi' Hj' Ni Nj) in Hg. discriminate.
Qed.

Lemma has_shape_closing (a : array2 bool) :
  has_shape (closing a) (length a) (length (hd [] a)) = true.
Proof.
  unfold closing. apply has_shape_logical_not.
  pose proof (has_shape_dilate (logical_not (_binary_dilate a 3)) 3) as H.
  destruct a as [|r a'].
  - reflexivity.
  - pose proof (has_shape_dilate (r :: a') 3) as Hd.
    pose proof (has_shape_logical_not _ _ _ Hd) as Hn.
    destruct (has_shape_dims _ _ _ 0%nat Hn) as [Hl Hh]; [simpl; lia|].
    rewrite Hl, Hh in H. exact H.
Qed.

(** The closing, cell by cell. *)
Lemma closing_true (a : array2 bool) (i j : nat) :
  let ny_ := length a in
  let nx_ := length (hd [] a) in
  (i < ny_)%nat -> (j < nx_)%nat ->
  (get false (closing a) i j = true <->
   forall i' j', (i' < ny_)%nat -> (j' < nx_)%nat -> near i i' -> near j j' ->
     exists i'' j'', (i'' < ny_)%nat /\ (j'' < nx_)%nat /\
                     near i' i'' /\ near j' j'' /\ get false a i'' j'' = true).
Proof.
  intros ny_ nx_ Hi Hj. unfold closing.
  rewrite (erode3_true (_binary_dilate a 3) ny_ nx_ i j (has_shape_dilate a 3) Hi Hj).
  split; intros H i' j' Hi' Hj' Ni Nj.
  - apply (dilate3_true a i' j' Hi' Hj'). apply H; assumption.
  - apply (dilate3_true a i' j' Hi' Hj'). apply H; assumption.
Qed.

Lemma near_sym (i i' : nat) : near i i' -> near i' i.
Proof. unfold near. lia. Qed.

Lemma near_refl (i : nat) : near i i.
Proof. unfold near. lia. Qed.


Lemma bool_eq_iff (a b : bool) : (a = true <-> b = true) -> a = b.
Proof. destruct a, b; intros [H1 H2]; auto; try (symmetry; auto). Qed.

(** C8 (gap-closing idempotence): applying the 2-D closing pass (a 3x3
    dilation followed by the erosion [~dilate(~d1)], both with False padding)
    twice to any boolean mask gives the same mask as applying it once. *)
Theorem closing_idempotent (mask : array2 bool) :
  closing (closing mask) = closing mask.
Proof.
  destruct mask as [|r rest]; [reflexivity|].
  set (a := r :: rest).
  set (ny_ := length a). set (nx_ := length (hd [] a)).
  pose proof (has_shape_closing a) as Hc. fold ny_ nx_ in Hc.
  assert (Hpos : (0 < ny_)%nat) by (unfold ny_, a; simpl; lia).
  destruct (has_shape_dims _ _ _ 0%nat Hc Hpos) as [Hl Hh].
  pose proof (has_shape_closing (closing a)) as Hcc. rewrite Hl, Hh in Hcc.
  apply (array2_ext _ _ ny_ nx_ false Hcc Hc).
  intros i j Hi Hj. apply bool_eq_iff.
  rewrite (closing_true (closing a) i j) by lia. rewrite Hl, Hh.
  split.
  - intro H.
    apply (closing_true a i j Hi Hj). fold ny_ nx_.
    intros i' j' Hi' Hj' Ni Nj.
    destruct (H i' j' Hi' Hj' Ni Nj) as [i2 [j2 [Hi2 [Hj2 [N1 [N2 Hg]]]]]].
    pose proof (proj1 (closing_true a i2 j2 Hi2 Hj2) Hg) as Hg'.
    apply (Hg' i' j' Hi' Hj'); apply near_sym; assumption.
  - intros H i' j' Hi' Hj' Ni Nj.
    exists i, j.
    split; [exact Hi|]. split; [exact Hj|].
    split; [apply near_sym; exact Ni|]. split; [apply near_sym; exact Nj|exact H].
Qed.

(** ** The arguments [octants] and [edge_bias_px] *)

(** C10 (independence of [octants] and [edge_bias_px]): two calls of
    [_compute_shadow_octant] that differ only in these two arguments produce
    the same masks, the same output raster and the same instance state;
    neither argument is read by the scan. *)
Theorem octants_edge_bias_irrelevant
    (m : libm) (self : tool) (dem : dem_info) (az alt maxd : Q)
    (const_val : option Q) (fat_shadow : bool) (fat_kernel : nat)
    (octants octants' : Z) (edge_bias_px edge_bias_px' : Q) :
  _compute_shadow_octant m self dem az alt octants maxd edge_bias_px
                         const_val fat_shadow fat_kernel =
  _compute_shadow_octant m self dem az alt octants' maxd edge_bias_px'
                         const_val fat_shadow fat_kernel.
Proof. reflexivity. Qed.

(** ** The spike scenario *)

(** C1 (end-to-end spike scenario): on the 10 x 10 grid of 1 m cells with
    height 0 except [height[5][5] = 10], for azimuth 270 and altitude 45,
    with the class defaults (max-gap 3, unlimited distance) and fat shadows
    off, the mask handed to the writer, and the mask the writer keeps, hold
    true exactly at row 5, columns 6 to 9. *)
Theorem spike_scenario :
  let r := _compute_shadow_octant py_libm TOOLBOX_2_HILLSHADES spike_dem 270 45
             (_OCTANTS TOOLBOX_2_HILLSHADES) (_MAX_DIST TOOLBOX_2_HILLSHADES)
             (_EDGE_BIAS_PX TOOLBOX_2_HILLSHADES) (Some 1) false 3 in
  let expected := tabulate 10 10 (fun i j =>
                    (i =? 5)%nat && (6 <=? j)%nat && (j <=? 9)%nat) in
  r_handed r = expected /\
  option_map w_shadow (r_written r) = Some expected.
Proof. vm_compute. split; reflexivity. Qed.

(** ** The mask writer *)

Lemma write_shadow_mask_raises (dem : dem_info) (shadow_bool : array2 bool)
    (const_val : option Q) :
  has_shape shadow_bool (ny dem) (nx dem) = false ->
  _write_shadow_mask dem shadow_bool const_val = None.
Proof. intro H. unfold _write_shadow_mask. rewrite H. reflexivity. Qed.

Lemma write_shadow_mask_cells (dem : dem_info) (shadow_bool : array2 bool)
    (const_val : option Q) (i j : nat) :
  has_shape shadow_bool (ny dem) (nx dem) = true ->
  (i < ny dem)%nat -> (j < nx dem)%nat ->
  exists r, _write_shadow_mask dem shadow_bool const_val = Some r /\
    get false (w_shadow r) i j =
      (if get false (mask_nd dem) i j then false else get false shadow_bool i j) /\
    get 0 (w_out r) i j =
      let c := match const_val with Some v => v | None => 1 end in
      let z := get NaN (dem_Z dem) i j in
      if get false (mask_nd dem) i j then nodata dem
      else if Qltb (Qabs (c - 5)) (1 # 1000000) && isfinite z && gt0 z then 5
      else if get false shadow_bool i j then c else 0.
Proof.
  intros Hs Hi Hj. unfold _write_shadow_mask. rewrite Hs. cbn [negb].
  eexists. split; [reflexivity|]. cbn [w_shadow w_out]. split.
  - apply get_mask_assign; assumption.
  - rewrite get_mask_assign by assumption.
    destruct (get false (mask_nd dem) i j) eqn:End; [reflexivity|].
    cbv zeta.
    destruct (Qltb (Qabs (match const_val with Some v => v | None => 1 end - 5))
                   (1 # 1000000)) eqn:E5.
    + rewrite get_mask_assign by assumption.
      rewrite !get_tabulate by assumption.
      rewrite get_mask_assign by assumption. rewrite End. cbn [negb andb].
      destruct (isfinite (get NaN (dem_Z dem) i j) && gt0 (get NaN (dem_Z dem) i j));
        reflexivity.
    + rewrite !get_tabulate by assumption.
      rewrite get_mask_assign by assumption. rewrite End. reflexivity.
Qed.

Lemma write_shadow_mask_kept (dem : dem_info) (shadow_bool : array2 bool)
    (const_val : option Q) :
  has_shape shadow_bool (ny dem) (nx dem) = true ->
  exists w, _write_shadow_mask dem shadow_bool const_val = Some w /\
    w_shadow w = mask_assign false (ny dem) (nx dem) shadow_bool (mask_nd dem) false.
Proof.
  intro Hs. unfold _write_shadow_mask. rewrite Hs. cbn [negb].
  eexists. split; reflexivity.
Qed.

(** C7, as the code has it (class-5 obstacle override): the writer succeeds
    on a mask of the raster's shape, and then a no-data cell holds the
    sentinel; any other cell holds 5 when the constant lies within 1e-6 of 5
    and the elevation is finite and positive, whatever its shadow state;
    and otherwise the constant when shadowed and 0 when lit. *)
Theorem write_shadow_mask_values (dem : dem_info) (shadow_bool : array2 bool)
    (const_val : option Q) (i j : nat) :
  has_shape shadow_bool (ny dem) (nx dem) = true ->
  (i < ny dem)%nat -> (j < nx dem)%nat ->
  exists r, _write_shadow_mask dem shadow_bool const_val = Some r /\
    get 0 (w_out r) i j =
      let c := match const_val with Some v => v | None => 1 end in
      let z := get NaN (dem_Z dem) i j in
      if get false (mask_nd dem) i j then nodata dem
      else if Qltb (Qabs (c - 5)) (1 # 1000000) && isfinite z && gt0 z then 5
      else if get false shadow_bool i j then c else 0.
Proof.
  intros Hs Hi Hj.
  destruct (write_shadow_mask_cells dem shadow_bool const_val i j Hs Hi Hj)
    as [r [Hr [_ Hout]]].
  exists r. split; assumption.
Qed.

Lemma write_shadow_mask_values_witness :
  exists r, _write_shadow_mask spike_dem (zeros 10 10) (Some 5) = Some r /\
    get 0 (w_out r) 5 5 = 5.
Proof.
  apply (write_shadow_mask_values spike_dem (zeros 10 10) (Some 5) 5 5).
  - reflexivity.
  - simpl. lia.
  - simpl. lia.
Defined.

(** C7 as stated fails: the constant 5.0000005 is not 5, yet the lit cell of
    positive height is written as 5 and not as 0. *)
Lemma class5_override_counterexample :
  let c := 50000005 # 10000000 in
  ~ c == 5 /\
  get false (mask_nd one_cell_dem) 0 0 = false /\
  option_map (fun r => get 0 (w_out r) 0 0)
             (_write_shadow_mask one_cell_dem [[false]] (Some c)) = Some 5.
Proof.
  cbv zeta. split; [|split].
  - intro H. vm_compute in H. discriminate.
  - reflexivity.
  - vm_compute. reflexivity.
Qed.

(** ** Backend fallback *)

Lemma internal_scan_keeps_flag (m : libm) (dem : dem_info) (fat_shadow : bool)
    (fat_kernel : nat) (st : run_state) (az alt cval : Q) :
  saga_enabled (fst (internal_scan m dem fat_shadow fat_kernel st az alt cval)) =
  saga_enabled st.
Proof.
  unfold internal_scan.
  destruct (r_written _); reflexivity.
Qed.

(** The flag is never switched back on. *)
Lemma process_row_disabled (m : libm) (saga : nat -> Q -> Q -> saga_outcome)
    (dem : dem_info) (fat_shadow : bool) (fat_kernel : nat)
    (st : run_state) (idx : nat) (r : row) :
  saga_enabled st = false ->
  saga_enabled (fst (process_row m saga dem fat_shadow fat_kernel st idx r)) = false.
Proof.
  intro H. unfold process_row.
  destruct (azimuth r); [|exact H]. destruct (altitude r); [|exact H].
  destruct (constant r); [|exact H].
  destruct (String.length (name r) =? 0)%nat; [exact H|].
  rewrite H. rewrite internal_scan_keeps_flag. exact H.
Qed.

Lemma process_rows_disabled (m : libm) (saga : nat -> Q -> Q -> saga_outcome)
    (dem : dem_info) (fat_shadow : bool) (fat_kernel : nat)
    (rows : list row) (st : run_state) (idx : nat) :
  saga_enabled st = false ->
  saga_enabled (fst (process_rows m saga dem fat_shadow fat_kernel st idx rows)) = false.
Proof.
  revert st idx. induction rows as [|r rest IH]; intros st idx H.
  - exact H.
  - simpl.
    pose proof (process_row_disabled m saga dem fat_shadow fat_kernel st idx r H) as H1.
    destruct (process_row m saga dem fat_shadow fat_kernel st idx r) as [st1 res].
    simpl in H1. specialize (IH st1 (S idx) H1).
    destruct (process_rows m saga dem fat_shadow fat_kernel st1 (S idx) rest) as [st2 ress].
    exact IH.
Qed.

Lemma process_row_without_saga (m : libm) (saga saga' : nat -> Q -> Q -> saga_outcome)
    (dem : dem_info) (fat_shadow : bool) (fat_kernel : nat)
    (st : run_state) (idx : nat) (r : row) :
  saga_enabled st = false ->
  process_row m saga' dem fat_shadow fat_kernel st idx r =
  process_row m saga dem fat_shadow fat_kernel st idx r.
Proof.
  intro H. unfold process_row. rewrite H. reflexivity.
Qed.

(** Once the flag is off the backend is not called again. *)
Lemma process_rows_without_saga (m : libm) (saga saga' : nat -> Q -> Q -> saga_outcome)
    (dem : dem_info) (fat_shadow : bool) (fat_kernel : nat)
    (rows : list row) (st : run_state) (idx : nat) :
  saga_enabled st = false ->
  process_rows m saga' dem fat_shadow fat_kernel st idx rows =
  process_rows m saga dem fat_shadow fat_kernel st idx rows.
Proof.
  revert st idx. induction rows as [|r rest IH]; intros st idx H; [reflexivity|].
  cbn [process_rows].
  rewrite (process_row_without_saga m saga saga' dem fat_shadow fat_kernel st idx r H).
  pose proof (process_row_disabled m saga dem fat_shadow fat_kernel st idx r H) as H1.
  destruct (process_row m saga dem fat_shadow fat_kernel st idx r) as [st1 res].
  cbn [fst] in H1. rewrite (IH st1 (S idx) H1). reflexivity.
Qed.

(** C9 (backend fallback): when the backend is preferred and the attempt on
    a complete row raises [saga_err], the row is computed by the internal
    scan; the flag is switched off exactly when the text of the error is
    recognised by [is_unavailable]; for an error that is not recognised the
    backend is still preferred for the next row; and after a recognised one
    the flag stays off and the following rows do not depend on the backend
    any more. *)
Theorem saga_failure_falls_back (m : libm) (saga : nat -> Q -> Q -> saga_outcome)
    (dem : dem_info) (fat_shadow : bool) (fat_kernel : nat)
    (st : run_state) (idx : nat) (r : row) (az alt cval : Q) (saga_err : string) :
  saga_enabled st = true ->
  name r <> EmptyString ->
  azimuth r = Some az -> altitude r = Some alt -> constant r = Some cval ->
  try_saga saga dem idx az alt cval = inr saga_err ->
  let scan := _compute_shadow_octant m (self_ st) dem az alt (_OCTANTS (self_ st))
                (_MAX_DIST (self_ st)) (_EDGE_BIAS_PX (self_ st)) (Some cval)
                fat_shadow fat_kernel in
  let out := process_row m saga dem fat_shadow fat_kernel st idx r in
  (snd out = RowScan scan \/ snd out = RowError scan) /\
  saga_enabled (fst out) = negb (is_unavailable saga_err) /\
  (is_unavailable saga_err = false -> saga_enabled (fst out) = true) /\
  (is_unavailable saga_err = true ->
   forall rows idx' saga',
     let later := process_rows m saga dem fat_shadow fat_kernel (fst out) idx' rows in
     saga_enabled (fst later) = false /\
     process_rows m saga' dem fat_shadow fat_kernel (fst out) idx' rows = later).
Proof.
  intros Hen Hname Haz Halt Hc Htry scan out.
  assert (Hout : out = internal_scan m dem fat_shadow fat_kernel
            (if is_unavailable saga_err
             then {| saga_enabled := false; self_ := self_ st |} else st) az alt cval).
  { unfold out, process_row. rewrite Haz, Halt, Hc.
    destruct (name r) as [|c s]; [congruence|]. cbn [String.length Nat.eqb].
    rewrite Hen, Htry. reflexivity. }
  assert (Hflag : saga_enabled (fst out) = negb (is_unavailable saga_err)).
  { rewrite Hout, internal_scan_keeps_flag.
    destruct (is_unavailable saga_err); [reflexivity|exact Hen]. }
  split; [|split; [|split]].
  - rewrite Hout. unfold internal_scan.
    assert (Hself : self_ (if is_unavailable saga_err
                           then {| saga_enabled := false; self_ := self_ st |} else st)
                    = self_ st) by (destruct (is_unavailable saga_err); reflexivity).
    rewrite Hself. fold scan.
    destruct (r_written scan); [left|right]; reflexivity.
  - exact Hflag.
  - intro Hu. rewrite Hflag, Hu. reflexivity.
  - intros Hu rows idx' saga' later.
    assert (Hoff : saga_enabled (fst out) = false) by (rewrite Hflag, Hu; reflexivity).
    split.
    + apply process_rows_disabled. exact Hoff.
    + apply process_rows_without_saga. exact Hoff.
Qed.

Lemma saga_failure_falls_back_witness :
  let st := {| saga_enabled := true; self_ := TOOLBOX_2_HILLSHADES |} in
  let scan := _compute_shadow_octant py_libm TOOLBOX_2_HILLSHADES flat_dem 270 45
                (_OCTANTS TOOLBOX_2_HILLSHADES) (_MAX_DIST TOOLBOX_2_HILLSHADES)
                (_EDGE_BIAS_PX TOOLBOX_2_HILLSHADES) (Some 1) false 3 in
  let out := process_row py_libm saga_flaky flat_dem false 3 st 1 row_west in
  (snd out = RowScan scan \/ snd out = RowError scan) /\
  saga_enabled (fst out) = negb (is_unavailable "Input layer is corrupt") /\
  (is_unavailable "Input layer is corrupt" = false -> saga_enabled (fst out) = true) /\
  (is_unavailable "Input layer is corrupt" = true ->
   forall rows idx' saga',
     let later := process_rows py_libm saga_flaky flat_dem false 3 (fst out) idx' rows in
     saga_enabled (fst later) = false /\
     process_rows py_libm saga' flat_dem false 3 (fst out) idx' rows = later).
Proof.
  apply (saga_failure_falls_back py_libm saga_flaky flat_dem false 3
           {| saga_enabled := true; self_ := TOOLBOX_2_HILLSHADES |} 1 row_west
           270 45 1 "Input layer is corrupt").
  - reflexivity.
  - discriminate.
  - reflexivity.
  - reflexivity.
  - reflexivity.
  - reflexivity.
Defined.

(** ** The 1-D gap fill *)

Lemma skipn_cons_nth {A : Type} (l : list A) (k : nat) (d : A) :
  (k < length l)%nat -> skipn k l = nth k l d :: skipn (S k) l.
Proof.
  revert k. induction l as [|x r IH]; intros k Hk; simpl in Hk; [lia|].
  destruct k as [|k]; [reflexivity|].
  simpl. apply IH. lia.
Qed.

Lemma skip_false_spec (vals : list bool) (fuel k : nat) :
  (k <= length vals)%nat -> (length vals - k <= fuel)%nat ->
  skip_false fuel vals (length vals) k = (k + falses_ahead (skipn k vals))%nat.
Proof.
  revert k. induction fuel as [|fuel IH]; intros k Hk Hf.
  - simpl. assert (k = length vals) by lia. subst k. rewrite skipn_all. simpl. lia.
  - simpl. destruct (Nat.ltb_spec k (length vals)) as [Hlt|Hge].
    + rewrite (skipn_cons_nth vals k false Hlt).
      destruct (nth k vals false) eqn:E; simpl.
      * lia.
      * rewrite IH by lia. replace (k + 1)%nat with (S k) by lia. simpl. lia.
    + simpl. assert (k = length vals) by lia. subst k. rewrite skipn_all. simpl. lia.
Qed.

Lemma falses_ahead_split (l : list bool) :
  l = repeat false (falses_ahead l) ++ skipn (falses_ahead l) l /\
  (skipn (falses_ahead l) l = [] \/
   exists r, skipn (falses_ahead l) l = true :: r).
Proof.
  induction l as [|b r [IH1 IH2]].
  - split; [reflexivity|left; reflexivity].
  - destruct b; simpl.
    + split; [reflexivity|right; eexists; reflexivity].
    + split; [f_equal; exact IH1|exact IH2].
Qed.

Lemma falses_ahead_le (l : list bool) : (falses_ahead l <= length l)%nat.
Proof. induction l as [|[] r IH]; simpl; lia. Qed.

Lemma nth_set_true_range (g s : nat) (vals : list bool) (t : nat) :
  nth t (fold_left (fun v u => set_nth v u true) (seq s g) vals) false =
  if (s <=? t)%nat && (t <? s + g)%nat && (t <? length vals)%nat
  then true else nth t vals false.
Proof.
  revert s vals. induction g as [|g IH]; intros s vals.
  - simpl. replace ((s <=? t)%nat && (t <? s + 0)%nat) with false; [reflexivity|].
    symmetry. apply andb_false_iff.
    destruct (Nat.leb_spec s t); [right; apply Nat.ltb_ge; lia|left; reflexivity].
  - simpl. rewrite IH. rewrite length_set_nth. rewrite nth_set_nth.
    destruct (Nat.leb_spec (S s) t) as [H1|H1];
      destruct (Nat.ltb_spec t (S s + g)) as [H2|H2];
      destruct (Nat.ltb_spec t (length vals)) as [H3|H3];
      destruct (Nat.leb_spec s t) as [H4|H4];
      destruct (Nat.ltb_spec t (s + S g)) as [H5|H5];
      destruct (Nat.eqb_spec s t) as [H6|H6];
      destruct (Nat.ltb_spec s (length vals)) as [H7|H7];
      simpl; try reflexivity; try lia.
Qed.

Lemma length_fill_range (vals : list bool) (s e : nat) :
  length (fill_range vals s e) = length vals.
Proof.
  unfold fill_range. generalize (seq s (e + 1 - s)). intro l.
  revert vals. induction l as [|x r IH]; intro vals; simpl; [reflexivity|].
  rewrite IH. apply length_set_nth.
Qed.

Lemma fill_range_spec (vals : list bool) (k g : nat) :
  (1 <= g)%nat -> (k + g <= length vals)%nat ->
  fill_range vals k (k + g - 1) =
  firstn k vals ++ repeat true g ++ skipn (k + g) vals.
Proof.
  intros Hg Hk.
  apply (nth_ext _ _ false false).
  - rewrite length_fill_range. rewrite !length_app, repeat_length, length_firstn, length_skipn. lia.
  - intros t Ht. rewrite length_fill_range in Ht.
    unfold fill_range. replace (k + g - 1 + 1 - k)%nat with g by lia.
    rewrite nth_set_true_range.
    destruct (Nat.ltb_spec t k) as [H1|H1].
    + rewrite app_nth1 by (rewrite length_firstn; lia).
      rewrite nth_firstn. destruct (Nat.ltb_spec t k); [|lia].
      destruct (Nat.leb_spec k t); [lia|]. reflexivity.
    + rewrite app_nth2 by (rewrite length_firstn; lia).
      rewrite length_firstn. replace (Nat.min k (length vals)) with k by lia.
      destruct (Nat.ltb_spec t (k + g)) as [H2|H2].
      * rewrite app_nth1 by (rewrite repeat_length; lia).
        destruct (Nat.leb_spec k t); [|lia].
        destruct (Nat.ltb_spec t (length vals)); [|lia]. simpl.
        symmetry. apply nth_repeat_lt. lia.
      * rewrite app_nth2 by (rewrite repeat_length; lia).
        rewrite repeat_length. rewrite nth_skipn.
        rewrite andb_false_r. simpl. f_equal. lia.
Qed.

Lemma closed_ahead_run (g : nat) (after : list bool) :
  closed_ahead (repeat false g ++ after) = closed_ahead after.
Proof. induction g as [|g IH]; simpl; auto. Qed.

Lemma falses_ahead_run (g : nat) (after : list bool) :
  (after = [] \/ exists r, after = true :: r) ->
  falses_ahead (repeat false g ++ after) = g.
Proof.
  intro H. induction g as [|g IH]; simpl.
  - destruct H as [->|[r ->]]; reflexivity.
  - f_equal. exact IH.
Qed.

Lemma gap_rule_after (gm : nat) (l l' : bool) (b b' : nat) (after : list bool) :
  (after = [] \/ exists r, after = true :: r) ->
  gap_rule gm l b after = gap_rule gm l' b' after.
Proof. intros [->|[r ->]]; reflexivity. Qed.

Lemma gap_rule_run (gm : nat) (left : bool) (g b : nat) (after : list bool) :
  (after = [] \/ exists r, after = true :: r) ->
  gap_rule gm left b (repeat false g ++ after) =
  repeat (left && closed_ahead after && (b + g <=? gm)%nat) g
  ++ gap_rule gm left (b + g) after.
Proof.
  intro Ha. revert b. induction g as [|g IH]; intro b.
  - simpl. rewrite Nat.add_0_r. reflexivity.
  - cbn [repeat app gap_rule]. rewrite closed_ahead_run, (falses_ahead_run g after Ha).
    rewrite IH. replace (b + 1 + g)%nat with (b + S g)%nat by lia.
    replace (S b + g)%nat with (b + S g)%nat by lia. reflexivity.
Qed.

Lemma firstn_succ_nth {A : Type} (l : list A) (k : nat) (d : A) :
  (k < length l)%nat -> firstn (S k) l = firstn k l ++ [nth k l d].
Proof.
  revert k. induction l as [|x r IH]; intros k Hk; simpl in Hk; [lia|].
  destruct k as [|k]; [reflexivity|].
  cbn [firstn nth app]. f_equal. apply IH. lia.
Qed.

Lemma firstn_add_skipn {A : Type} (l : list A) (k g : nat) :
  firstn (k + g) l = firstn k l ++ firstn g (skipn k l).
Proof.
  revert l. induction k as [|k IH]; intro l; [reflexivity|].
  destruct l as [|x r]; simpl.
  - rewrite firstn_nil. reflexivity.
  - f_equal. apply IH.
Qed.

Lemma skipn_add {A : Type} (l : list A) (k g : nat) :
  skipn (k + g) l = skipn g (skipn k l).
Proof.
  revert l. induction k as [|k IH]; intro l; [reflexivity|].
  destruct l as [|x r]; simpl.
  - rewrite skipn_nil. reflexivity.
  - apply IH.
Qed.

Lemma gap_while_spec (gm fuel : nat) (vals : list bool) (k : nat) :
  (k <= length vals)%nat -> (length vals - k < fuel)%nat ->
  gap_while fuel gm vals (length vals) k =
  firstn k vals ++ gap_rule gm (prev_true vals k) O (skipn k vals).
Proof.
  revert vals k. induction fuel as [|fuel IH]; intros vals k Hk Hf; [lia|].
  cbn [gap_while].
  destruct (Nat.ltb_spec k (length vals)) as [Hlt|Hge].
  2:{ assert (k = length vals) by lia. subst k.
      rewrite firstn_all, skipn_all. simpl. rewrite app_nil_r. reflexivity. }
  destruct (nth k vals false) eqn:Ek.
  - rewrite (skipn_cons_nth vals k false Hlt), Ek. rewrite IH by lia.
    replace (k + 1)%nat with (S k) by lia.
    rewrite (firstn_succ_nth vals k false Hlt), Ek.
    unfold prev_true. replace (S k - 1)%nat with k by lia. rewrite Ek.
    cbn [Nat.leb andb gap_rule]. rewrite <- app_assoc. reflexivity.
  - rewrite (skip_false_spec vals (length vals) k) by lia.
    pose proof (falses_ahead_split (skipn k vals)) as [Hsplit Hafter].
    pose proof (falses_ahead_le (skipn k vals)) as Hgle. rewrite length_skipn in Hgle.
    set (g := falses_ahead (skipn k vals)) in *.
    set (after := skipn g (skipn k vals)) in *.
    assert (Hg1 : (1 <= g)%nat).
    { unfold g. rewrite (skipn_cons_nth vals k false Hlt), Ek. simpl. lia. }
    assert (Hafter_eq : skipn (k + g) vals = after) by apply skipn_add.
    assert (Hright : ((k + g - 1 + 1 <? length vals)%nat
                      && nth (k + g - 1 + 1) vals false) = closed_ahead after).
    { replace (k + g - 1 + 1)%nat with (k + g)%nat by lia.
      destruct Hafter as [He|[r He]].
      - rewrite He. simpl.
        assert (length (skipn (k + g) vals) = 0%nat) by (rewrite Hafter_eq, He; reflexivity).
        rewrite length_skipn in H.
        destruct (Nat.ltb_spec (k + g) (length vals)); [lia|reflexivity].
      - rewrite He. simpl.
        assert (Hlen : (k + g < length vals)%nat).
        { assert (length (skipn (k + g) vals) = S (length r))
            by (rewrite Hafter_eq, He; reflexivity).
          rewrite length_skipn in H. lia. }
        rewrite (skipn_cons_nth vals (k + g) false Hlen) in Hafter_eq.
        rewrite He in Hafter_eq. injection Hafter_eq as Hn _. rewrite Hn.
        destruct (Nat.ltb_spec (k + g) (length vals)); [reflexivity|lia]. }
    rewrite Hright. fold (prev_true vals k).
    replace (k + g - 1 - k + 1)%nat with g by lia.
    rewrite Hsplit.
    rewrite (gap_rule_run gm (prev_true vals k) g 0 after Hafter).
    cbn [Nat.add].
    assert (Hfirst : firstn (k + g) vals = firstn k vals ++ repeat false g).
    { rewrite firstn_add_skipn. f_equal. rewrite Hsplit.
      rewrite firstn_app, firstn_all2 by (rewrite repeat_length; lia).
      rewrite repeat_length, Nat.sub_diag. simpl. rewrite app_nil_r. reflexivity. }
    destruct (prev_true vals k && closed_ahead after && (g <=? gm)%nat) eqn:Econd.
    + rewrite (fill_range_spec vals k g Hg1) by lia.
      rewrite Hafter_eq.
      set (vals' := firstn k vals ++ repeat true g ++ after).
      assert (Hlen' : length vals' = length vals).
      { unfold vals'. rewrite !length_app, repeat_length, length_firstn.
        rewrite <- Hafter_eq, length_skipn. lia. }
      rewrite <- Hlen'. rewrite IH by lia.
      assert (Hk' : length (firstn k vals) = k) by (rewrite length_firstn; lia).
      assert (Hf' : firstn (k + g) vals' = firstn k vals ++ repeat true g).
      { unfold vals'. rewrite app_assoc.
        rewrite firstn_app.
        rewrite firstn_all2 by (rewrite length_app, repeat_length, Hk'; lia).
        rewrite length_app, repeat_length, Hk', Nat.sub_diag. simpl.
        rewrite app_nil_r. reflexivity. }
      assert (Hs' : skipn (k + g) vals' = after).
      { unfold vals'. rewrite app_assoc.
        rewrite skipn_app.
        rewrite skipn_all2 by (rewrite length_app, repeat_length, Hk'; lia).
        rewrite length_app, repeat_length, Hk', Nat.sub_diag. reflexivity. }
      rewrite Hf', Hs'. rewrite <- app_assoc. f_equal. f_equal.
      apply gap_rule_after. exact Hafter.
    + rewrite IH by lia. rewrite Hfirst, Hafter_eq. rewrite <- app_assoc. f_equal. f_equal.
      apply gap_rule_after. exact Hafter.
Qed.

(** The loops of lines 582-597 compute the rule [gap_rule]. *)
Lemma ray_gap_fill_rule (gm : nat) (vals : list bool) :
  ray_gap_fill gm vals = gap_rule gm false O vals.
Proof.
  unfold ray_gap_fill. rewrite gap_while_spec by lia. reflexivity.
Qed.

Lemma length_gap_rule (gm : nat) (l : list bool) (left : bool) (b : nat) :
  length (gap_rule gm left b l) = length l.
Proof.
  revert left b. induction l as [|[] r IH]; intros left b; simpl; auto.
Qed.





(** ** The sort of a strip *)

Lemma insert_cell_perm (c : cell) (l : list cell) :
  Permutation (insert_cell c l) (c :: l).
Proof.
  induction l as [|y r IH]; simpl; [apply Permutation_refl|].
  destruct (Qltb (key y) (key c)).
  - apply Permutation_trans with (y :: c :: r).
    + apply perm_skip. exact IH.
    + apply perm_swap.
  - apply Permutation_refl.
Qed.

Lemma sort_cells_perm (l : list cell) : Permutation (sort_cells l) l.
Proof.
  induction l as [|c r IH]; simpl; [apply perm_nil|].
  apply Permutation_trans with (c :: sort_cells r).
  - apply insert_cell_perm.
  - apply perm_skip. exact IH.
Qed.

Lemma key_le_trans (a b c : cell) : key_le a b -> key_le b c -> key_le a c.
Proof. unfold key_le. intros. lra. Qed.

Lemma insert_cell_sorted (c : cell) (l : list cell) :
  StronglySorted key_le l -> StronglySorted key_le (insert_cell c l).
Proof.
  intro H. induction H as [|y r Hr IH Hall]; simpl.
  - constructor; constructor.
  - destruct (Qltb (key y) (key c)) eqn:E; qbool.
    + constructor; [exact IH|].
      apply (Permutation_Forall (Permutation_sym (insert_cell_perm c r))).
      constructor; [unfold key_le; lra|exact Hall].
    + constructor; [constructor; assumption|].
      constructor; [exact E|].
      apply (Forall_impl _ (fun a Ha => key_le_trans c y a E Ha) Hall).
Qed.

Lemma sort_cells_sorted (l : list cell) : StronglySorted key_le (sort_cells l).
Proof.
  induction l as [|c r IH]; simpl; [constructor|].
  apply insert_cell_sorted. exact IH.
Qed.

Lemma sort_cells_in (l : list cell) (c : cell) : In c (sort_cells l) <-> In c l.
Proof.
  split; apply Permutation_in.
  - apply sort_cells_perm.
  - apply Permutation_sym, sort_cells_perm.
Qed.

(** The first cell of the sorted strip has the least [L]. *)
Lemma sort_cells_head_min (l : list cell) (c : cell) :
  In c l -> key (hd (0, O, O) (sort_cells l)) <= key c.
Proof.
  intro Hin. apply sort_cells_in in Hin.
  pose proof (sort_cells_sorted l) as Hs.
  destruct (sort_cells l) as [|y r]; [contradiction|].
  simpl. inversion Hs as [|? ? Hr Hall]; subst.
  destruct Hin as [->|Hin]; [lra|].
  rewrite Forall_forall in Hall. apply (Hall c Hin).
Qed.

(** ** Writes into a mask of known shape *)

Lemma get_set_shape {A : Type} (a : array2 A) (ny nx i j i' j' : nat) (v d : A) :
  has_shape a ny nx = true ->
  get d (set a i j v) i' j' =
  if (i =? i')%nat && (j =? j')%nat && (i <? ny)%nat && (j <? nx)%nat
  then v else get d a i' j'.
Proof.
  intro Hs. rewrite get_set. rewrite (has_shape_length _ _ _ Hs).
  destruct (Nat.ltb_spec i ny) as [Hi|Hi].
  - rewrite (has_shape_row _ _ _ _ Hs Hi). reflexivity.
  - rewrite !andb_false_r. reflexivity.
Qed.

Lemma get_outside {A : Type} (a : array2 A) (ny nx i j : nat) (d : A) :
  has_shape a ny nx = true -> ~ ((i < ny)%nat /\ (j < nx)%nat) ->
  get d a i j = d.
Proof.
  intros Hs Hout. unfold get.
  destruct (Nat.ltb_spec i ny) as [Hi|Hi].
  - apply nth_overflow. rewrite (has_shape_row _ _ _ _ Hs Hi). lia.
  - rewrite (nth_overflow a) by (rewrite (has_shape_length _ _ _ Hs); exact Hi).
    destruct j; reflexivity.
Qed.


Lemma set_true_mask_sub (a : array2 bool) (i j : nat) : mask_sub a (set a i j true).
Proof.
  intros i' j' H. rewrite get_set.
  destruct ((i =? i')%nat && (j =? j')%nat && (i <? length a)%nat
            && (j <? length (nth i a []))%nat); [reflexivity|exact H].
Qed.

(** ** The horizon sweep *)

Section SweepFacts.
Variable hgt : array2 npfloat.
Variables eps_m maxd L0 : Q.

Lemma has_shape_sweep (tan_a : Q) (ny nx : nat) (cells : list cell) :
  forall horizon shadow,
    has_shape shadow ny nx = true ->
    has_shape (horizon_sweep hgt tan_a eps_m maxd L0 cells horizon shadow) ny nx = true.
Proof.
  induction cells as [|[[Lk i] j] rest IH]; intros horizon shadow Hs; [exact Hs|].
  cbn [horizon_sweep].
  destruct (get NaN hgt i j) as [z|].
  - destruct (Qltb 0 maxd && Qltb maxd (Lk - L0));
      destruct (Qltb (z + tan_a * (Lk - L0) - eps_m) horizon);
      try apply IH; try apply has_shape_set; assumption.
  - destruct (Qltb 0 maxd && Qltb maxd (Lk - L0)); [exact Hs|apply IH; exact Hs].
Qed.

(** The sweep reads the heights of the cells of the strip and no other. *)
Lemma sweep_ext (hgt' : array2 npfloat) (tan_a : Q) (cells : list cell) :
  Forall (fun c => get NaN hgt' (crow c) (ccol c) = get NaN hgt (crow c) (ccol c)) cells ->
  forall horizon shadow,
    horizon_sweep hgt' tan_a eps_m maxd L0 cells horizon shadow =
    horizon_sweep hgt tan_a eps_m maxd L0 cells horizon shadow.
Proof.
  intro H. induction H as [|[[Lk i] j] rest Hc Hrest IH]; intros horizon shadow;
    [reflexivity|].
  cbn [horizon_sweep]. unfold crow, ccol in Hc. simpl in Hc. rewrite Hc.
  destruct (get NaN hgt i j); rewrite ?IH; reflexivity.
Qed.
End SweepFacts.

(** ** Write-back, one strip, all strips *)

Lemma has_shape_write_back (ny nx : nat) (vals : list bool) (cells : list cell) :
  forall shadow, has_shape shadow ny nx = true ->
    has_shape (write_back vals cells shadow) ny nx = true.
Proof.
  unfold write_back. generalize (combine vals cells). intro l.
  induction l as [|vc r IH]; intros shadow Hs; [exact Hs|].
  simpl. apply IH. apply has_shape_set. exact Hs.
Qed.

Section StripFacts.
Variable hgt : array2 npfloat.
Variables eps_m maxd : Q.
Variable gap_max : nat.
Variables ny_ nx_ : nat.

Lemma has_shape_scan_strip (tan_a : Q) (shadow : array2 bool) (cells_i : list cell) :
  has_shape shadow ny_ nx_ = true ->
  has_shape (scan_strip hgt tan_a eps_m maxd gap_max shadow cells_i) ny_ nx_ = true.
Proof.
  intro Hs. unfold scan_strip. destruct cells_i as [|c r]; [exact Hs|].
  set (cells := sort_cells (c :: r)).
  pose proof (has_shape_sweep hgt eps_m maxd (key (hd (0, O, O) cells)) tan_a ny_ nx_
                cells minus_1e38 shadow Hs) as Hsw.
  destruct (0 <? gap_max)%nat; [|exact Hsw].
  destruct (3 <=? _)%nat; [|exact Hsw].
  apply has_shape_write_back. exact Hsw.
Qed.

Lemma has_shape_scan_strips (tan_a : Q) (strips : list (list cell)) :
  forall shadow, has_shape shadow ny_ nx_ = true ->
    has_shape (scan_strips hgt tan_a eps_m maxd gap_max strips shadow) ny_ nx_ = true.
Proof.
  induction strips as [|s r IH]; intros shadow Hs; [exact Hs|].
  simpl. apply IH. apply has_shape_scan_strip. exact Hs.
Qed.

End StripFacts.

(** ** Monotone morphology *)

Lemma has_shape_nil_rows {A : Type} (a : array2 A) (nx : nat) :
  has_shape a 0 nx = true -> a = [].
Proof.
  intro H. apply has_shape_length in H. destruct a; [reflexivity|discriminate].
Qed.

Lemma has_shape_closing_of (a : array2 bool) (ny nx : nat) :
  has_shape a ny nx = true -> has_shape (closing a) ny nx = true.
Proof.
  intro H. destruct ny as [|ny].
  - rewrite (has_shape_nil_rows a nx H). reflexivity.
  - destruct (has_shape_dims a (S ny) nx 0%nat H) as [Hl Hh]; [lia|].
    pose proof (has_shape_closing a) as Hc. rewrite Hl, Hh in Hc. exact Hc.
Qed.

Lemma has_shape_dilate_of (a : array2 bool) (ny nx k : nat) :
  has_shape a ny nx = true -> has_shape (_binary_dilate a k) ny nx = true.
Proof.
  intro H. destruct ny as [|ny].
  - rewrite (has_shape_nil_rows a nx H). unfold _binary_dilate. simpl.
    destruct (k =? 2)%nat; reflexivity.
  - destruct (has_shape_dims a (S ny) nx 0%nat H) as [Hl Hh]; [lia|].
    pose proof (has_shape_dilate a k) as Hc. rewrite Hl, Hh in Hc. exact Hc.
Qed.



Lemma get_dilate2 (a : array2 bool) (i j : nat) :
  let ny_ := length a in
  let nx_ := length (hd [] a) in
  (i < ny_)%nat -> (j < nx_)%nat ->
  get false (_binary_dilate a 2) i j =
  (padv a ny_ nx_ (0 + i) (0 + j) || padv a ny_ nx_ (0 + i) (1 + j)
   || padv a ny_ nx_ (1 + i) (0 + j) || padv a ny_ nx_ (1 + i) (1 + j)).
Proof.
  intros ny_ nx_ Hi Hj. unfold _binary_dilate.
  change (2 =? 2)%nat with true. cbv iota.
  repeat (rewrite get_logical_or by assumption).
  repeat (rewrite get_view_pad by (assumption || lia)).
  reflexivity.
Qed.

Lemma dilate_other_kernel (a : array2 bool) (k : nat) :
  k <> 2%nat -> _binary_dilate a k = _binary_dilate a 3.
Proof.
  intro H. unfold _binary_dilate.
  destruct (Nat.eqb_spec k 2); [contradiction|reflexivity].
Qed.



Lemma has_shape_handed (m : libm) (self : tool) (dem : dem_info) (az alt : Q)
    (octants : Z) (maxd edge_bias_px : Q) (const_val : option Q)
    (fat_shadow : bool) (fat_kernel : nat) :
  has_shape (r_handed (_compute_shadow_octant m self dem az alt octants maxd
                         edge_bias_px const_val fat_shadow fat_kernel))
            (ny dem) (nx dem) = true.
Proof.
  unfold _compute_shadow_octant. cbn [r_handed].
  assert (H : has_shape (closing (mask_assign false (ny dem) (nx dem)
                (scan_strips (dem_Z dem) (tan_alt m alt) (eps_of self (gt dem)) maxd
                   (gap_max_of self) (strips_of m dem az) (zeros (ny dem) (nx dem)))
                (mask_nd dem) false)) (ny dem) (nx dem) = true).
  { apply has_shape_closing_of. apply has_shape_tabulate. }
  destruct fat_shadow; [apply has_shape_dilate_of|]; exact H.
Qed.

(** ** The shape of the raw mask *)

Lemma has_shape_zeros (ny nx : nat) : has_shape (zeros ny nx) ny nx = true.
Proof. apply has_shape_tabulate. Qed.

Lemma has_shape_raw (m : libm) (self : tool) (dem : dem_info) (az alt maxd : Q) :
  has_shape (scan_strips (dem_Z dem) (tan_alt m alt) (eps_of self (gt dem)) maxd
               (gap_max_of self) (strips_of m dem az) (zeros (ny dem) (nx dem)))
            (ny dem) (nx dem) = true.
Proof. apply has_shape_scan_strips. apply has_shape_zeros. Qed.

(** ** The cells of a strip *)

Lemma in_zrange (a b z : Z) : In z (zrange a b) <-> (a <= z < b)%Z.
Proof.
  unfold zrange. rewrite in_map_iff. split.
  - intros [k [<- Hk]]. apply in_seq in Hk. lia.
  - intros H. exists (Z.to_nat (z - a)). split; [lia|]. apply in_seq. lia.
Qed.

Section PartitionFacts.
Variables dLc dLr dSc dSr : Q.
Variable nd : array2 bool.
Variables ny_ nx_ : nat.

Lemma j_range_bound (s_idx : Z) (i j : nat) :
  In j (j_range dSc dSr nx_ s_idx i) -> (j < nx_)%nat.
Proof.
  unfold j_range. destruct (Qltb dir_eps (Qabs dSc)).
  - intro H. apply in_map_iff in H. destruct H as [z [<- Hz]].
    apply in_zrange in Hz. lia.
  - destruct (beyond_half _ _ _); [contradiction|].
    intro H. apply in_seq in H. lia.
Qed.

Lemma collect_cells_spec (s_idx : Z) (c : cell) :
  In c (collect_cells dLc dLr dSc dSr nd ny_ nx_ s_idx) <->
  exists i j,
    c = (L_of dLc dLr i j, i, j) /\ (i < ny_)%nat /\
    In j (j_range dSc dSr nx_ s_idx i) /\
    within_half (strip_w dSc dSr) s_idx (Qofnat i * dSr + Qofnat j * dSc) = true /\
    get false nd i j = false.
Proof.
  unfold collect_cells. rewrite in_flat_map. split.
  - intros [i [Hi H]]. apply in_seq in Hi. apply in_flat_map in H.
    destruct H as [j [Hj H]].
    destruct (within_half _ _ _) eqn:Ew; [|contradiction].
    destruct (get false nd i j) eqn:End; simpl in H; [contradiction|].
    destruct H as [<-|[]]. exists i, j. repeat split; try assumption; lia.
  - intros [i [j [-> [Hi [Hj [Hw Hn]]]]]]. exists i. split; [apply in_seq; lia|].
    apply in_flat_map. exists j. split; [exact Hj|].
    rewrite Hw, Hn. simpl. left. reflexivity.
Qed.
End PartitionFacts.

Lemma strips_of_cells (m : libm) (dem : dem_info) (az : Q)
    (cells_i : list cell) (c : cell) :
  In cells_i (strips_of m dem az) -> In c cells_i ->
  (crow c < ny dem)%nat /\ (ccol c < nx dem)%nat /\
  get false (mask_nd dem) (crow c) (ccol c) = false /\
  key c = L_of (dL_col m (gt dem) az) (dL_row m (gt dem) az) (crow c) (ccol c).
Proof.
  unfold strips_of. intros Hs Hc. apply in_map_iff in Hs.
  destruct Hs as [s_idx [<- _]]. apply collect_cells_spec in Hc.
  destruct Hc as [i [j [-> [Hi [Hj [_ Hn]]]]]].
  unfold crow, ccol, key. cbn [fst snd].
  repeat split; try assumption. apply (j_range_bound _ _ _ _ _ _ Hj).
Qed.

(** ** No-data containment *)

Lemma tabulate_ext {A : Type} (ny nx : nat) (f g : nat -> nat -> A) :
  (forall i j, (i < ny)%nat -> (j < nx)%nat -> f i j = g i j) ->
  tabulate ny nx f = tabulate ny nx g.
Proof.
  intro H. unfold tabulate. apply map_ext_in. intros i Hi. apply in_seq in Hi.
  apply map_ext_in. intros j Hj. apply in_seq in Hj. apply H; lia.
Qed.

Lemma scan_strip_ext (hgt hgt' : array2 npfloat) (tan_a eps_m maxd : Q) (gap_max : nat)
    (shadow : array2 bool) (cells_i : list cell) :
  Forall (fun c => get NaN hgt' (crow c) (ccol c) = get NaN hgt (crow c) (ccol c)) cells_i ->
  scan_strip hgt' tan_a eps_m maxd gap_max shadow cells_i =
  scan_strip hgt tan_a eps_m maxd gap_max shadow cells_i.
Proof.
  intro H. unfold scan_strip. destruct cells_i as [|c r]; [reflexivity|].
  assert (Hs : Forall (fun c0 => get NaN hgt' (crow c0) (ccol c0)
                                 = get NaN hgt (crow c0) (ccol c0)) (sort_cells (c :: r))).
  { apply (Permutation_Forall (Permutation_sym (sort_cells_perm (c :: r)))). exact H. }
  rewrite (sweep_ext hgt eps_m maxd _ hgt' tan_a _ Hs). reflexivity.
Qed.

Lemma scan_strips_ext (hgt hgt' : array2 npfloat) (tan_a eps_m maxd : Q) (gap_max : nat)
    (strips : list (list cell)) :
  Forall (Forall (fun c => get NaN hgt' (crow c) (ccol c)
                           = get NaN hgt (crow c) (ccol c))) strips ->
  forall shadow,
    scan_strips hgt' tan_a eps_m maxd gap_max strips shadow =
    scan_strips hgt tan_a eps_m maxd gap_max strips shadow.
Proof.
  intro H. induction H as [|s r Hs Hr IH]; intro shadow; [reflexivity|].
  simpl. rewrite (scan_strip_ext hgt hgt' _ _ _ _ _ _ Hs). apply IH.
Qed.

(** The scan never reads the height of a no-data cell. *)
Lemma compute_heights_ext (m : libm) (self : tool) (dem : dem_info) (az alt : Q)
    (octants : Z) (maxd edge_bias_px : Q) (const_val : option Q)
    (fat_shadow : bool) (fat_kernel : nat) (hgt' : array2 npfloat) :
  (forall i j, get false (mask_nd dem) i j = false ->
               get NaN hgt' i j = get NaN (dem_Z dem) i j) ->
  _compute_shadow_octant m self (with_heights dem hgt') az alt octants maxd
    edge_bias_px const_val fat_shadow fat_kernel =
  _compute_shadow_octant m self dem az alt octants maxd
    edge_bias_px const_val fat_shadow fat_kernel.
Proof.
  intro Hagree. unfold _compute_shadow_octant.
  change (strips_of m (with_heights dem hgt') az) with (strips_of m dem az).
  cbn [with_heights dem_Z mask_nd nodata gt proj ny nx].
  assert (Hraw : scan_strips hgt' (tan_alt m alt) (eps_of self (gt dem)) maxd
                   (gap_max_of self) (strips_of m dem az) (zeros (ny dem) (nx dem)) =
                 scan_strips (dem_Z dem) (tan_alt m alt) (eps_of self (gt dem)) maxd
                   (gap_max_of self) (strips_of m dem az) (zeros (ny dem) (nx dem))).
  { apply scan_strips_ext. apply Forall_forall. intros cells_i Hs.
    apply Forall_forall. intros c Hc. apply Hagree.
    apply (strips_of_cells m dem az cells_i c Hs Hc). }
  rewrite Hraw.
  set (handed := if fat_shadow then _ else _).
  assert (Hw : _write_shadow_mask (with_heights dem hgt') handed const_val =
               _write_shadow_mask dem handed const_val).
  { unfold _write_shadow_mask. cbn [with_heights dem_Z mask_nd nodata gt proj ny nx].
    destruct (negb (has_shape handed (ny dem) (nx dem))); [reflexivity|].
    assert (Hle : tabulate (ny dem) (nx dem) (fun i j =>
                    negb (get false (mask_nd dem) i j) && isfinite (get NaN hgt' i j)
                    && gt0 (get NaN hgt' i j)) =
                  tabulate (ny dem) (nx dem) (fun i j =>
                    negb (get false (mask_nd dem) i j) && isfinite (get NaN (dem_Z dem) i j)
                    && gt0 (get NaN (dem_Z dem) i j))).
    { apply tabulate_ext. intros i j _ _.
      destruct (get false (mask_nd dem) i j) eqn:E; [reflexivity|].
      rewrite (Hagree i j E). reflexivity. }
    rewrite Hle. reflexivity. }
  rewrite Hw. reflexivity.
Qed.

(** C3, as the code has it (no-data containment): a no-data cell is false in
    the mask after the strip loop has been masked (line 605) and in the mask
    the writer keeps after its own masking (line 339), and holds the
    sentinel in the written raster; and the scan gives the same result
    whatever heights the no-data cells hold, so no such height reaches a
    horizon.  The mask handed to the writer is not covered: the 2-D closing
    between the two maskings can set a no-data cell. *)
Theorem nodata_containment (m : libm) (self : tool) (dem : dem_info) (az alt : Q)
    (octants : Z) (maxd edge_bias_px : Q) (const_val : option Q)
    (fat_shadow : bool) (fat_kernel : nat) (i j : nat) (hgt' : array2 npfloat) :
  (i < ny dem)%nat -> (j < nx dem)%nat ->
  get false (mask_nd dem) i j = true ->
  (forall i' j', get false (mask_nd dem) i' j' = false ->
                 get NaN hgt' i' j' = get NaN (dem_Z dem) i' j') ->
  let r := _compute_shadow_octant m self dem az alt octants maxd edge_bias_px
             const_val fat_shadow fat_kernel in
  get false (r_masked r) i j = false /\
  (exists w, r_written r = Some w /\
             get false (w_shadow w) i j = false /\
             get 0 (w_out w) i j = nodata dem) /\
  _compute_shadow_octant m self (with_heights dem hgt') az alt octants maxd
    edge_bias_px const_val fat_shadow fat_kernel = r.
Proof.
  intros Hi Hj Hnd Hagree r. split; [|split].
  - unfold r, _compute_shadow_octant. cbn [r_masked].
    rewrite get_mask_assign by assumption. rewrite Hnd. reflexivity.
  - pose proof (has_shape_handed m self dem az alt octants maxd edge_bias_px
                  const_val fat_shadow fat_kernel) as Hs. fold r in Hs.
    destruct (write_shadow_mask_cells dem (r_handed r) const_val i j Hs Hi Hj)
      as [w [Hw [Hsh Hout]]].
    exists w. rewrite Hnd in Hsh, Hout. cbv zeta in Hout.
    split; [exact Hw|]. split; assumption.
  - apply compute_heights_ext. exact Hagree.
Qed.

Lemma nodata_containment_witness :
  let r := _compute_shadow_octant py_libm TOOLBOX_2_HILLSHADES hole_dem 270 45
             32 0 (- (1 # 2)) (Some 1) false 3 in
  get false (r_masked r) 1 2 = false /\
  (exists w, r_written r = Some w /\
             get false (w_shadow w) 1 2 = false /\
             get 0 (w_out w) 1 2 = nodata hole_dem) /\
  _compute_shadow_octant py_libm TOOLBOX_2_HILLSHADES (with_heights hole_dem hole_heights)
    270 45 32 0 (- (1 # 2)) (Some 1) false 3 = r.
Proof.
  apply (nodata_containment py_libm TOOLBOX_2_HILLSHADES hole_dem 270 45
           32 0 (- (1 # 2)) (Some 1) false 3 1 2 hole_heights).
  - simpl. lia.
  - simpl. lia.
  - reflexivity.
  - intros i' j' H.
    destruct i' as [|[|[|i']]]; destruct j' as [|[|[|[|[|j']]]]];
      try reflexivity; try discriminate H;
      try (destruct i'; reflexivity); try (destruct j'; reflexivity);
      destruct i', j'; reflexivity.
Defined.

(** C3 as stated fails for the mask handed to the writer: the cell (1, 2) of
    [hole_dem] is no-data, false after the masking of line 605, and true in
    the mask the 2-D closing hands to the writer. *)
Lemma nodata_containment_counterexample :
  let r := _compute_shadow_octant py_libm TOOLBOX_2_HILLSHADES hole_dem 270 45
             32 0 (- (1 # 2)) (Some 1) false 3 in
  get false (mask_nd hole_dem) 1 2 = true /\
  get false (r_masked r) 1 2 = false /\
  get false (r_handed r) 1 2 = true.
Proof.
  cbv zeta. split; [reflexivity|]. split; vm_compute; reflexivity.
Qed.

(** ** The classification rule of the horizon sweep *)

Lemma existsb_seq_shift (f : nat -> bool) (n : nat) :
  existsb f (seq 1 n) = existsb (fun k => f (S k)) (seq 0 n).
Proof.
  rewrite <- seq_shift. induction (seq 0 n) as [|x r IH]; [reflexivity|].
  simpl. rewrite IH. reflexivity.
Qed.

Lemma existsb_pointwise {A : Type} (f g : A -> bool) (l : list A) :
  (forall x, f x = g x) -> existsb f l = existsb g l.
Proof.
  intro H. induction l as [|x r IH]; [reflexivity|].
  simpl. rewrite H, IH. reflexivity.
Qed.

Lemma running_horizon_0 (start : Q) (Ts : list Q) : running_horizon start Ts 0 = start.
Proof. reflexivity. Qed.

Lemma running_horizon_cons (start T : Q) (Ts : list Q) (k : nat) :
  running_horizon start (T :: Ts) (S k) = running_horizon (py_max start T) Ts k.
Proof. reflexivity. Qed.

(** After a visited cell the horizon is the maximum of the horizon before it
    and of its projected height. *)
Lemma running_horizon_step (start : Q) (Ts : list Q) (k : nat) :
  (k < length Ts)%nat ->
  running_horizon start Ts (S k) = py_max (running_horizon start Ts k) (nth k Ts 0).
Proof.
  revert start k. induction Ts as [|T r IH]; intros start k Hk; simpl in Hk; [lia|].
  destruct k as [|k]; [reflexivity|].
  rewrite !running_horizon_cons. cbn [nth]. apply IH. lia.
Qed.

Section SweepRule.
Variable hgt : array2 npfloat.
Variables tan_a eps_m maxd L0 : Q.
Variables ny_ nx_ : nat.

Lemma sweep_rule (cells : list cell) :
  Forall (fun c => isfinite (get NaN hgt (crow c) (ccol c)) = true) cells ->
  Forall (fun c => (crow c < ny_)%nat /\ (ccol c < nx_)%nat) cells ->
  forall horizon shadow i j,
    has_shape shadow ny_ nx_ = true ->
    get false (horizon_sweep hgt tan_a eps_m maxd L0 cells horizon shadow) i j =
    rule_mask horizon eps_m (visited maxd L0 cells)
      (map (projected hgt tan_a L0) (visited maxd L0 cells)) shadow i j.
Proof.
  intros Hfin Hin. induction cells as [|c rest IH]; intros horizon shadow i j Hs.
  - unfold rule_mask. simpl. rewrite orb_false_r. reflexivity.
  - inversion Hfin as [|? ? Hc Hfin']; subst. inversion Hin as [|? ? Hb Hin']; subst.
    specialize (IH Hfin' Hin').
    destruct c as [[Lk ci] cj]. unfold crow, ccol in Hc, Hb. cbn [fst snd] in Hc, Hb.
    destruct Hb as [Hci Hcj].
    cbn [horizon_sweep visited]. unfold key. cbn [fst].
    destruct (get NaN hgt ci cj) as [z|] eqn:Ez; [|discriminate].
    set (T := z + tan_a * (Lk - L0)).
    assert (HT : projected hgt tan_a L0 (Lk, ci, cj) = T).
    { unfold projected, crow, ccol, key. cbn [fst snd]. rewrite Ez. reflexivity. }
    assert (Hset : forall sh, has_shape sh ny_ nx_ = true ->
              get false (if Qltb (T - eps_m) horizon then set sh ci cj true else sh) i j =
              get false sh i j || ((ci =? i)%nat && (cj =? j)%nat && Qltb (T - eps_m) horizon)).
    { intros sh Hsh. destruct (Qltb (T - eps_m) horizon).
      - rewrite (get_set_shape sh ny_ nx_ ci cj i j true false Hsh).
        apply Nat.ltb_lt in Hci. apply Nat.ltb_lt in Hcj. rewrite Hci, Hcj.
        rewrite !andb_true_r.
        destruct ((ci =? i)%nat && (cj =? j)%nat); [rewrite orb_true_r|rewrite orb_false_r];
          reflexivity.
      - rewrite andb_false_r, orb_false_r. reflexivity. }
    destruct (Qltb 0 maxd && Qltb maxd (Lk - L0)).
    + rewrite (Hset shadow Hs). unfold rule_mask. cbn [map length seq existsb nth].
      rewrite orb_false_r. unfold marked_by_rule, crow, ccol. cbn [nth fst snd].
      rewrite HT, running_horizon_0. reflexivity.
    + rewrite IH by (destruct (Qltb (T - eps_m) horizon); [apply has_shape_set|]; exact Hs).
      unfold rule_mask. rewrite (Hset shadow Hs).
      cbn [map length]. cbn [seq existsb]. rewrite existsb_seq_shift.
      cbn [nth]. unfold crow at 3, ccol at 3. cbn [fst snd].
      rewrite <- orb_assoc. f_equal. f_equal.
      * unfold marked_by_rule. cbn [nth]. rewrite HT, running_horizon_0. reflexivity.
      * apply existsb_pointwise. intro k. f_equal.
        unfold marked_by_rule. cbn [nth]. rewrite running_horizon_cons, HT. reflexivity.
Qed.
End SweepRule.

Lemma eps_of_state_ok (self : tool) (g : geotransform) :
  eps_state_ok self g ->
  eps_of self g = (1 # 100000) * py_max (cellx g) (celly g).
Proof. intros [H|H]; unfold eps_of; rewrite H; reflexivity. Qed.

Lemma compute_eps_state (m : libm) (self : tool) (dem : dem_info) (az alt : Q)
    (octants : Z) (maxd edge_bias_px : Q) (const_val : option Q)
    (fat_shadow : bool) (fat_kernel : nat) :
  eps_state_ok self (gt dem) ->
  eps_state_ok (r_self (_compute_shadow_octant m self dem az alt octants maxd
                          edge_bias_px const_val fat_shadow fat_kernel)) (gt dem).
Proof.
  intro H. right. unfold _compute_shadow_octant. cbn [r_self _EPS_M].
  rewrite (eps_of_state_ok self (gt dem) H). reflexivity.
Qed.

Lemma process_row_eps_state (m : libm) (saga : nat -> Q -> Q -> saga_outcome)
    (dem : dem_info) (fat_shadow : bool) (fat_kernel : nat)
    (st : run_state) (idx : nat) (r : row) :
  eps_state_ok (self_ st) (gt dem) ->
  eps_state_ok (self_ (fst (process_row m saga dem fat_shadow fat_kernel st idx r)))
               (gt dem).
Proof.
  intro H.
  assert (Hscan : forall st' az alt cval, self_ st' = self_ st ->
            eps_state_ok (self_ (fst (internal_scan m dem fat_shadow fat_kernel
                                        st' az alt cval))) (gt dem)).
  { intros st' az alt cval E. unfold internal_scan. rewrite E.
    destruct (r_written _); cbn [fst self_]; apply compute_eps_state; exact H. }
  unfold process_row.
  destruct (azimuth r); [|exact H]. destruct (altitude r); [|exact H].
  destruct (constant r); [|exact H].
  destruct (String.length (name r) =? 0)%nat; [exact H|].
  destruct (saga_enabled st).
  - destruct (try_saga saga dem idx q q0 q1); [exact H|].
    apply Hscan. destruct (is_unavailable s); reflexivity.
  - apply Hscan. reflexivity.
Qed.

Lemma strip_cells_finite (m : libm) (dem : dem_info) (az : Q) (cells_i : list cell) :
  dem_ok dem -> In cells_i (strips_of m dem az) ->
  Forall (fun c => isfinite (get NaN (dem_Z dem) (crow c) (ccol c)) = true) cells_i.
Proof.
  intros [_ [_ Hok]] Hs. apply Forall_forall. intros c Hc.
  destruct (strips_of_cells m dem az cells_i c Hs Hc) as [Hi [Hj [Hn _]]].
  rewrite (Hok _ _ Hi Hj) in Hn. apply negb_false_iff in Hn. exact Hn.
Qed.

(** C4, as the code has it (classification rule of the sweep): for a strip
    of a prepared raster, the cells are swept in ascending order of [L], a
    permutation of the collected non-no-data cells, with [L0] the least [L];
    the tolerance is [1e-5 * max(cell_width, cell_height)] when [_EPS_M] is
    unset or was set for this raster, as in every scan of a run of
    [processAlgorithm]; a visited cell with projected height [T] is marked
    exactly when the running horizon before it is strictly greater than
    [T - eps]; and the horizon after a visited cell is the maximum of the
    horizon before it and of [T], marked or not, starting from the finite
    value -1e38. *)
Theorem horizon_sweep_rule (m : libm) (self : tool) (dem : dem_info)
    (az alt maxd : Q) (cells_i : list cell) (shadow : array2 bool) (i j : nat) :
  dem_ok dem ->
  eps_state_ok self (gt dem) ->
  In cells_i (strips_of m dem az) ->
  has_shape shadow (ny dem) (nx dem) = true ->
  let cells := sort_cells cells_i in
  let L0 := key (hd no_cell cells) in
  let eps_m := eps_of self (gt dem) in
  let vis := visited maxd L0 cells in
  let Ts := map (projected (dem_Z dem) (tan_alt m alt) L0) vis in
  StronglySorted key_le cells /\
  Permutation cells cells_i /\
  (forall c, In c cells_i ->
     L0 <= key c /\ get false (mask_nd dem) (crow c) (ccol c) = false) /\
  eps_m = (1 # 100000) * py_max (cellx (gt dem)) (celly (gt dem)) /\
  get false (horizon_sweep (dem_Z dem) (tan_alt m alt) eps_m maxd L0 cells
               minus_1e38 shadow) i j =
    rule_mask minus_1e38 eps_m vis Ts shadow i j /\
  (forall k, (k < length Ts)%nat ->
     running_horizon minus_1e38 Ts (S k) =
     py_max (running_horizon minus_1e38 Ts k) (nth k Ts 0)).
Proof.
  intros Hok Heps Hs Hshape cells L0 eps_m vis Ts.
  split; [apply sort_cells_sorted|].
  split; [apply sort_cells_perm|].
  split.
  { intros c Hc. split.
    - apply (sort_cells_head_min cells_i c Hc).
    - apply (strips_of_cells m dem az cells_i c Hs Hc). }
  split; [apply eps_of_state_ok; exact Heps|].
  split.
  - assert (Hfin : Forall (fun c => isfinite (get NaN (dem_Z dem) (crow c) (ccol c)) = true)
                            cells).
    { apply (Permutation_Forall (Permutation_sym (sort_cells_perm cells_i))).
      apply (strip_cells_finite m dem az cells_i Hok Hs). }
    assert (Hin : Forall (fun c => (crow c < ny dem)%nat /\ (ccol c < nx dem)%nat) cells).
    { apply (Permutation_Forall (Permutation_sym (sort_cells_perm cells_i))).
      apply Forall_forall. intros c Hc.
      destruct (strips_of_cells m dem az cells_i c Hs Hc) as [Hi [Hj _]]. split; assumption. }
    exact (sweep_rule (dem_Z dem) (tan_alt m alt) eps_m maxd L0 (ny dem) (nx dem)
             cells Hfin Hin minus_1e38 shadow i j Hshape).
  - intros k Hk. apply running_horizon_step. exact Hk.
Qed.

Lemma spike_dem_ok : dem_ok spike_dem.
Proof.
  split; [reflexivity|]. split; [reflexivity|].
  intros i j Hi Hj. simpl in Hi, Hj.
  do 10 (destruct i as [|i];
         [do 10 (destruct j as [|j]; [reflexivity|]); lia|]).
  lia.
Qed.

Lemma horizon_sweep_rule_witness :
  let cells_i := nth 5 (strips_of py_libm spike_dem 270) [] in
  let cells := sort_cells cells_i in
  let L0 := key (hd no_cell cells) in
  let eps_m := eps_of TOOLBOX_2_HILLSHADES (gt spike_dem) in
  let vis := visited 0 L0 cells in
  let Ts := map (projected (dem_Z spike_dem) (tan_alt py_libm 45) L0) vis in
  StronglySorted key_le cells /\
  Permutation cells cells_i /\
  (forall c, In c cells_i ->
     L0 <= key c /\ get false (mask_nd spike_dem) (crow c) (ccol c) = false) /\
  eps_m = (1 # 100000) * py_max (cellx (gt spike_dem)) (celly (gt spike_dem)) /\
  get false (horizon_sweep (dem_Z spike_dem) (tan_alt py_libm 45) eps_m 0 L0 cells
               minus_1e38 (zeros 10 10)) 5 6 =
    rule_mask minus_1e38 eps_m vis Ts (zeros 10 10) 5 6 /\
  (forall k, (k < length Ts)%nat ->
     running_horizon minus_1e38 Ts (S k) =
     py_max (running_horizon minus_1e38 Ts k) (nth k Ts 0)).
Proof.
  apply (horizon_sweep_rule py_libm TOOLBOX_2_HILLSHADES spike_dem 270 45 0
           (nth 5 (strips_of py_libm spike_dem 270) []) (zeros 10 10) 5 6).
  - exact spike_dem_ok.
  - left. reflexivity.
  - apply nth_In. vm_compute. lia.
  - reflexivity.
Defined.

(** C4 as stated fails on the start value: the only cell of [deep_dem] is the
    first cell of its strip, so with a horizon starting from minus infinity
    it cannot be marked; the scan starts from -1e38 and marks it. *)
Lemma horizon_start_counterexample :
  let r := _compute_shadow_octant py_libm TOOLBOX_2_HILLSHADES deep_dem 270 45
             32 0 (- (1 # 2)) (Some 1) false 3 in
  let cells_i := nth 1 (strips_of py_libm deep_dem 270) [] in
  let cells := sort_cells cells_i in
  let L0 := key (hd no_cell cells) in
  let eps_m := eps_of TOOLBOX_2_HILLSHADES (gt deep_dem) in
  let Ts := map (projected (dem_Z deep_dem) (tan_alt py_libm 45) L0) (visited 0 L0 cells) in
  strips_of py_libm deep_dem 270 = [[]; cells_i; []] /\
  map (fun c => (crow c, ccol c)) cells = [(0%nat, 0%nat)] /\
  marked_from_minus_infinity eps_m Ts 0 = false /\
  get false (horizon_sweep (dem_Z deep_dem) (tan_alt py_libm 45) eps_m 0 L0 cells
               minus_1e38 (zeros 1 1)) 0 0 = true /\
  get false (r_raw r) 0 0 = true.
Proof.
  cbv zeta. repeat split; vm_compute; reflexivity.
Qed.

(** ** Empty masks *)




(** ** The strip width *)

Lemma py_max_ge_l (a b : Q) : a <= py_max a b.
Proof. unfold py_max. destruct (Qltb a b) eqn:E; qbool; lra. Qed.

Lemma dir_eps_pos : 0 < dir_eps.
Proof. reflexivity. Qed.

(** * Further properties *)

(** ** Text *)

Lemma lstrip_all (p : ascii -> bool) (w : string) :
  Forall (fun ch => p ch = true) (list_ascii_of_string w) ->
  forall s, lstrip p (w ++ s)%string = lstrip p s.
Proof.
  induction w as [|ch w IH]; simpl; intros H s; [reflexivity|].
  inversion H as [|? ? Hc Hw]; subst. rewrite Hc. apply IH. exact Hw.
Qed.

Lemma rstrip_all (p : ascii -> bool) (w : string) :
  Forall (fun ch => p ch = true) (list_ascii_of_string w) ->
  rstrip p w = EmptyString.
Proof.
  induction w as [|ch w IH]; simpl; intros H; [reflexivity|].
  inversion H as [|? ? Hc Hw]; subst. rewrite (IH Hw), Hc. reflexivity.
Qed.

Lemma rstrip_app_all (p : ascii -> bool) (w : string) :
  Forall (fun ch => p ch = true) (list_ascii_of_string w) ->
  forall s, rstrip p (s ++ w)%string = rstrip p s.
Proof.
  intros H. induction s as [|ch s IH]; simpl.
  - apply rstrip_all. exact H.
  - rewrite IH. reflexivity.
Qed.

Lemma lstrip_cases (p : ascii -> bool) (s : string) :
  lstrip p s = EmptyString \/
  exists ch r, lstrip p s = String ch r /\ p ch = false.
Proof.
  induction s as [|ch s IH]; simpl; [left; reflexivity|].
  destruct (p ch) eqn:E; [exact IH|].
  right. exists ch, s. split; [reflexivity | exact E].
Qed.

Lemma lstrip_app (p : ascii -> bool) (s w : string) :
  lstrip p s <> EmptyString -> lstrip p (s ++ w)%string = (lstrip p s ++ w)%string.
Proof.
  induction s as [|ch s IH]; simpl; intros H; [congruence|].
  destruct (p ch); [apply IH; exact H | reflexivity].
Qed.

Lemma lstrip_empty_all (p : ascii -> bool) (s : string) :
  lstrip p s = EmptyString -> Forall (fun ch => p ch = true) (list_ascii_of_string s).
Proof.
  induction s as [|ch s IH]; simpl; intros H; [constructor|].
  destruct (p ch) eqn:E; [|discriminate].
  constructor; [exact E | apply IH; exact H].
Qed.

(** Characters that [strip] would remove do not matter at either end. *)
Lemma strip_pad (p : ascii -> bool) (w1 w2 s : string) :
  Forall (fun ch => p ch = true) (list_ascii_of_string w1) ->
  Forall (fun ch => p ch = true) (list_ascii_of_string w2) ->
  strip p (w1 ++ s ++ w2)%string = strip p s.
Proof.
  intros H1 H2. unfold strip. rewrite (lstrip_all p w1 H1).
  destruct (lstrip p s) eqn:E.
  - rewrite (lstrip_all p s (lstrip_empty_all p s E)).
    rewrite rstrip_all; [reflexivity|].
    pose proof (lstrip_all p w2 H2 EmptyString) as A.
    assert (B : (w2 ++ EmptyString)%string = w2).
    { clear. induction w2; simpl; [reflexivity | rewrite IHw2; reflexivity]. }
    rewrite B in A. simpl in A. rewrite A. constructor.
  - rewrite lstrip_app by (rewrite E; discriminate).
    rewrite E. apply rstrip_app_all. exact H2.
Qed.

Lemma lstrip_map (p : ascii -> bool) (f : ascii -> ascii) (s : string) :
  (forall ch, p (f ch) = p ch) ->
  lstrip p (map_str f s) = map_str f (lstrip p s).
Proof.
  intros Hf. induction s as [|ch s IH]; simpl; [reflexivity|].
  rewrite Hf. destruct (p ch); [exact IH | reflexivity].
Qed.

Lemma rstrip_map (p : ascii -> bool) (f : ascii -> ascii) (s : string) :
  (forall ch, p (f ch) = p ch) ->
  rstrip p (map_str f s) = map_str f (rstrip p s).
Proof.
  intros Hf. induction s as [|ch s IH]; simpl; [reflexivity|].
  rewrite IH, Hf. destruct (rstrip p s); simpl; [|reflexivity].
  destruct (p ch); reflexivity.
Qed.

Lemma strip_map (p : ascii -> bool) (f : ascii -> ascii) (s : string) :
  (forall ch, p (f ch) = p ch) ->
  strip p (map_str f s) = map_str f (strip p s).
Proof.
  intros Hf. unfold strip. rewrite lstrip_map, rstrip_map by exact Hf. reflexivity.
Qed.

Lemma map_str_map_str (f g : ascii -> ascii) (s : string) :
  map_str f (map_str g s) = map_str (fun ch => f (g ch)) s.
Proof.
  induction s as [|ch s IH]; simpl; [reflexivity | rewrite IH; reflexivity].
Qed.

Lemma map_str_ext (f g : ascii -> ascii) (s : string) :
  (forall ch, In ch (list_ascii_of_string s) -> f ch = g ch) ->
  map_str f s = map_str g s.
Proof.
  induction s as [|ch s IH]; simpl; intros H; [reflexivity|].
  rewrite (H ch) by (left; reflexivity). rewrite IH; [reflexivity|].
  intros c Hc. apply H. right. exact Hc.
Qed.

Lemma map_str_id (f : ascii -> ascii) (s : string) :
  (forall ch, In ch (list_ascii_of_string s) -> f ch = ch) -> map_str f s = s.
Proof.
  induction s as [|ch s IH]; simpl; intros H; [reflexivity|].
  rewrite (H ch) by (left; reflexivity). rewrite IH; [reflexivity|].
  intros c Hc. apply H. right. exact Hc.
Qed.

Lemma comma_dot_space (ch : ascii) :
  isspace (if Ascii.eqb ch "," then "."%char else ch) = isspace ch.
Proof.
  destruct (Ascii.eqb ch ",") eqn:E; [|reflexivity].
  apply Ascii.eqb_eq in E. subst ch. reflexivity.
Qed.

(** X1: for a text, [_to_float] ignores white space around it and reads a
    decimal comma as a decimal point: [w1 + s + w2], and [s] with every
    comma replaced by a point, give what [s] gives. *)
Theorem to_float_text (F : Type) (float_of_str : string -> option F)
    (s w1 w2 : string) :
  Forall (fun ch => isspace ch = true) (list_ascii_of_string w1) ->
  Forall (fun ch => isspace ch = true) (list_ascii_of_string w2) ->
  _to_float F float_of_str (PyStr (w1 ++ s ++ w2)%string) =
    _to_float F float_of_str (PyStr s) /\
  _to_float F float_of_str (PyStr (replace "," "." s)) =
    _to_float F float_of_str (PyStr s).
Proof.
  intros H1 H2. split.
  - simpl. rewrite strip_pad by assumption. reflexivity.
  - simpl. f_equal. unfold replace.
    rewrite strip_map by exact comma_dot_space.
    rewrite map_str_map_str. apply map_str_ext. intros ch _.
    destruct (Ascii.eqb ch ",") eqn:E; [reflexivity|]. rewrite E. reflexivity.
Qed.

Lemma to_float_text_witness :
  let float_of_str := fun s => if String.eqb s "1.5" then Some (3 # 2) else None in
  _to_float Q float_of_str (PyStr " 1,5  ") = _to_float Q float_of_str (PyStr "1,5") /\
  _to_float Q float_of_str (PyStr "1.5") = _to_float Q float_of_str (PyStr "1,5").
Proof.
  apply (to_float_text Q (fun s => if String.eqb s "1.5" then Some (3 # 2) else None)
           "1,5" " " "  ");
    repeat constructor.
Defined.

(** ** [_slug] *)

Lemma app_cons_last (r : string) (ch c : ascii) (x : string) :
  (r ++ String ch EmptyString)%string = String c x ->
  (r = EmptyString /\ ch = c /\ x = EmptyString) \/
  (exists r', r = String c r' /\ x = (r' ++ String ch EmptyString)%string).
Proof.
  destruct r as [|c' r']; simpl; intros H; inversion H; subst.
  - left. repeat split.
  - right. exists r'. split; reflexivity.
Qed.

Lemma lstrip_sub (p : ascii -> bool) (s : string) (ch : ascii) :
  In ch (list_ascii_of_string (lstrip p s)) -> In ch (list_ascii_of_string s).
Proof.
  induction s as [|c s IH]; simpl; [tauto|].
  destruct (p c); simpl; [right; apply IH; assumption | tauto].
Qed.

Lemma rstrip_sub (p : ascii -> bool) (s : string) (ch : ascii) :
  In ch (list_ascii_of_string (rstrip p s)) -> In ch (list_ascii_of_string s).
Proof.
  induction s as [|c s IH]; simpl; [tauto|].
  destruct (rstrip p s) as [|c' r'] eqn:E.
  - destruct (p c); simpl; tauto.
  - simpl. intros [H|H]; [left; exact H | right; apply IH; exact H].
Qed.

Lemma strip_sub (p : ascii -> bool) (s : string) (ch : ascii) :
  In ch (list_ascii_of_string (strip p s)) -> In ch (list_ascii_of_string s).
Proof. intros H. apply lstrip_sub with p, rstrip_sub with p. exact H. Qed.

Lemma rstrip_head (p : ascii -> bool) (s : string) (ch : ascii) (r : string) :
  rstrip p s = String ch r -> exists r', s = String ch r'.
Proof.
  destruct s as [|c s]; simpl; [discriminate|].
  destruct (rstrip p s); [destruct (p c)|]; intros H; inversion H; subst;
    eexists; reflexivity.
Qed.

Lemma strip_first (p : ascii -> bool) (s : string) (ch : ascii) (r : string) :
  strip p s = String ch r -> p ch = false.
Proof.
  unfold strip. intros H. destruct (rstrip_head _ _ _ _ H) as [r' E].
  destruct (lstrip_cases p s) as [E0 | [c [x [E1 Hc]]]]; [congruence|].
  rewrite E1 in E. inversion E; subst. exact Hc.
Qed.

Lemma rstrip_last (p : ascii -> bool) (s r : string) (ch : ascii) :
  rstrip p s = (r ++ String ch EmptyString)%string -> p ch = false.
Proof.
  revert r. induction s as [|c s IH]; simpl; intros r H.
  - destruct r; discriminate.
  - destruct (rstrip p s) as [|c' x] eqn:E.
    + destruct (p c) eqn:Ec; [destruct r; discriminate|].
      symmetry in H. apply app_cons_last in H.
      destruct H as [[_ [-> _]] | [r' [_ H]]]; [exact Ec | destruct r'; discriminate].
    + symmetry in H. apply app_cons_last in H.
      destruct H as [[_ [_ H]] | [r' [_ H]]]; [discriminate|].
      apply (IH r'). exact H.
Qed.

Lemma strip_last (p : ascii -> bool) (s r : string) (ch : ascii) :
  strip p s = (r ++ String ch EmptyString)%string -> p ch = false.
Proof. apply rstrip_last. Qed.

Lemma lstrip_keeps (p : ascii -> bool) (s : string) :
  (forall ch r, s = String ch r -> p ch = false) -> lstrip p s = s.
Proof.
  destruct s as [|c s]; simpl; intros H; [reflexivity|].
  rewrite (H c s eq_refl). reflexivity.
Qed.

Lemma rstrip_keeps (p : ascii -> bool) (s : string) :
  (forall r ch, s = (r ++ String ch EmptyString)%string -> p ch = false) ->
  rstrip p s = s.
Proof.
  induction s as [|c s IH]; simpl; intros H; [reflexivity|].
  destruct s as [|c' s'].
  - simpl. rewrite (H EmptyString c eq_refl). reflexivity.
  - rewrite IH; [reflexivity|].
    intros r ch E. apply (H (String c r) ch). simpl. rewrite E. reflexivity.
Qed.

Lemma strip_keeps (p : ascii -> bool) (s : string) :
  (forall ch r, s = String ch r -> p ch = false) ->
  (forall r ch, s = (r ++ String ch EmptyString)%string -> p ch = false) ->
  strip p s = s.
Proof.
  intros H1 H2. unfold strip. rewrite lstrip_keeps by exact H1.
  apply rstrip_keeps. exact H2.
Qed.

Lemma in_map_str (f : ascii -> ascii) (s : string) (ch : ascii) :
  In ch (list_ascii_of_string (map_str f s)) ->
  exists c, ch = f c /\ In c (list_ascii_of_string s).
Proof.
  induction s as [|c s IH]; simpl; [tauto|].
  intros [H|H].
  - exists c. split; [symmetry; exact H | left; reflexivity].
  - destruct (IH H) as [c0 [E Hc]]. exists c0. split; [exact E | right; exact Hc].
Qed.

Lemma in_app_last (r : string) (ch : ascii) :
  In ch (list_ascii_of_string (r ++ String ch EmptyString)%string).
Proof. induction r as [|c r IH]; simpl; [left; reflexivity | right; exact IH]. Qed.

(** The characters [_slug] lets through. *)
Lemma slug_char (uni : ascii -> bool) (ch : ascii) :
  let out := if isalnum uni ch || in_chars ".-_" ch then ch else "_"%char in
  isalnum uni out || in_chars ".-_" out = true.
Proof.
  simpl. destruct (isalnum uni ch || in_chars ".-_" ch) eqn:E; [exact E|].
  apply orb_true_r.
Qed.

Lemma slug_result (uni : ascii -> bool) (name : option string) :
  let s := _slug uni name in
  s <> EmptyString /\
  Forall (fun ch => isalnum uni ch || in_chars ".-_" ch = true) (list_ascii_of_string s) /\
  (forall ch r, s = String ch r -> in_chars " ." ch = false) /\
  (forall r ch, s = (r ++ String ch EmptyString)%string -> in_chars " ." ch = false).
Proof.
  unfold _slug.
  set (name_or := match name with Some n => n | None => EmptyString end).
  set (out := map_str _ (strip isspace name_or)).
  destruct (strip (in_chars " .") out) as [|c x] eqn:E.
  - split; [discriminate|]. split; [|split].
    + repeat constructor.
    + intros ch r H. inversion H; subst. reflexivity.
    + intros r ch H.
      assert (A : In ch (list_ascii_of_string "shadow")).
      { rewrite H. apply in_app_last. }
      simpl in A. repeat (destruct A as [<- | A]; [reflexivity|]). destruct A.
  - split; [discriminate|]. split; [|split].
    + apply Forall_forall. intros ch Hc. rewrite <- E in Hc.
      apply strip_sub in Hc. apply in_map_str in Hc.
      destruct Hc as [c0 [-> _]]. apply slug_char.
    + intros ch r H. rewrite <- E in H. apply strip_first in H. exact H.
    + intros r ch H. rewrite <- E in H. apply strip_last in H. exact H.
Qed.

(** X2: [_slug] always returns a usable file-name part: it is not empty,
    each of its characters is alphanumeric or one of [. - _] (so it holds no
    path separator and no space), and it neither starts nor ends with a
    dot. *)
Theorem slug_is_safe (uni : ascii -> bool) (name : option string) :
  let s := _slug uni name in
  s <> EmptyString /\
  Forall (fun ch => isalnum uni ch = true \/ ch = "."%char \/ ch = "-"%char \/ ch = "_"%char)
         (list_ascii_of_string s) /\
  (forall ch r, s = String ch r -> ch <> "."%char) /\
  (forall r ch, s = (r ++ String ch EmptyString)%string -> ch <> "."%char).
Proof.
  destruct (slug_result uni name) as [A [B [C D]]].
  cbv zeta. split; [exact A|]. split; [|split].
  - eapply Forall_impl; [|exact B]. intros ch H. simpl in H.
    apply orb_true_iff in H. destruct H as [H|H]; [left; exact H|right].
    unfold in_chars in H. simpl in H.
    repeat (apply orb_true_iff in H; destruct H as [H|H];
            [apply Ascii.eqb_eq in H; tauto|]).
    discriminate.
  - intros ch r H E. subst ch. specialize (C _ _ H). discriminate.
  - intros r ch H E. subst ch. specialize (D _ _ H). discriminate.
Qed.

Lemma safe_not_space (uni : ascii -> bool) (ch : ascii) :
  (forall c, isalnum uni c = true -> isspace c = false) ->
  isalnum uni ch || in_chars ".-_" ch = true -> isspace ch = false.
Proof.
  intros H Hc. apply orb_true_iff in Hc. destruct Hc as [Hc|Hc]; [apply H; exact Hc|].
  unfold in_chars in Hc. simpl in Hc.
  repeat (apply orb_true_iff in Hc; destruct Hc as [Hc|Hc];
          [apply Ascii.eqb_eq in Hc; subst ch; reflexivity|]).
  discriminate.
Qed.

Lemma slug_keeps (uni : ascii -> bool) (s : string) :
  (forall c, isalnum uni c = true -> isspace c = false) ->
  s <> EmptyString ->
  Forall (fun ch => isalnum uni ch || in_chars ".-_" ch = true) (list_ascii_of_string s) ->
  (forall ch r, s = String ch r -> in_chars " ." ch = false) ->
  (forall r ch, s = (r ++ String ch EmptyString)%string -> in_chars " ." ch = false) ->
  _slug uni (Some s) = s.
Proof.
  intros Huni Hne Hall Hfirst Hlast. unfold _slug.
  assert (Hsp : forall ch, In ch (list_ascii_of_string s) -> isspace ch = false).
  { intros ch Hc. apply (safe_not_space uni); [exact Huni|].
    rewrite Forall_forall in Hall. apply Hall. exact Hc. }
  rewrite (strip_keeps isspace s).
  - rewrite map_str_id.
    + rewrite strip_keeps by assumption. destruct s; [congruence | reflexivity].
    + intros ch Hc. rewrite Forall_forall in Hall. rewrite (Hall ch Hc). reflexivity.
  - intros ch r E. apply Hsp. rewrite E. left. reflexivity.
  - intros r ch E. apply Hsp. rewrite E. apply in_app_last.
Qed.

(** X3: provided no alphanumeric character is white space, [_slug] keeps a
    name that is already clean: not empty, made of alphanumerics and
    [. - _], without a dot at either end. *)
Theorem slug_keeps_clean_name (uni : ascii -> bool) (s : string) :
  (forall c, isalnum uni c = true -> isspace c = false) ->
  s <> EmptyString ->
  Forall (fun ch => isalnum uni ch = true \/ ch = "."%char \/ ch = "-"%char \/ ch = "_"%char)
         (list_ascii_of_string s) ->
  (forall ch r, s = String ch r -> ch <> "."%char) ->
  (forall r ch, s = (r ++ String ch EmptyString)%string -> ch <> "."%char) ->
  _slug uni (Some s) = s.
Proof.
  intros Huni Hne Hall Hfirst Hlast.
  assert (Hall' : Forall (fun ch => isalnum uni ch || in_chars ".-_" ch = true)
                         (list_ascii_of_string s)).
  { eapply Forall_impl; [|exact Hall]. intros ch H. simpl in H.
    destruct H as [H | [-> | [-> | ->]]];
      [rewrite H; reflexivity | apply orb_true_r ..]. }
  assert (Hdot : forall ch, In ch (list_ascii_of_string s) -> ch <> "."%char ->
                            in_chars " ." ch = false).
  { intros ch Hc Hd. unfold in_chars. simpl.
    destruct (Ascii.eqb ch " ") eqn:E1.
    - apply Ascii.eqb_eq in E1. subst ch.
      rewrite Forall_forall in Hall'. specialize (Hall' _ Hc).
      apply (safe_not_space uni _ Huni) in Hall'. discriminate.
    - destruct (Ascii.eqb ch ".") eqn:E2; [|reflexivity].
      apply Ascii.eqb_eq in E2. contradiction. }
  apply slug_keeps; try assumption.
  - intros ch r E. apply Hdot; [rewrite E; left; reflexivity | exact (Hfirst _ _ E)].
  - intros r ch E. apply Hdot; [rewrite E; apply in_app_last | exact (Hlast _ _ E)].
Qed.

(** No ASCII letter or digit is white space. *)
Lemma ascii_alnum_not_space (c : ascii) :
  isalnum (fun _ => false) c = true -> isspace c = false.
Proof.
  destruct c as [[] [] [] [] [] [] [] []]; cbv; intros H;
    first [reflexivity | discriminate H].
Qed.

Lemma slug_keeps_clean_name_witness :
  _slug (fun _ => false) (Some "W_1-a"%string) = "W_1-a"%string.
Proof.
  apply (slug_keeps_clean_name (fun _ => false) "W_1-a").
  - exact ascii_alnum_not_space.
  - discriminate.
  - repeat constructor;
      first [left; reflexivity | right; left; reflexivity
            | right; right; left; reflexivity | right; right; right; reflexivity].
  - intros ch r E. inversion E. discriminate.
  - intros r ch E.
    assert (A : In ch (list_ascii_of_string "W_1-a")) by (rewrite E; apply in_app_last).
    simpl in A. repeat (destruct A as [<- | A]; [discriminate|]). destruct A.
Defined.

(** X4: provided no alphanumeric character is white space, [_slug] is
    idempotent: a slug is its own slug. *)
Theorem slug_idempotent (uni : ascii -> bool) (name : option string) :
  (forall c, isalnum uni c = true -> isspace c = false) ->
  _slug uni (Some (_slug uni name)) = _slug uni name.
Proof.
  intros Huni. destruct (slug_result uni name) as [A [B [C D]]].
  apply slug_keeps; assumption.
Qed.

Lemma slug_idempotent_witness :
  _slug (fun _ => false) (Some (_slug (fun _ => false) (Some " a/b c. "%string))) =
  _slug (fun _ => false) (Some " a/b c. "%string).
Proof.
  apply (slug_idempotent (fun _ => false) (Some " a/b c. "%string)).
  exact ascii_alnum_not_space.
Defined.

(** ** Column lookup *)

Lemma dict_get_set {V : Type} (d : list (string * V)) (k k' : string) (v default : V) :
  dict_get (dict_set d k v) k' default =
  if String.eqb k k' then v else dict_get d k' default.
Proof.
  induction d as [|[k0 v0] d IH]; simpl.
  - reflexivity.
  - destruct (String.eqb k0 k) eqn:E; simpl.
    + apply String.eqb_eq in E. subst k0.
      destruct (String.eqb k k'); reflexivity.
    + destruct (String.eqb k0 k') eqn:E'; [|exact IH].
      apply String.eqb_eq in E'. subst k0.
      destruct (String.eqb k k') eqn:E2; [|reflexivity].
      apply String.eqb_eq in E2. subst k. rewrite String.eqb_refl in E. discriminate.
Qed.

Lemma pick_snoc (str_lower : string -> string) (l : list string) (h col : string) :
  pick str_lower (l ++ [h]) col =
  if String.eqb (str_lower h) (str_lower col) then h else pick str_lower l col.
Proof.
  unfold pick, headers. rewrite fold_left_app. simpl. apply dict_get_set.
Qed.

(** X5: the column lookup of both table readers ignores case: the name
    returned equals the requested one up to case; it is the requested name
    itself when no header matches, and the last matching header
    otherwise. *)
Theorem pick_ignores_case (str_lower : string -> string)
    (fieldnames : list string) (col : string) :
  str_lower (pick str_lower fieldnames col) = str_lower col /\
  (Forall (fun h => str_lower h <> str_lower col) fieldnames ->
   pick str_lower fieldnames col = col) /\
  (forall pre h post,
     fieldnames = pre ++ h :: post ->
     str_lower h = str_lower col ->
     Forall (fun h' => str_lower h' <> str_lower col) post ->
     pick str_lower fieldnames col = h).
Proof.
  split; [|split].
  - induction fieldnames as [|h l IH] using rev_ind; [reflexivity|].
    rewrite pick_snoc. destruct (String.eqb _ _) eqn:E; [|exact IH].
    apply String.eqb_eq. exact E.
  - induction fieldnames as [|h l IH] using rev_ind; intros H; [reflexivity|].
    rewrite pick_snoc. apply Forall_app in H. destruct H as [Hl Hh].
    inversion Hh as [|? ? Hne _]; subst.
    destruct (String.eqb _ _) eqn:E; [apply String.eqb_eq in E; contradiction|].
    apply IH. exact Hl.
  - intros pre h post -> Hh. induction post as [|x post IH] using rev_ind; intros Hp.
    + rewrite pick_snoc, Hh, String.eqb_refl. reflexivity.
    + apply Forall_app in Hp. destruct Hp as [Hp Hx].
      inversion Hx as [|? ? Hne _]; subst.
      replace (pre ++ h :: post ++ [x]) with ((pre ++ h :: post) ++ [x])
        by (rewrite <- app_assoc; reflexivity).
      rewrite pick_snoc.
      destruct (String.eqb _ _) eqn:E; [apply String.eqb_eq in E; contradiction|].
      apply IH. exact Hp.
Qed.

(** ** [infer_octants_from_azimuths] *)

Lemma insert_q_in (x z : Q) (l : list Q) :
  In z (insert_q x l) <-> z = x \/ In z l.
Proof.
  induction l as [|y r IH]; simpl; [intuition congruence|].
  destruct (Qltb y x); simpl; [rewrite IH|]; intuition congruence.
Qed.

Lemma np_sort_in (z : Q) (l : list Q) : In z (np_sort l) <-> In z l.
Proof.
  induction l as [|x r IH]; simpl; [tauto|].
  rewrite insert_q_in, IH. intuition congruence.
Qed.

Lemma insert_q_sorted (x : Q) (l : list Q) :
  StronglySorted Qle l -> StronglySorted Qle (insert_q x l).
Proof.
  induction l as [|y r IH]; simpl; intros H.
  - constructor; constructor.
  - inversion H as [|? ? Hr Hy]; subst.
    destruct (Qltb y x) eqn:E.
    + apply Qltb_lt in E. constructor; [apply IH; exact Hr|].
      apply Forall_forall. intros z Hz. apply insert_q_in in Hz.
      destruct Hz as [-> | Hz]; [apply Qlt_le_weak; exact E|].
      rewrite Forall_forall in Hy. apply Hy. exact Hz.
    + apply Qltb_ge in E. constructor; [exact H|].
      constructor; [exact E|].
      eapply Forall_impl; [|exact Hy]. intros z Hz. simpl in Hz.
      eapply Qle_trans; eassumption.
Qed.

Lemma np_sort_sorted (l : list Q) : StronglySorted Qle (np_sort l).
Proof.
  induction l as [|x r IH]; simpl; [constructor | apply insert_q_sorted; exact IH].
Qed.

Lemma drop_repeats_sorted (l : list Q) :
  forall prev, StronglySorted Qle (prev :: l) ->
               StronglySorted Qlt (prev :: drop_repeats prev l).
Proof.
  induction l as [|x r IH]; intros prev H; simpl.
  - constructor; constructor.
  - inversion H as [|? ? Hxr Hp]; subst.
    inversion Hp as [|? ? Hpx Hpr]; subst.
    specialize (IH x Hxr). inversion IH as [|? ? Hs Hf]; subst.
    destruct (Qeq_bool x prev) eqn:E.
    + apply Qeq_bool_iff in E. constructor; [exact Hs|].
      eapply Forall_impl; [|exact Hf]. intros z Hz. simpl in Hz.
      rewrite <- E. exact Hz.
    + apply Qeq_bool_neq in E.
      assert (Hlt : prev < x).
      { destruct (Qle_lt_or_eq _ _ Hpx) as [A|A]; [exact A|].
        exfalso. apply E. symmetry. exact A. }
      constructor; [exact IH|]. constructor; [exact Hlt|].
      eapply Forall_impl; [|exact Hf]. intros z Hz. simpl in Hz.
      eapply Qlt_trans; eassumption.
Qed.

Lemma np_unique_sorted (l : list Q) : StronglySorted Qlt (np_unique l).
Proof.
  unfold np_unique. pose proof (np_sort_sorted l) as H.
  destruct (np_sort l) as [|x r]; [constructor|].
  apply drop_repeats_sorted. exact H.
Qed.

Lemma Qfloor_unique (x : Q) (z : Z) :
  inject_Z z <= x -> x < inject_Z z + 1 -> Qfloor x = z.
Proof.
  intros H1 H2.
  assert (A : (z <= Qfloor x)%Z).
  { rewrite <- (Qfloor_Z z). apply Qfloor_resp_le. exact H1. }
  assert (B : (Qfloor x < z + 1)%Z).
  { rewrite Zlt_Qlt. rewrite inject_Z_plus.
    eapply Qle_lt_trans; [apply Qfloor_le | exact H2]. }
  lia.
Qed.

Lemma Qfloor_shift (x : Q) (k : Z) : Qfloor (x + inject_Z k) = (Qfloor x + k)%Z.
Proof.
  apply Qfloor_unique.
  - rewrite inject_Z_plus. pose proof (Qfloor_le x). lra.
  - rewrite inject_Z_plus. pose proof (Qlt_floor x) as H.
    rewrite inject_Z_plus in H. change (inject_Z 1) with 1 in H. lra.
Qed.

Lemma fmod360_comp (x y : Q) : x == y -> fmod360 x == fmod360 y.
Proof.
  intros H. unfold fmod360.
  assert (E : Qfloor (x / 360) = Qfloor (y / 360)).
  { apply Qfloor_comp. rewrite H. reflexivity. }
  rewrite E, H. reflexivity.
Qed.

Lemma fmod360_shift (y : Q) (k : Z) : fmod360 (y + 360 * inject_Z k) == fmod360 y.
Proof.
  unfold fmod360.
  assert (E : Qfloor ((y + 360 * inject_Z k) / 360) = (Qfloor (y / 360) + k)%Z).
  { rewrite <- Qfloor_shift. apply Qfloor_comp. field. }
  rewrite E. unfold QofZ. rewrite inject_Z_plus. ring.
Qed.

Lemma Qltb_comp (a b a' b' : Q) : a == a' -> b == b' -> Qltb a b = Qltb a' b'.
Proof.
  intros Ha Hb. apply bool_eq_iff. rewrite !Qltb_lt, Ha, Hb. reflexivity.
Qed.

Lemma py_round_comp (x y : Q) : x == y -> py_round x = py_round y.
Proof.
  intros H. unfold py_round. rewrite (Qfloor_comp _ _ H).
  rewrite (Qltb_comp (x - QofZ (Qfloor y)) (1 # 2) (y - QofZ (Qfloor y)) (1 # 2))
    by (first [reflexivity | rewrite H; reflexivity]).
  rewrite (Qltb_comp (1 # 2) (x - QofZ (Qfloor y)) (1 # 2) (y - QofZ (Qfloor y)))
    by (first [reflexivity | rewrite H; reflexivity]).
  reflexivity.
Qed.

Lemma np_round6_comp (x y : Q) : x == y -> np_round6 x = np_round6 y.
Proof.
  intros H. unfold np_round6. rewrite (py_round_comp (x * 1000000) (y * 1000000)).
  - reflexivity.
  - rewrite H. reflexivity.
Qed.

(** Two values rounded to six decimals that are equal as numbers are the
    same fraction. *)
Lemma np_round6_canonical (x y : Q) :
  np_round6 x == np_round6 y -> np_round6 x = np_round6 y.
Proof.
  unfold np_round6, QofZ. intros H.
  assert (E : inject_Z (py_round (x * 1000000)) == inject_Z (py_round (y * 1000000))).
  { assert (A : forall a b : Q, a / 1000000 == b / 1000000 -> a == b).
    { intros a b Hab.
      assert (Ea : a == a / 1000000 * 1000000) by field.
      assert (Eb : b == b / 1000000 * 1000000) by field.
      rewrite Ea, Eb, Hab. reflexivity. }
    apply A. exact H. }
  rewrite (proj1 (inject_Z_injective _ _) E). reflexivity.
Qed.

Lemma canonical_round6 (l : list Q) : canonical (map np_round6 l).
Proof.
  intros a b Ha Hb H. apply in_map_iff in Ha. apply in_map_iff in Hb.
  destruct Ha as [x [<- _]]. destruct Hb as [y [<- _]].
  apply np_round6_canonical. exact H.
Qed.

Lemma drop_repeats_in (l : list Q) :
  forall prev, canonical (prev :: l) ->
    forall z, In z (prev :: drop_repeats prev l) <-> In z (prev :: l).
Proof.
  induction l as [|x r IH]; intros prev Hc z; [reflexivity|].
  assert (Hc' : canonical (x :: r)).
  { intros a b Ha Hb. apply Hc; right; assumption. }
  specialize (IH x Hc' z). cbn [drop_repeats].
  destruct (Qeq_bool x prev) eqn:E.
  - apply Qeq_bool_iff in E.
    assert (x = prev).
    { apply Hc; [right; left; reflexivity | left; reflexivity | exact E]. }
    subst x. simpl in *. tauto.
  - simpl in *. tauto.
Qed.

Lemma np_unique_in (l : list Q) (z : Q) :
  canonical l -> (In z (np_unique l) <-> In z l).
Proof.
  intros Hc. unfold np_unique. rewrite <- (np_sort_in z l).
  assert (Hc' : canonical (np_sort l)).
  { intros a b Ha Hb. apply Hc; apply np_sort_in; assumption. }
  destruct (np_sort l) as [|x r]; [reflexivity|].
  apply drop_repeats_in. exact Hc'.
Qed.

Lemma sorted_lt_same (l1 : list Q) :
  forall l2, StronglySorted Qlt l1 -> StronglySorted Qlt l2 ->
    (forall z, In z l1 <-> In z l2) -> l1 = l2.
Proof.
  induction l1 as [|a r1 IH]; intros l2 H1 H2 Hin.
  - destruct l2 as [|b r2]; [reflexivity|].
    exfalso. apply (proj2 (Hin b)). left. reflexivity.
  - destruct l2 as [|b r2].
    + exfalso. apply (proj1 (Hin a)). left. reflexivity.
    + inversion H1 as [|? ? S1 F1]; subst. inversion H2 as [|? ? S2 F2]; subst.
      rewrite Forall_forall in F1, F2.
      assert (Eab : a = b).
      { destruct (proj1 (Hin a) (or_introl eq_refl)) as [E|Ha]; [symmetry; exact E|].
        destruct (proj2 (Hin b) (or_introl eq_refl)) as [E|Hb]; [exact E|].
        exfalso. pose proof (F2 _ Ha). pose proof (F1 _ Hb). lra. }
      subst b. f_equal. apply IH; [exact S1 | exact S2|].
      intros z. split; intros Hz.
      * destruct (proj1 (Hin z) (or_intror Hz)) as [E|Hz']; [|exact Hz'].
        subst z. exfalso. pose proof (F1 _ Hz). lra.
      * destruct (proj2 (Hin z) (or_intror Hz)) as [E|Hz']; [|exact Hz'].
        subst z. exfalso. pose proof (F2 _ Hz). lra.
Qed.

Lemma np_unique_same (l1 l2 : list Q) :
  canonical l1 -> (forall z, In z l1 <-> In z l2) -> np_unique l1 = np_unique l2.
Proof.
  intros Hc Hin.
  assert (Hc2 : canonical l2).
  { intros a b Ha Hb. apply Hc; apply Hin; assumption. }
  apply sorted_lt_same; try apply np_unique_sorted.
  intros z. rewrite !np_unique_in by assumption. apply Hin.
Qed.

Lemma same_direction (x y : Q) (k : Z) :
  x == y + 360 * inject_Z k -> np_round6 (fmod360 x) = np_round6 (fmod360 y).
Proof.
  intros H. apply np_round6_comp.
  rewrite (fmod360_comp _ _ H). apply fmod360_shift.
Qed.

(** X7: [infer_octants_from_azimuths] depends only on the set of valid
    directions modulo 360 degrees: the order of the entries, repeated
    entries, [None] and NaN entries, and a multiple of 360 added to an
    entry do not change the result. *)
Theorem infer_octants_same_directions (az_values1 az_values2 : list (option npfloat))
    (tolerance_deg : Q) (min_parts default_octants : Z) :
  (forall x, In x (valid_azimuths az_values1) ->
     exists y k, In y (valid_azimuths az_values2) /\ x == y + 360 * inject_Z k) ->
  (forall y, In y (valid_azimuths az_values2) ->
     exists x k, In x (valid_azimuths az_values1) /\ y == x + 360 * inject_Z k) ->
  infer_octants_from_azimuths az_values1 tolerance_deg min_parts default_octants =
  infer_octants_from_azimuths az_values2 tolerance_deg min_parts default_octants.
Proof.
  intros H12 H21. unfold infer_octants_from_azimuths. cbv zeta.
  assert (E : np_unique (map np_round6 (map fmod360 (valid_azimuths az_values1))) =
              np_unique (map np_round6 (map fmod360 (valid_azimuths az_values2)))).
  { apply np_unique_same; [apply canonical_round6|].
    intros z. rewrite !map_map, !in_map_iff. split.
    - intros [x [<- Hx]]. destruct (H12 x Hx) as [y [k [Hy E]]].
      exists y. split; [symmetry; apply (same_direction x y k E) | exact Hy].
    - intros [y [<- Hy]]. destruct (H21 y Hy) as [x [k [Hx E]]].
      exists x. split; [symmetry; apply (same_direction y x k E) | exact Hx]. }
  rewrite E. reflexivity.
Qed.

Lemma infer_octants_same_directions_witness :
  infer_octants_from_azimuths
    [Some (Fin 0); Some (Fin 90); None; Some (Fin 180); Some (Fin 270); Some (Fin 360)]
    (1 # 4) 4 32 =
  infer_octants_from_azimuths
    [Some (Fin 450); Some NaN; Some (Fin 0); Some (Fin (-90)); Some (Fin 180)]
    (1 # 4) 4 32.
Proof.
  apply infer_octants_same_directions.
  - intros x Hx. simpl in Hx.
    destruct Hx as [<- | [<- | [<- | [<- | [<- | []]]]]].
    + exists 0, 0%Z. split; [simpl; tauto | reflexivity].
    + exists 450, (-1)%Z. split; [simpl; tauto | reflexivity].
    + exists 180, 0%Z. split; [simpl; tauto | reflexivity].
    + exists (-90), 1%Z. split; [simpl; tauto | reflexivity].
    + exists 0, 1%Z. split; [simpl; tauto | reflexivity].
  - intros y Hy. simpl in Hy.
    destruct Hy as [<- | [<- | [<- | [<- | []]]]].
    + exists 90, 1%Z. split; [simpl; tauto | reflexivity].
    + exists 0, 0%Z. split; [simpl; tauto | reflexivity].
    + exists 270, (-1)%Z. split; [simpl; tauto | reflexivity].
    + exists 180, 0%Z. split; [simpl; tauto | reflexivity].
Defined.

(** ** The writer and [_prepare_dem] applied twice *)

Lemma mask_assign_twice {A : Type} (d : A) (ny nx : nat) (a : array2 A)
    (mask : array2 bool) (v : A) :
  mask_assign d ny nx (mask_assign d ny nx a mask v) mask v = mask_assign d ny nx a mask v.
Proof.
  unfold mask_assign at 1 3. apply tabulate_ext. intros i j Hi Hj.
  rewrite get_mask_assign by assumption.
  destruct (get false mask i j); reflexivity.
Qed.

(** X9: the writer is a projection: the mask it keeps and the array it
    writes have the shape of the raster, and writing the kept mask again
    gives the same mask and the same array. *)
Theorem write_shadow_mask_twice (dem : dem_info) (shadow_bool : array2 bool)
    (const_val : option Q) (w : written) :
  _write_shadow_mask dem shadow_bool const_val = Some w ->
  has_shape (w_shadow w) (ny dem) (nx dem) = true /\
  has_shape (w_out w) (ny dem) (nx dem) = true /\
  _write_shadow_mask dem (w_shadow w) const_val = Some w.
Proof.
  unfold _write_shadow_mask. cbv zeta.
  destruct (has_shape shadow_bool (ny dem) (nx dem)); cbn [negb]; [|discriminate].
  intros H. inversion H as [Hw]. clear H. cbn [w_shadow w_out].
  split; [apply has_shape_tabulate|]. split; [apply has_shape_tabulate|].
  unfold mask_assign at 1. rewrite has_shape_tabulate. cbn [negb].
  fold (mask_assign false (ny dem) (nx dem) shadow_bool (mask_nd dem) false).
  rewrite mask_assign_twice. reflexivity.
Qed.

Lemma write_shadow_mask_twice_witness :
  let w := {| w_shadow := tabulate 3 5 (fun i j => negb ((i =? 1)%nat && (j =? 2)%nat));
              w_out := tabulate 3 5 (fun i j =>
                         if (i =? 1)%nat && (j =? 2)%nat then - 9999 else 1) |} in
  has_shape (w_shadow w) (ny hole_dem) (nx hole_dem) = true /\
  has_shape (w_out w) (ny hole_dem) (nx hole_dem) = true /\
  _write_shadow_mask hole_dem (w_shadow w) (Some 1) = Some w.
Proof.
  apply (write_shadow_mask_twice hole_dem (tabulate 3 5 (fun _ _ => true)) (Some 1)).
  vm_compute. reflexivity.
Defined.

(** X10: a prepared raster is well formed (both arrays have the shape
    [(ny, nx)] and a cell is flagged as no-data exactly when its height is
    NaN), and preparing its heights again with its no-data value changes
    nothing. *)
Theorem prepare_dem_twice (band : array2 npfloat) (band_nodata : option Q)
    (g : geotransform) (p : string) :
  let dem := _prepare_dem band band_nodata g p in
  dem_ok dem /\
  _prepare_dem (dem_Z dem) (Some (nodata dem)) g p = dem.
Proof.
  cbv zeta. split; [apply prepare_dem_ok|].
  unfold _prepare_dem. cbn [dem_Z nodata].
  set (nodata_ := match band_nodata with Some v => v | None => - 9999 end).
  set (ny_ := length band). set (nx_ := length (hd [] band)).
  set (mask := tabulate ny_ nx_ (fun i j =>
                 negb (isfinite (get NaN band i j)) || is_nodata (get NaN band i j) nodata_)).
  set (Z1 := mask_assign NaN ny_ nx_ band mask NaN).
  assert (Ely : length Z1 = ny_).
  { unfold Z1, mask_assign, tabulate. rewrite length_map, length_seq. reflexivity. }
  assert (Elx : length (hd [] Z1) = nx_).
  { unfold Z1, mask_assign, tabulate. destruct ny_ as [|n] eqn:En.
    - simpl. unfold nx_. unfold ny_ in En. destruct band; [reflexivity | discriminate].
    - rewrite <- cons_seq. cbn [map hd]. rewrite length_map, length_seq. reflexivity. }
  rewrite Ely, Elx.
  assert (Emask : tabulate ny_ nx_ (fun i j =>
                    negb (isfinite (get NaN Z1 i j)) || is_nodata (get NaN Z1 i j) nodata_)
                  = mask).
  { unfold mask. apply tabulate_ext. intros i j Hi Hj. unfold Z1.
    rewrite get_mask_assign by assumption.
    assert (Hm : get false mask i j =
                 negb (isfinite (get NaN band i j))
                 || is_nodata (get NaN band i j) nodata_)
      by (unfold mask; rewrite get_tabulate by assumption; reflexivity).
    rewrite Hm.
    destruct (negb (isfinite (get NaN band i j))
              || is_nodata (get NaN band i j) nodata_) eqn:E; [reflexivity|].
    exact E. }
  rewrite Emask. unfold Z1 at 1. rewrite mask_assign_twice. reflexivity.
Qed.

(** ** Post-processing never clears a cell *)

Lemma closing_extensive (a : array2 bool) (ny nx : nat) :
  has_shape a ny nx = true -> mask_sub a (closing a).
Proof.
  intros Ha i j H.
  destruct (Nat.lt_ge_cases i ny) as [Hi|Hi];
    [destruct (Nat.lt_ge_cases j nx) as [Hj|Hj]|].
  - destruct (has_shape_dims a ny nx i Ha Hi) as [Ely Elx].
    apply closing_true; rewrite ?Ely, ?Elx; try assumption.
    intros i' j' Hi' Hj' Ni Nj. exists i, j.
    split; [exact Hi|]. split; [exact Hj|].
    split; [apply near_sym; exact Ni|]. split; [apply near_sym; exact Nj | exact H].
  - rewrite (get_outside a ny nx i j false Ha) in H by lia. discriminate.
  - rewrite (get_outside a ny nx i j false Ha) in H by lia. discriminate.
Qed.

Lemma padv_inner (a : array2 bool) (ny nx i j : nat) :
  (i < ny)%nat -> (j < nx)%nat -> padv a ny nx (S i) (S j) = get false a i j.
Proof.
  intros Hi Hj. simpl.
  apply Nat.ltb_lt in Hi. apply Nat.ltb_lt in Hj. rewrite Hi, Hj. reflexivity.
Qed.

Lemma dilate_extensive (a : array2 bool) (ny nx k : nat) :
  has_shape a ny nx = true -> mask_sub a (_binary_dilate a k).
Proof.
  intros Ha i j H.
  assert (Hin : (i < ny)%nat /\ (j < nx)%nat).
  { destruct (Nat.lt_ge_cases i ny) as [Hi|Hi];
      [destruct (Nat.lt_ge_cases j nx) as [Hj|Hj]|]; [tauto | |];
      rewrite (get_outside a ny nx i j false Ha) in H by lia; discriminate. }
  destruct Hin as [Hi Hj].
  destruct (has_shape_dims a ny nx i Ha Hi) as [Ely Elx].
  destruct (Nat.eq_dec k 2) as [->|Hk].
  - rewrite get_dilate2 by (rewrite ?Ely, ?Elx; assumption).
    rewrite Ely, Elx. change (1 + i)%nat with (S i). change (1 + j)%nat with (S j).
    rewrite (padv_inner a ny nx i j Hi Hj), H. apply orb_true_r.
  - rewrite (dilate_other_kernel a k Hk).
    apply dilate3_true; rewrite ?Ely, ?Elx; try assumption.
    exists i, j. split; [exact Hi|]. split; [exact Hj|].
    split; [apply near_refl|]. split; [apply near_refl | exact H].
Qed.

Lemma mask_sub_trans (a b c : array2 bool) :
  mask_sub a b -> mask_sub b c -> mask_sub a c.
Proof. intros H1 H2 i j H. apply H2, H1, H. Qed.

Lemma close_and_dilate_sub (mask_bool : array2 bool) (ny nx : nat)
    (extra_dilate : bool) (kernel_size : nat) :
  has_shape mask_bool ny nx = true ->
  has_shape (_close_and_optionally_dilate mask_bool extra_dilate kernel_size) ny nx = true /\
  mask_sub mask_bool (_close_and_optionally_dilate mask_bool extra_dilate kernel_size).
Proof.
  intros Ha. unfold _close_and_optionally_dilate. cbv zeta.
  fold (closing mask_bool).
  pose proof (has_shape_closing_of mask_bool ny nx Ha) as Hc.
  pose proof (closing_extensive mask_bool ny nx Ha) as He.
  split.
  - destruct extra_dilate; [apply has_shape_dilate_of|]; exact Hc.
  - destruct extra_dilate; [|exact He].
    eapply mask_sub_trans; [exact He|]. apply (dilate_extensive _ ny nx). exact Hc.
Qed.

(** X11: [_close_and_optionally_dilate] keeps the shape of the mask and never
    clears a cell: every cell set in the mask is set in the result, with
    either kernel, and the extra dilation only adds cells to the closed
    mask. *)
Theorem close_and_dilate_extensive (mask_bool : array2 bool) (ny nx : nat)
    (extra_dilate : bool) (kernel_size : nat) :
  has_shape mask_bool ny nx = true ->
  has_shape (_close_and_optionally_dilate mask_bool extra_dilate kernel_size) ny nx = true /\
  mask_sub mask_bool (_close_and_optionally_dilate mask_bool extra_dilate kernel_size) /\
  mask_sub (_close_and_optionally_dilate mask_bool false kernel_size)
           (_close_and_optionally_dilate mask_bool true kernel_size).
Proof.
  intros Ha.
  destruct (close_and_dilate_sub mask_bool ny nx extra_dilate kernel_size Ha) as [A B].
  split; [exact A|]. split; [exact B|].
  unfold _close_and_optionally_dilate. cbv zeta. fold (closing mask_bool).
  apply (dilate_extensive _ ny nx). apply has_shape_closing_of. exact Ha.
Qed.

Lemma close_and_dilate_extensive_witness :
  has_shape (_close_and_optionally_dilate [[true; false]; [false; false]] true 2) 2 2 = true /\
  mask_sub [[true; false]; [false; false]]
           (_close_and_optionally_dilate [[true; false]; [false; false]] true 2) /\
  mask_sub (_close_and_optionally_dilate [[true; false]; [false; false]] false 2)
           (_close_and_optionally_dilate [[true; false]; [false; false]] true 2).
Proof.
  apply (close_and_dilate_extensive [[true; false]; [false; false]] 2 2 true 2).
  reflexivity.
Defined.

(** X12: the 2x2 kernel of the fat shadows gives a part of what the 3x3
    kernel gives, and any kernel size other than 2 is the 3x3 kernel. *)
Theorem fat_kernel_2_within_3 (mask_bool : array2 bool) (ny nx k : nat) :
  has_shape mask_bool ny nx = true ->
  mask_sub (_close_and_optionally_dilate mask_bool true 2)
           (_close_and_optionally_dilate mask_bool true 3) /\
  (k <> 2%nat ->
   _close_and_optionally_dilate mask_bool true k =
   _close_and_optionally_dilate mask_bool true 3).
Proof.
  intros Ha. unfold _close_and_optionally_dilate. cbv zeta. fold (closing mask_bool).
  pose proof (has_shape_closing_of mask_bool ny nx Ha) as Hc.
  set (a := closing mask_bool) in *. split.
  - intros i j H.
    pose proof (has_shape_dilate_of a ny nx 2 Hc) as H2.
    assert (Hin : (i < ny)%nat /\ (j < nx)%nat).
    { destruct (Nat.lt_ge_cases i ny) as [Hi|Hi];
        [destruct (Nat.lt_ge_cases j nx) as [Hj|Hj]|]; [tauto | |];
        rewrite (get_outside _ ny nx i j false H2) in H by lia; discriminate. }
    destruct Hin as [Hi Hj].
    destruct (has_shape_dims a ny nx i Hc Hi) as [Ely Elx].
    rewrite get_dilate2 in H by (rewrite ?Ely, ?Elx; assumption).
    rewrite get_dilate3 by (rewrite ?Ely, ?Elx; assumption).
    cbv zeta in *. rewrite Ely, Elx in *.
    repeat (apply orb_true_iff in H; destruct H as [H|H]);
      rewrite H; repeat rewrite orb_true_r; reflexivity.
  - intros Hk. apply dilate_other_kernel. exact Hk.
Qed.

Lemma fat_kernel_2_within_3_witness :
  mask_sub (_close_and_optionally_dilate [[false; false]; [false; true]] true 2)
           (_close_and_optionally_dilate [[false; false]; [false; true]] true 3) /\
  (5%nat <> 2%nat ->
   _close_and_optionally_dilate [[false; false]; [false; true]] true 5 =
   _close_and_optionally_dilate [[false; false]; [false; true]] true 3).
Proof.
  apply (fat_kernel_2_within_3 [[false; false]; [false; true]] 2 2 5). reflexivity.
Defined.

(** ** The strip width of a raster with cells of ordinary size *)

Lemma strip_w_floor (a b w : Q) : strip_w a b = Finite w -> dir_eps <= w.
Proof.
  unfold strip_w, width_floor. destruct (width_min _ _) as [x|]; [|discriminate].
  intros H. inversion H; subst. apply py_max_ge_l.
Qed.

Lemma strip_w_finite_l (a b : Q) : 0 < Qabs a -> exists w, strip_w a b = Finite w.
Proof.
  intros H. unfold strip_w, step_or_inf. apply Qltb_lt in H. rewrite H.
  destruct (Qltb 0 (Qabs b)); eexists; reflexivity.
Qed.

Lemma strip_w_finite_r (a b : Q) : 0 < Qabs b -> exists w, strip_w a b = Finite w.
Proof.
  intros H. unfold strip_w, step_or_inf. apply Qltb_lt in H. rewrite H.
  destruct (Qltb 0 (Qabs a)); eexists; reflexivity.
Qed.

Lemma snap_keeps (x : Q) : dir_eps <= Qabs x -> snap x = x.
Proof. intros H. unfold snap. apply Qltb_ge in H. rewrite H. reflexivity. Qed.

Lemma Qabs_half (x : Q) : 1 # 4 <= x * x -> 1 # 2 <= Qabs x.
Proof.
  intros H. apply Qabs_case; intros Hx.
  - destruct (Qlt_le_dec x (1 # 2)) as [Hlt|Hge]; [|exact Hge]. exfalso. nra.
  - destruct (Qlt_le_dec (- x) (1 # 2)) as [Hlt|Hge]; [|exact Hge]. exfalso. nra.
Qed.

(** X14: for a raster with cells of at least 2e-9 m in both directions and
    a light direction that is a unit vector up to rounding
    ([cos^2 + sin^2 >= 1/2]), the strip width is a finite number of at least
    1e-9: the division by [strip_w] is defined and the width is never
    [float("inf")]. *)
Theorem strip_width_is_finite (m : libm) (g : geotransform) (az : Q) :
  let c := cos m (azr m az) in
  let s := sin m (azr m az) in
  1 # 2 <= c * c + s * s ->
  2 * dir_eps <= cellx g ->
  2 * dir_eps <= celly g ->
  exists w, strip_w (dS_col m g az) (dS_row m g az) = Finite w /\ dir_eps <= w.
Proof.
  intros c s Hunit Hx Hy.
  assert (Hex : exists w, strip_w (dS_col m g az) (dS_row m g az) = Finite w).
  { pose proof dir_eps_pos as He.
    destruct (Qlt_le_dec (s * s) (1 # 4)) as [Hs|Hs].
    - assert (Hc : 1 # 2 <= Qabs c) by (apply Qabs_half; lra).
      assert (Hd : dir_eps <= Qabs (vx_row_x * upx m az + vx_row_y g * upy m az)).
      { unfold vx_row_x, vx_row_y, upx, upy, ux, uy. fold c. fold s.
        setoid_replace (0 * - - s + - celly g * - c) with (celly g * c) by ring.
        rewrite Qabs_Qmult. rewrite (Qabs_pos (celly g)) by lra. nra. }
      apply strip_w_finite_r. unfold dS_row. rewrite (snap_keeps _ Hd). lra.
    - assert (Hs' : 1 # 2 <= Qabs s) by (apply Qabs_half; exact Hs).
      assert (Hd : dir_eps <= Qabs (vx_col_x g * upx m az + vx_col_y * upy m az)).
      { unfold vx_col_x, vx_col_y, upx, upy, ux, uy. fold c. fold s.
        setoid_replace (cellx g * - - s + 0 * - c) with (cellx g * s) by ring.
        rewrite Qabs_Qmult. rewrite (Qabs_pos (cellx g)) by lra. nra. }
      apply strip_w_finite_l. unfold dS_col. rewrite (snap_keeps _ Hd). lra. }
  destruct Hex as [w Hw]. exists w. split; [exact Hw|].
  apply (strip_w_floor _ _ _ Hw).
Qed.

Lemma strip_width_is_finite_witness :
  exists w, strip_w (dS_col py_libm (gt flat_dem) 270) (dS_row py_libm (gt flat_dem) 270)
            = Finite w /\ dir_eps <= w.
Proof.
  apply (strip_width_is_finite py_libm (gt flat_dem) 270); vm_compute; discriminate.
Defined.

(** ** The 1-D closing as an operation on a row of flags *)

Lemma gap_rule_flags_le (gm : nat) (l : list bool) :
  forall left b, flags_le l (gap_rule gm left b l).
Proof.
  induction l as [|[] r IH]; intros left b; simpl; constructor;
    try apply IH; try reflexivity. discriminate.
Qed.

Lemma last_cons_more {A : Type} (x d : A) (l : list A) :
  l <> [] -> last (x :: l) d = last l d.
Proof. destruct l; [congruence | reflexivity]. Qed.

Lemma gap_rule_last (gm : nat) (l : list bool) :
  forall left b, last (gap_rule gm left b l) false = last l false.
Proof.
  induction l as [|x r IH]; intros left b; [reflexivity|].
  destruct r as [|y r'].
  - destruct x; simpl; [reflexivity|]. rewrite andb_false_r. reflexivity.
  - assert (Hne : forall left' b', gap_rule gm left' b' (y :: r') <> []).
    { intros left' b' E. apply (f_equal (@length bool)) in E.
      rewrite length_gap_rule in E. discriminate. }
    remember (y :: r') as r2 eqn:Er2.
    assert (Hr2 : r2 <> []) by (subst r2; discriminate).
    destruct x; cbn [gap_rule];
      rewrite !last_cons_more by (first [apply Hne | exact Hr2]); apply IH.
Qed.

Lemma gap_rule_hd (gm : nat) (l : list bool) (b : nat) :
  hd false (gap_rule gm false b l) = hd false l.
Proof. destruct l as [|[] r]; reflexivity. Qed.

(** X15: the 1-D closing of a strip keeps the number of flags, never clears
    a flag, and leaves the first and the last flag as they are. *)
Theorem ray_gap_fill_extensive (gap_max : nat) (vals : list bool) :
  length (ray_gap_fill gap_max vals) = length vals /\
  flags_le vals (ray_gap_fill gap_max vals) /\
  hd false (ray_gap_fill gap_max vals) = hd false vals /\
  last (ray_gap_fill gap_max vals) false = last vals false.
Proof.
  rewrite ray_gap_fill_rule. split; [|split; [|split]].
  - apply length_gap_rule.
  - apply gap_rule_flags_le.
  - apply gap_rule_hd.
  - apply gap_rule_last.
Qed.

Lemma gap_rule_trues (gm : nat) (g : nat) (l : list bool) :
  forall left b,
    gap_rule gm left b (repeat true g ++ true :: l) =
    repeat true g ++ true :: gap_rule gm true 0 l.
Proof.
  induction g as [|g IH]; intros left b; [reflexivity|].
  cbn [repeat app gap_rule]. rewrite IH. reflexivity.
Qed.

Lemma gap_rule_idempotent (gm n : nat) :
  forall l, (length l <= n)%nat -> forall left b,
    gap_rule gm left b (gap_rule gm left b l) = gap_rule gm left b l.
Proof.
  induction n as [|n IH]; intros l Hl left b.
  - destruct l; [reflexivity | simpl in Hl; lia].
  - destruct l as [|x r]; [reflexivity|]. destruct x.
    + cbn [gap_rule]. rewrite IH by (simpl in Hl; lia). reflexivity.
    + destruct (falses_ahead_split (false :: r)) as [Hsplit Hafter].
      set (g := falses_ahead (false :: r)) in *.
      set (after := skipn g (false :: r)) in *.
      assert (Hg : (1 <= g)%nat) by (unfold g; simpl; lia).
      assert (Hlen : length (false :: r) = (g + length after)%nat).
      { rewrite Hsplit at 1. rewrite length_app, repeat_length. reflexivity. }
      rewrite Hsplit. destruct Hafter as [Ea | [r' Ea]]; rewrite Ea.
      * assert (E0 : gap_rule gm left b (repeat false g ++ []) = repeat false g ++ []).
        { rewrite (gap_rule_run gm left g b [] (or_introl eq_refl)).
          simpl. rewrite andb_false_r. reflexivity. }
        rewrite !E0. reflexivity.
      * assert (Hr' : (length r' <= n)%nat).
        { rewrite Ea in Hlen. simpl in Hlen, Hl. lia. }
        rewrite (gap_rule_run gm left g b (true :: r'))
          by (right; eexists; reflexivity).
        cbn [closed_ahead gap_rule]. rewrite andb_true_r.
        destruct (left && (b + g <=? gm)%nat) eqn:EF.
        -- rewrite gap_rule_trues, IH by exact Hr'. reflexivity.
        -- rewrite (gap_rule_run gm left g b (true :: gap_rule gm true 0 r'))
             by (right; eexists; reflexivity).
           cbn [closed_ahead gap_rule]. rewrite andb_true_r, EF.
           rewrite IH by exact Hr'. reflexivity.
Qed.

(** X16: the 1-D closing is idempotent: a second pass over a strip fills
    nothing more. *)
Theorem ray_gap_fill_idempotent (gap_max : nat) (vals : list bool) :
  ray_gap_fill gap_max (ray_gap_fill gap_max vals) = ray_gap_fill gap_max vals.
Proof.
  rewrite !ray_gap_fill_rule. apply (gap_rule_idempotent gap_max (length vals)). lia.
Qed.

Lemma closed_ahead_app_true (p rest : list bool) :
  closed_ahead (p ++ true :: rest) = closed_ahead (p ++ [true]).
Proof. induction p as [|[] p IH]; simpl; auto. Qed.

Lemma falses_ahead_app_true (p rest : list bool) :
  falses_ahead (p ++ true :: rest) = falses_ahead (p ++ [true]).
Proof. induction p as [|[] p IH]; simpl; auto. Qed.

Lemma gap_rule_app_true (gm : nat) (p rest : list bool) :
  forall left b,
    gap_rule gm left b ((p ++ [true]) ++ rest) =
    gap_rule gm left b (p ++ [true]) ++ gap_rule gm true 0 rest.
Proof.
  induction p as [|x p IH]; intros left b; [reflexivity|].
  destruct x; cbn [app gap_rule].
  - rewrite IH. reflexivity.
  - rewrite IH. rewrite <- app_assoc. cbn [app].
    rewrite closed_ahead_app_true, falses_ahead_app_true. reflexivity.
Qed.

Lemma last_true_snoc (pre : list bool) :
  pre <> [] -> last pre true = true -> exists p, pre = p ++ [true].
Proof.
  intros Hne H. destruct (exists_last Hne) as [p [x E]]. subst pre.
  rewrite last_last in H. subst x. exists p. reflexivity.
Qed.

(** X17: what the 1-D closing does with a maximal run of lit cells: the run
    is filled exactly when it has a shadowed cell on either side and at most
    [gap_max] cells; the flags before and after it are treated as rows of
    their own. *)
Theorem ray_gap_fill_run (gap_max g : nat) (pre post : list bool) :
  last pre true = true ->
  hd true post = true ->
  let filled :=
    negb (length pre =? 0)%nat && negb (length post =? 0)%nat && (g <=? gap_max)%nat in
  ray_gap_fill gap_max (pre ++ repeat false g ++ post) =
  ray_gap_fill gap_max pre ++ repeat filled g ++ ray_gap_fill gap_max post.
Proof.
  intros Hpre Hpost filled. rewrite !ray_gap_fill_rule.
  assert (Hafter : post = [] \/ exists r, post = true :: r).
  { destruct post as [|x r]; [left; reflexivity|]. simpl in Hpost. subst x.
    right. exists r. reflexivity. }
  assert (Hrest : forall left,
            gap_rule gap_max left 0 (repeat false g ++ post) =
            repeat (left && negb (length post =? 0)%nat && (g <=? gap_max)%nat) g
            ++ gap_rule gap_max false 0 post).
  { intros left. rewrite (gap_rule_run gap_max left g 0 post Hafter). simpl Nat.add.
    destruct Hafter as [-> | [r ->]]; [|reflexivity].
    simpl. rewrite !andb_false_r. reflexivity. }
  destruct pre as [|x pre'] eqn:Epre.
  - subst filled. simpl. rewrite (Hrest false). reflexivity.
  - destruct (last_true_snoc (x :: pre')) as [p Ep]; [discriminate | exact Hpre |].
    rewrite Ep. rewrite gap_rule_app_true, (Hrest true).
    subst filled. rewrite <- Ep. reflexivity.
Qed.

Lemma ray_gap_fill_run_witness :
  ray_gap_fill 3 ([false; true] ++ repeat false 2 ++ [true; false; false; false; false; true]) =
  ray_gap_fill 3 [false; true] ++ repeat true 2
  ++ ray_gap_fill 3 [true; false; false; false; false; true].
Proof.
  apply (ray_gap_fill_run 3 2 [false; true] [true; false; false; false; false; true]);
    reflexivity.
Defined.

Lemma gap_rule_zero (l : list bool) :
  forall left b, gap_rule 0 left b l = l.
Proof.
  induction l as [|[] r IH]; intros left b; cbn [gap_rule]; [reflexivity | |].
  - rewrite IH. reflexivity.
  - rewrite IH.
    replace (b + 1 + falses_ahead r <=? 0)%nat with false
      by (symmetry; apply Nat.leb_gt; lia).
    rewrite andb_false_r. reflexivity.
Qed.

(** X18: the two guards of the 1-D closing only save work: with
    [gap_max = 0], or with fewer than three cells in the strip, the closing
    would change nothing. *)
Theorem ray_gap_fill_guards (gap_max : nat) (vals : list bool) :
  gap_max = 0%nat \/ (length vals < 3)%nat ->
  ray_gap_fill gap_max vals = vals.
Proof.
  intros [-> | H]; rewrite ray_gap_fill_rule.
  - apply gap_rule_zero.
  - destruct vals as [|x [|y [|z r]]]; [reflexivity | | | simpl in H; lia].
    + destruct x; reflexivity.
    + destruct x, y; reflexivity.
Qed.

Lemma ray_gap_fill_guards_witness :
  ray_gap_fill 3 [true; false] = [true; false].
Proof.
  apply (ray_gap_fill_guards 3 [true; false]). right. simpl. lia.
Defined.

(** ** The strip loop only adds shadow, and only to the cells of the strips *)

Lemma sweep_extensive (hgt : array2 npfloat) (tan_a eps_m maxd L0 : Q)
    (cells : list cell) :
  forall horizon shadow,
    mask_sub shadow (horizon_sweep hgt tan_a eps_m maxd L0 cells horizon shadow).
Proof.
  induction cells as [|[[Lk i] j] rest IH]; intros horizon shadow; [intros ? ? H; exact H|].
  cbn [horizon_sweep]. destruct (get NaN hgt i j) as [z|].
  - set (sh' := if Qltb (z + tan_a * (Lk - L0) - eps_m) horizon
                then set shadow i j true else shadow).
    assert (Hs : mask_sub shadow sh').
    { unfold sh'. destruct (Qltb _ horizon); [apply set_true_mask_sub|].
      intros ? ? H; exact H. }
    cbv zeta. fold sh'. destruct (Qltb 0 maxd && Qltb maxd (Lk - L0)); [exact Hs|].
    eapply mask_sub_trans; [exact Hs | apply IH].
  - destruct (Qltb 0 maxd && Qltb maxd (Lk - L0)); [intros ? ? H; exact H | apply IH].
Qed.

Lemma get_set_other {A : Type} (a : array2 A) (i j i' j' : nat) (v d : A) :
  ~ (i = i' /\ j = j') -> get d (set a i j v) i' j' = get d a i' j'.
Proof.
  intros H. rewrite get_set.
  destruct (i =? i')%nat eqn:Ei; [|reflexivity].
  destruct (j =? j')%nat eqn:Ej; [|reflexivity].
  apply Nat.eqb_eq in Ei. apply Nat.eqb_eq in Ej. exfalso. apply H. split; assumption.
Qed.

Lemma sweep_untouched (hgt : array2 npfloat) (tan_a eps_m maxd L0 : Q)
    (cells : list cell) (i j : nat) :
  (forall c, In c cells -> ~ (crow c = i /\ ccol c = j)) ->
  forall horizon shadow,
    get false (horizon_sweep hgt tan_a eps_m maxd L0 cells horizon shadow) i j =
    get false shadow i j.
Proof.
  induction cells as [|[[Lk i0] j0] rest IH]; intros Hc horizon shadow; [reflexivity|].
  assert (H0 : ~ (i0 = i /\ j0 = j)) by (apply (Hc (Lk, i0, j0)); left; reflexivity).
  assert (Hrest : forall c, In c rest -> ~ (crow c = i /\ ccol c = j))
    by (intros c Hin; apply Hc; right; exact Hin).
  cbn [horizon_sweep]. destruct (get NaN hgt i0 j0) as [z|].
  - cbv zeta.
    assert (Hs : get false (if Qltb (z + tan_a * (Lk - L0) - eps_m) horizon
                            then set shadow i0 j0 true else shadow) i j =
                 get false shadow i j).
    { destruct (Qltb _ horizon); [apply get_set_other; exact H0 | reflexivity]. }
    destruct (Qltb 0 maxd && Qltb maxd (Lk - L0)); [exact Hs|].
    rewrite IH by exact Hrest. exact Hs.
  - destruct (Qltb 0 maxd && Qltb maxd (Lk - L0)); [reflexivity | apply IH; exact Hrest].
Qed.

Lemma write_back_extensive (sh0 : array2 bool) (vals : list bool) (cells : list cell) :
  Forall2 (fun v c => get false sh0 (crow c) (ccol c) = true -> v = true) vals cells ->
  forall cur, mask_sub sh0 cur -> mask_sub sh0 (write_back vals cells cur).
Proof.
  unfold write_back. induction 1 as [|v c vals cells Hv Hrest IH]; intros cur Hcur;
    [exact Hcur|].
  cbn [combine fold_left fst snd]. apply IH.
  intros i j H. rewrite get_set.
  destruct ((snd (fst c) =? i)%nat && (snd c =? j)%nat
            && (snd (fst c) <? length cur)%nat
            && (snd c <? length (nth (snd (fst c)) cur []))%nat) eqn:E.
  - apply andb_true_iff in E. destruct E as [E _].
    apply andb_true_iff in E. destruct E as [E _].
    apply andb_true_iff in E. destruct E as [Ei Ej].
    apply Nat.eqb_eq in Ei. apply Nat.eqb_eq in Ej.
    apply Hv. unfold crow, ccol. rewrite Ei, Ej. exact H.
  - apply Hcur. exact H.
Qed.

Lemma write_back_untouched (vals : list bool) (cells : list cell) (i j : nat) :
  (forall c, In c cells -> ~ (crow c = i /\ ccol c = j)) ->
  forall cur, get false (write_back vals cells cur) i j = get false cur i j.
Proof.
  unfold write_back. revert vals.
  induction cells as [|c cells IH]; intros vals Hc cur.
  - destruct vals; reflexivity.
  - destruct vals as [|v vals]; [reflexivity|].
    cbn [combine fold_left fst snd]. rewrite IH.
    + apply get_set_other. apply (Hc c). left. reflexivity.
    + intros c' Hin. apply Hc. right. exact Hin.
Qed.

Lemma vals_of_cells (sh : array2 bool) (cells : list cell) :
  Forall2 (fun (v : bool) (c : cell) => get false sh (crow c) (ccol c) = true -> v = true)
          (map (fun c : cell => get false sh (snd (fst c)) (snd c)) cells) cells.
Proof.
  induction cells as [|c r IH]; constructor; [|exact IH]. intros H. exact H.
Qed.

Lemma flags_le_written (sh : array2 bool) (vals vals' : list bool) :
  flags_le vals vals' ->
  forall cells,
    Forall2 (fun (v : bool) (c : cell) => get false sh (crow c) (ccol c) = true -> v = true)
            vals cells ->
    Forall2 (fun (v : bool) (c : cell) => get false sh (crow c) (ccol c) = true -> v = true)
            vals' cells.
Proof.
  unfold flags_le. induction 1 as [|v v' l l' Hvv Hll IH]; intros cells Hv;
    inversion Hv; subst; constructor.
  - intros H. apply Hvv. auto.
  - apply IH. assumption.
Qed.

Lemma scan_strip_extensive (hgt : array2 npfloat) (tan_a eps_m maxd : Q)
    (gap_max : nat) (shadow : array2 bool) (cells_i : list cell) :
  mask_sub shadow (scan_strip hgt tan_a eps_m maxd gap_max shadow cells_i).
Proof.
  unfold scan_strip. destruct cells_i as [|c0 rest]; [intros ? ? H; exact H|].
  cbv zeta.
  generalize (sort_cells (c0 :: rest)). intros cells.
  set (sh1 := horizon_sweep hgt tan_a eps_m maxd _ cells minus_1e38 shadow).
  assert (H1 : mask_sub shadow sh1) by apply sweep_extensive.
  clearbody sh1.
  destruct (0 <? gap_max)%nat; [|exact H1].
  match goal with |- context [(3 <=? ?n)%nat] => destruct (3 <=? n)%nat end;
    [|exact H1].
  eapply mask_sub_trans; [exact H1|].
  apply write_back_extensive; [|intros ? ? H; exact H].
  rewrite ray_gap_fill_rule.
  eapply flags_le_written; [apply gap_rule_flags_le | apply vals_of_cells].
Qed.

Lemma scan_strip_untouched (hgt : array2 npfloat) (tan_a eps_m maxd : Q)
    (gap_max : nat) (shadow : array2 bool) (cells_i : list cell) (i j : nat) :
  (forall c, In c cells_i -> ~ (crow c = i /\ ccol c = j)) ->
  get false (scan_strip hgt tan_a eps_m maxd gap_max shadow cells_i) i j =
  get false shadow i j.
Proof.
  intros Hc. unfold scan_strip. destruct cells_i as [|c0 rest]; [reflexivity|].
  cbv zeta.
  assert (Hs : forall c, In c (sort_cells (c0 :: rest)) -> ~ (crow c = i /\ ccol c = j)).
  { intros c Hin. apply Hc. apply (proj1 (sort_cells_in _ _)). exact Hin. }
  destruct (0 <? gap_max)%nat; [|apply sweep_untouched; exact Hs].
  match goal with |- context [(3 <=? ?n)%nat] => destruct (3 <=? n)%nat end;
    [|apply sweep_untouched; exact Hs].
  rewrite write_back_untouched by exact Hs. apply sweep_untouched. exact Hs.
Qed.

Lemma scan_strips_extensive (hgt : array2 npfloat) (tan_a eps_m maxd : Q)
    (gap_max : nat) (strips : list (list cell)) :
  forall shadow, mask_sub shadow (scan_strips hgt tan_a eps_m maxd gap_max strips shadow).
Proof.
  unfold scan_strips. induction strips as [|s rest IH]; intros shadow;
    [intros ? ? H; exact H|].
  cbn [fold_left]. eapply mask_sub_trans; [apply scan_strip_extensive | apply IH].
Qed.

Lemma scan_strips_untouched (hgt : array2 npfloat) (tan_a eps_m maxd : Q)
    (gap_max : nat) (strips : list (list cell)) (i j : nat) :
  (forall cells_i c, In cells_i strips -> In c cells_i -> ~ (crow c = i /\ ccol c = j)) ->
  forall shadow,
    get false (scan_strips hgt tan_a eps_m maxd gap_max strips shadow) i j =
    get false shadow i j.
Proof.
  unfold scan_strips. induction strips as [|s rest IH]; intros Hc shadow; [reflexivity|].
  cbn [fold_left]. rewrite IH.
  - apply scan_strip_untouched. intros c Hin. apply (Hc s); [left; reflexivity | exact Hin].
  - intros cells_i c Hs Hin. apply (Hc cells_i); [right; exact Hs | exact Hin].
Qed.

(** X19: the strip loop only accumulates shadow: a cell that is set stays
    set through every later strip (a cell shared by two strips is shadowed as
    soon as one of them shadows it), and a cell that belongs to no strip is
    never written. *)
Theorem scan_strips_accumulate (hgt : array2 npfloat) (tan_a eps_m maxd : Q)
    (gap_max : nat) (strips : list (list cell)) (shadow : array2 bool) :
  mask_sub shadow (scan_strips hgt tan_a eps_m maxd gap_max strips shadow) /\
  (forall i j,
     (forall cells_i c, In cells_i strips -> In c cells_i ->
                        ~ (crow c = i /\ ccol c = j)) ->
     get false (scan_strips hgt tan_a eps_m maxd gap_max strips shadow) i j =
     get false shadow i j).
Proof.
  split; [apply scan_strips_extensive|].
  intros i j H. apply scan_strips_untouched. exact H.
Qed.

Lemma raw_nodata (m : libm) (self : tool) (dem : dem_info) (az alt maxd : Q) (i j : nat) :
  get false (mask_nd dem) i j = true ->
  get false (scan_strips (dem_Z dem) (tan_alt m alt) (eps_of self (gt dem)) maxd
               (gap_max_of self) (strips_of m dem az) (zeros (ny dem) (nx dem))) i j = false.
Proof.
  intros Hnd. rewrite scan_strips_untouched; [apply get_zeros|].
  intros cells_i c Hs Hin [Hi Hj].
  destruct (strips_of_cells m dem az cells_i c Hs Hin) as [_ [_ [H _]]].
  rewrite Hi, Hj, Hnd in H. discriminate.
Qed.

Lemma masked_is_raw (m : libm) (self : tool) (dem : dem_info) (az alt : Q)
    (octants : Z) (maxd edge_bias_px : Q) (const_val : option Q)
    (fat_shadow : bool) (fat_kernel : nat) :
  let r := _compute_shadow_octant m self dem az alt octants maxd edge_bias_px
             const_val fat_shadow fat_kernel in
  r_masked r = r_raw r.
Proof.
  cbv zeta. unfold _compute_shadow_octant. cbn [r_masked r_raw].
  apply (array2_ext _ _ (ny dem) (nx dem) false).
  - apply has_shape_tabulate.
  - apply has_shape_raw.
  - intros i j Hi Hj. rewrite get_mask_assign by assumption.
    destruct (get false (mask_nd dem) i j) eqn:E; [|reflexivity].
    symmetry. apply raw_nodata. exact E.
Qed.

(** X20: the statement [shadow[mask_nd] = False] of line 605 never changes
    the mask: the strip loop leaves every no-data cell unset. *)
Theorem masking_after_strips_is_idle (m : libm) (self : tool) (dem : dem_info)
    (az alt : Q) (octants : Z) (maxd edge_bias_px : Q) (const_val : option Q)
    (fat_shadow : bool) (fat_kernel : nat) :
  let r := _compute_shadow_octant m self dem az alt octants maxd edge_bias_px
             const_val fat_shadow fat_kernel in
  r_masked r = r_raw r /\
  (forall i j, get false (mask_nd dem) i j = true -> get false (r_raw r) i j = false).
Proof.
  cbv zeta. split; [apply masked_is_raw|].
  intros i j H. unfold _compute_shadow_octant. cbn [r_raw]. apply raw_nodata. exact H.
Qed.

(** X21: the internal scan always gets its mask written (the shape test of
    the writer cannot fail), the mask it hands over is
    [_close_and_optionally_dilate] of the mask of the strip loop, and no cell
    marked by the strip loop is lost on the way: it is shadowed in the mask
    the writer keeps and holds the constant in the raster (5 for a positive
    height under the class-5 rule). *)
Theorem marked_cells_are_written (m : libm) (self : tool) (dem : dem_info)
    (az alt : Q) (octants : Z) (maxd edge_bias_px : Q) (const_val : option Q)
    (fat_shadow : bool) (fat_kernel : nat) :
  let r := _compute_shadow_octant m self dem az alt octants maxd edge_bias_px
             const_val fat_shadow fat_kernel in
  let c := match const_val with Some v => v | None => 1 end in
  r_handed r = _close_and_optionally_dilate (r_raw r) fat_shadow fat_kernel /\
  exists w, r_written r = Some w /\
    forall i j, get false (r_raw r) i j = true ->
      get false (w_shadow w) i j = true /\
      get 0 (w_out w) i j =
        if Qltb (Qabs (c - 5)) (1 # 1000000) && gt0 (get NaN (dem_Z dem) i j)
        then 5 else c.
Proof.
  intros r c.
  pose proof (masked_is_raw m self dem az alt octants maxd edge_bias_px const_val
                fat_shadow fat_kernel) as Hm. cbv zeta in Hm. fold r in Hm.
  assert (Hshape : has_shape (r_raw r) (ny dem) (nx dem) = true)
    by (unfold r, _compute_shadow_octant; cbn [r_raw]; apply has_shape_raw).
  assert (Hh : r_handed r = _close_and_optionally_dilate (r_raw r) fat_shadow fat_kernel).
  { rewrite <- Hm. reflexivity. }
  split; [exact Hh|].
  pose proof (has_shape_handed m self dem az alt octants maxd edge_bias_px const_val
                fat_shadow fat_kernel) as Hhs. fold r in Hhs.
  destruct (write_shadow_mask_kept dem (r_handed r) const_val Hhs) as [w [Ew _]].
  exists w. split; [exact Ew|].
  intros i j Hraw.
  assert (Hin : (i < ny dem)%nat /\ (j < nx dem)%nat).
  { destruct (Nat.lt_ge_cases i (ny dem)) as [Hi|Hi];
      [destruct (Nat.lt_ge_cases j (nx dem)) as [Hj|Hj]|]; [tauto | |];
      rewrite (get_outside _ _ _ i j false Hshape) in Hraw by lia; discriminate. }
  destruct Hin as [Hi Hj].
  assert (Hnd : get false (mask_nd dem) i j = false).
  { destruct (get false (mask_nd dem) i j) eqn:E; [|reflexivity].
    unfold r, _compute_shadow_octant in Hraw. cbn [r_raw] in Hraw.
    rewrite raw_nodata in Hraw by exact E. discriminate. }
  assert (Hhand : get false (r_handed r) i j = true).
  { rewrite Hh.
    destruct (close_and_dilate_sub (r_raw r) (ny dem) (nx dem) fat_shadow fat_kernel Hshape)
      as [_ Hsub].
    apply Hsub. exact Hraw. }
  destruct (write_shadow_mask_cells dem (r_handed r) const_val i j Hhs Hi Hj)
    as [w' [Ew' [Hws Hwo]]].
  change (r_written r) with (_write_shadow_mask dem (r_handed r) const_val) in Ew.
  rewrite Ew in Ew'. injection Ew' as <-.
  split.
  - rewrite Hws, Hnd. exact Hhand.
  - rewrite Hwo. cbv zeta. rewrite Hnd, Hhand. fold c.
    destruct (get NaN (dem_Z dem) i j) as [q|]; cbn [isfinite gt0].
    + rewrite andb_true_r. reflexivity.
    + rewrite !andb_false_r. reflexivity.
Qed.

(** ** The cells of a strip are distinct *)

Lemma NoDup_map_flat_map {A B C : Type} (g : B -> C) (f : A -> list B) (l : list A) :
  NoDup l ->
  (forall x, In x l -> NoDup (map g (f x))) ->
  (forall x y b b', In x l -> In y l -> In b (f x) -> In b' (f y) -> g b = g b' -> x = y) ->
  NoDup (map g (flat_map f l)).
Proof.
  induction l as [|x r IH]; intros Hl Hf Hg; [constructor|].
  cbn [flat_map]. rewrite map_app. inversion Hl as [|? ? Hx Hr]; subst.
  apply NoDup_app.
  - apply Hf. left. reflexivity.
  - apply IH; [exact Hr | |].
    + intros y Hy. apply Hf. right. exact Hy.
    + intros y z b b' Hy Hz. apply Hg; right; assumption.
  - intros c Hc Hc'. apply in_map_iff in Hc. apply in_map_iff in Hc'.
    destruct Hc as [b [Eb Hb]]. destruct Hc' as [b' [Eb' Hb']].
    apply in_flat_map in Hb'. destruct Hb' as [y [Hy Hb']].
    assert (x = y).
    { apply (Hg x y b b'); [left; reflexivity | right; exact Hy | exact Hb | exact Hb' |].
      congruence. }
    subst y. contradiction.
Qed.

Lemma NoDup_zrange_nat (a b : Z) : (0 <= a)%Z -> NoDup (map Z.to_nat (zrange a b)).
Proof.
  intros Ha. unfold zrange. rewrite map_map.
  apply NoDup_map_NoDup_ForallPairs; [|apply seq_NoDup].
  intros x y _ _ H. lia.
Qed.

Lemma NoDup_j_range (dSc dSr : Q) (nx_ : nat) (s_idx : Z) (i : nat) :
  NoDup (j_range dSc dSr nx_ s_idx i).
Proof.
  unfold j_range. cbv zeta. destruct (Qltb dir_eps (Qabs dSc)).
  - apply NoDup_zrange_nat. lia.
  - destruct (beyond_half _ _ _); [constructor | apply seq_NoDup].
Qed.

Lemma NoDup_collect_cells (dLc dLr dSc dSr : Q) (nd : array2 bool) (ny_ nx_ : nat)
    (s_idx : Z) :
  NoDup (map (fun c : cell => (crow c, ccol c))
             (collect_cells dLc dLr dSc dSr nd ny_ nx_ s_idx)).
Proof.
  unfold collect_cells. cbv zeta.
  assert (Hcell : forall i j b,
            In b (if within_half (strip_w dSc dSr) s_idx (Qofnat i * dSr + Qofnat j * dSc)
                  then if negb (get false nd i j) then [(L_of dLc dLr i j, i, j)] else []
                  else []) ->
            crow b = i /\ ccol b = j).
  { intros i j b Hb. destruct (within_half _ _ _); [|destruct Hb].
    destruct (negb _); [|destruct Hb]. destruct Hb as [<- | []]. split; reflexivity. }
  apply NoDup_map_flat_map.
  - apply seq_NoDup.
  - intros i _. apply NoDup_map_flat_map.
    + apply NoDup_j_range.
    + intros j _. destruct (within_half _ _ _); [|constructor].
      destruct (negb _); [|constructor]. repeat constructor. intros [].
    + intros j j' b b' _ _ Hb Hb' E.
      destruct (Hcell _ _ _ Hb) as [_ H1]. destruct (Hcell _ _ _ Hb') as [_ H2].
      inversion E. congruence.
  - intros i i' b b' _ _ Hb Hb' E.
    apply in_flat_map in Hb. destruct Hb as [j [_ Hb]].
    apply in_flat_map in Hb'. destruct Hb' as [j' [_ Hb']].
    destruct (Hcell _ _ _ Hb) as [H1 _]. destruct (Hcell _ _ _ Hb') as [H2 _].
    inversion E. congruence.
Qed.

(** X22: the cells collected for a strip are cells of the raster, none of
    them a no-data cell, each with its own [L = i * dL_row + j * dL_col], and
    no cell is collected twice for the same strip; sorting the strip changes
    none of this. *)
Theorem strip_cells_are_distinct (m : libm) (dem : dem_info) (az : Q)
    (cells_i : list cell) :
  In cells_i (strips_of m dem az) ->
  NoDup (map (fun c : cell => (crow c, ccol c)) cells_i) /\
  NoDup (map (fun c : cell => (crow c, ccol c)) (sort_cells cells_i)) /\
  (forall c, In c cells_i ->
     (crow c < ny dem)%nat /\ (ccol c < nx dem)%nat /\
     get false (mask_nd dem) (crow c) (ccol c) = false /\
     key c = L_of (dL_col m (gt dem) az) (dL_row m (gt dem) az) (crow c) (ccol c)).
Proof.
  intros Hin.
  assert (Hnd : NoDup (map (fun c : cell => (crow c, ccol c)) cells_i)).
  { unfold strips_of in Hin. cbv zeta in Hin. apply in_map_iff in Hin.
    destruct Hin as [s [<- _]]. apply NoDup_collect_cells. }
  split; [exact Hnd|]. split.
  - eapply Permutation_NoDup; [|exact Hnd].
    apply Permutation_map. apply Permutation_sym. apply sort_cells_perm.
  - intros c Hc. apply (strips_of_cells m dem az cells_i c Hin Hc).
Qed.

Lemma strip_cells_are_distinct_witness :
  let cells_i := nth 1 (strips_of py_libm flat_dem 270) [] in
  NoDup (map (fun c : cell => (crow c, ccol c)) cells_i) /\
  NoDup (map (fun c : cell => (crow c, ccol c)) (sort_cells cells_i)) /\
  (forall c, In c cells_i ->
     (crow c < ny flat_dem)%nat /\ (ccol c < nx flat_dem)%nat /\
     get false (mask_nd flat_dem) (crow c) (ccol c) = false /\
     key c = L_of (dL_col py_libm (gt flat_dem) 270) (dL_row py_libm (gt flat_dem) 270)
                  (crow c) (ccol c)).
Proof.
  apply (strip_cells_are_distinct py_libm flat_dem 270).
  vm_compute. tauto.
Defined.

(** ** The sweep as a test against the earlier cells *)

Lemma Qltb_py_max (x a b : Q) : Qltb x (py_max a b) = Qltb x a || Qltb x b.
Proof.
  apply bool_eq_iff. rewrite orb_true_iff, !Qltb_lt. unfold py_max.
  destruct (Qltb a b) eqn:E; qbool; split; intros H; try tauto;
    try (destruct H; lra); lra.
Qed.

Lemma Qltb_fold_py_max (x : Q) (l : list Q) :
  forall a, Qltb x (fold_left py_max l a) = Qltb x a || existsb (Qltb x) l.
Proof.
  induction l as [|T l IH]; intros a; cbn [fold_left existsb].
  - rewrite orb_false_r. reflexivity.
  - rewrite IH, Qltb_py_max, orb_assoc. reflexivity.
Qed.

Lemma existsb_same {A : Type} (f g : A -> bool) (l : list A) :
  (forall x, In x l -> f x = g x) -> existsb f l = existsb g l.
Proof.
  induction l as [|x r IH]; intros H; [reflexivity|].
  cbn [existsb]. rewrite (H x) by (left; reflexivity).
  rewrite IH; [reflexivity|]. intros y Hy. apply H. right. exact Hy.
Qed.

(** X23: as long as no cell of a strip is projected below -1e38 plus the
    tolerance, the start value of the horizon plays no part: the sweep marks
    a cell exactly when an earlier cell of the strip has a projected height
    strictly above the projected height of the cell minus the tolerance. *)
Theorem sweep_marks_behind_higher_cells (m : libm) (self : tool) (dem : dem_info)
    (az alt maxd : Q) (cells_i : list cell) (shadow : array2 bool) (i j : nat) :
  dem_ok dem ->
  In cells_i (strips_of m dem az) ->
  has_shape shadow (ny dem) (nx dem) = true ->
  let cells := sort_cells cells_i in
  let L0 := key (hd no_cell cells) in
  let eps_m := eps_of self (gt dem) in
  let vis := visited maxd L0 cells in
  let Ts := map (projected (dem_Z dem) (tan_alt m alt) L0) vis in
  (forall T, In T Ts -> minus_1e38 <= T - eps_m) ->
  get false (horizon_sweep (dem_Z dem) (tan_alt m alt) eps_m maxd L0 cells
               minus_1e38 shadow) i j =
  get false shadow i j
  || existsb (fun k =>
       (crow (nth k vis no_cell) =? i)%nat && (ccol (nth k vis no_cell) =? j)%nat
       && existsb (fun T => Qltb (nth k Ts 0 - eps_m) T) (firstn k Ts))
     (seq 0 (length vis)).
Proof.
  intros Hok Hs Hshape cells L0 eps_m vis Ts Hlow.
  assert (Hfin : Forall (fun c => isfinite (get NaN (dem_Z dem) (crow c) (ccol c)) = true)
                        cells).
  { apply (Permutation_Forall (Permutation_sym (sort_cells_perm cells_i))).
    apply (strip_cells_finite m dem az cells_i Hok Hs). }
  assert (Hin : Forall (fun c => (crow c < ny dem)%nat /\ (ccol c < nx dem)%nat) cells).
  { apply (Permutation_Forall (Permutation_sym (sort_cells_perm cells_i))).
    apply Forall_forall. intros c Hc.
    destruct (strips_of_cells m dem az cells_i c Hs Hc) as [Hi [Hj _]]. split; assumption. }
  rewrite (sweep_rule (dem_Z dem) (tan_alt m alt) eps_m maxd L0 (ny dem) (nx dem)
             cells Hfin Hin minus_1e38 shadow i j Hshape).
  unfold rule_mask. fold vis. fold Ts. f_equal.
  apply existsb_same. intros k Hk. f_equal.
  unfold marked_by_rule, running_horizon. rewrite Qltb_fold_py_max.
  apply in_seq in Hk.
  assert (Hlt : (k < length Ts)%nat) by (unfold Ts; rewrite length_map; lia).
  assert (E : Qltb (nth k Ts 0 - eps_m) minus_1e38 = false).
  { apply Qltb_ge. apply Hlow. apply nth_In. exact Hlt. }
  rewrite E. reflexivity.
Qed.

Lemma sweep_marks_behind_higher_cells_witness :
  let cells_i := nth 1 (strips_of py_libm flat_dem 270) [] in
  let cells := sort_cells cells_i in
  let L0 := key (hd no_cell cells) in
  let eps_m := eps_of TOOLBOX_2_HILLSHADES (gt flat_dem) in
  let vis := visited 0 L0 cells in
  let Ts := map (projected (dem_Z flat_dem) (tan_alt py_libm (1 # 10000)) L0) vis in
  get false (horizon_sweep (dem_Z flat_dem) (tan_alt py_libm (1 # 10000)) eps_m 0 L0 cells
               minus_1e38 (zeros 3 3)) 2 1 =
  get false (zeros 3 3) 2 1
  || existsb (fun k =>
       (crow (nth k vis no_cell) =? 2)%nat && (ccol (nth k vis no_cell) =? 1)%nat
       && existsb (fun T => Qltb (nth k Ts 0 - eps_m) T) (firstn k Ts))
     (seq 0 (length vis)).
Proof.
  apply (sweep_marks_behind_higher_cells py_libm TOOLBOX_2_HILLSHADES flat_dem 270
           (1 # 10000) 0 (nth 1 (strips_of py_libm flat_dem 270) []) (zeros 3 3) 2 1).
  - split; [reflexivity|]. split; [reflexivity|].
    intros i j Hi Hj. simpl in Hi, Hj.
    destruct i as [|[|[|i]]]; [| | |lia];
      (destruct j as [|[|[|j]]]; [reflexivity | reflexivity | reflexivity | lia]).
  - vm_compute. tauto.
  - reflexivity.
  - intros T HT. vm_compute in HT.
    destruct HT as [<- | [<- | [<- | []]]]; vm_compute; discriminate.
Defined.

(** ** The rows of a run *)

Lemma scan_is_written (m : libm) (self : tool) (dem : dem_info) (az alt : Q)
    (octants : Z) (maxd edge_bias_px : Q) (const_val : option Q)
    (fat_shadow : bool) (fat_kernel : nat) :
  exists w, r_written (_compute_shadow_octant m self dem az alt octants maxd
                         edge_bias_px const_val fat_shadow fat_kernel) = Some w.
Proof.
  destruct (write_shadow_mask_kept dem
              (r_handed (_compute_shadow_octant m self dem az alt octants maxd
                           edge_bias_px const_val fat_shadow fat_kernel)) const_val)
    as [w [E _]]; [apply has_shape_handed|].
  exists w. exact E.
Qed.

Lemma internal_scan_result (m : libm) (dem : dem_info) (fat_shadow : bool)
    (fat_kernel : nat) (st : run_state) (az alt cval : Q) :
  let s := _compute_shadow_octant m (self_ st) dem az alt (_OCTANTS (self_ st))
             (_MAX_DIST (self_ st)) (_EDGE_BIAS_PX (self_ st)) (Some cval)
             fat_shadow fat_kernel in
  internal_scan m dem fat_shadow fat_kernel st az alt cval =
  ({| saga_enabled := saga_enabled st; self_ := r_self s |}, RowScan s).
Proof.
  cbv zeta. unfold internal_scan. cbv zeta.
  destruct (scan_is_written m (self_ st) dem az alt (_OCTANTS (self_ st))
              (_MAX_DIST (self_ st)) (_EDGE_BIAS_PX (self_ st)) (Some cval)
              fat_shadow fat_kernel) as [w E].
  rewrite E. reflexivity.
Qed.


Lemma process_row_incomplete (m : libm) (saga : nat -> Q -> Q -> saga_outcome)
    (dem : dem_info) (fat_shadow : bool) (fat_kernel : nat)
    (st : run_state) (idx : nat) (r : row) :
  complete r = false ->
  process_row m saga dem fat_shadow fat_kernel st idx r = (st, RowSkipped).
Proof.
  unfold complete, process_row. intros H.
  destruct (azimuth r); [|reflexivity].
  destruct (altitude r); [|reflexivity].
  destruct (constant r); [|reflexivity].
  rewrite andb_true_r in H. apply negb_false_iff in H. rewrite H. reflexivity.
Qed.

Lemma process_row_complete (m : libm) (saga : nat -> Q -> Q -> saga_outcome)
    (dem : dem_info) (fat_shadow : bool) (fat_kernel : nat)
    (st : run_state) (idx : nat) (r : row) (az alt cval : Q) :
  name r <> EmptyString ->
  azimuth r = Some az -> altitude r = Some alt -> constant r = Some cval ->
  let out := process_row m saga dem fat_shadow fat_kernel st idx r in
  (exists w, out = (st, RowSaga w) /\ saga_enabled st = true /\
             try_saga saga dem idx az alt cval = inl w) \/
  (exists st1, self_ st1 = self_ st /\
     out = internal_scan m dem fat_shadow fat_kernel st1 az alt cval).
Proof.
  intros Hn Ha Hl Hc. cbv zeta. unfold process_row. rewrite Ha, Hl, Hc.
  destruct (name r) as [|ch rest] eqn:En; [congruence|]. cbn [String.length Nat.eqb].
  destruct (saga_enabled st) eqn:Es.
  - destruct (try_saga saga dem idx az alt cval) as [w|err] eqn:Et.
    + left. exists w. repeat split.
    + right. destruct (is_unavailable err).
      * eexists. split; [|reflexivity]. reflexivity.
      * exists st. split; reflexivity.
  - right. exists st. split; reflexivity.
Qed.


Lemma complete_row_of (r : table_row) :
  name_error r = None -> complete (row_of r) = table_complete r.
Proof.
  unfold name_error, complete, table_complete, row_of. cbn [name azimuth altitude constant].
  destruct (String.length (t_name r) =? 0)%nat; [reflexivity|]. cbn [negb andb].
  destruct (t_azimuth r) as [[a| |]|]; destruct (t_altitude r) as [[b| |]|];
    destruct (t_constant r) as [c|]; cbn [number int_round_error];
    first [reflexivity | discriminate].
Qed.

(** The loop over the table is the loop over the rows of numbers, up to
    the first row whose file name cannot be built. *)
Lemma table_loop_spec (m : libm) (saga : nat -> Q -> Q -> saga_outcome)
    (dem : dem_info) (fat_shadow : bool) (fat_kernel : nat) (rows : list table_row) :
  forall st idx,
    let out := table_loop m saga dem fat_shadow fat_kernel st idx rows in
    match snd out with
    | None =>
        Forall (fun r => name_error r = None) rows /\
        fst out = snd (process_rows m saga dem fat_shadow fat_kernel st idx
                         (map row_of rows))
    | Some msg =>
        exists pre r post,
          rows = pre ++ r :: post /\
          Forall (fun r' => name_error r' = None) pre /\
          name_error r = Some msg /\
          fst out = snd (process_rows m saga dem fat_shadow fat_kernel st idx
                           (map row_of pre))
    end.
Proof.
  induction rows as [|r rest IH]; intros st idx; cbv zeta.
  - cbn. split; [constructor|reflexivity].
  - cbn [table_loop].
    assert (Hstep : forall st1 res,
              name_error r = None ->
              process_row m saga dem fat_shadow fat_kernel st idx (row_of r) = (st1, res) ->
              match snd (let (ress, err) :=
                           table_loop m saga dem fat_shadow fat_kernel st1 (S idx) rest in
                         (res :: ress, err)) with
              | None =>
                  Forall (fun r0 => name_error r0 = None) (r :: rest) /\
                  fst (let (ress, err) :=
                         table_loop m saga dem fat_shadow fat_kernel st1 (S idx) rest in
                       (res :: ress, err)) =
                  snd (process_rows m saga dem fat_shadow fat_kernel st idx
                         (map row_of (r :: rest)))
              | Some msg =>
                  exists pre r0 post,
                    r :: rest = pre ++ r0 :: post /\
                    Forall (fun r' => name_error r' = None) pre /\
                    name_error r0 = Some msg /\
                    fst (let (ress, err) :=
                           table_loop m saga dem fat_shadow fat_kernel st1 (S idx) rest in
                         (res :: ress, err)) =
                    snd (process_rows m saga dem fat_shadow fat_kernel st idx
                           (map row_of pre))
              end).
    { intros st1 res Hn E1. specialize (IH st1 (S idx)). cbv zeta in IH.
      destruct (table_loop m saga dem fat_shadow fat_kernel st1 (S idx) rest)
        as [ress err]. cbn [fst snd] in *.
      destruct err as [msg|].
      - destruct IH as [pre [r0 [post [Er [Hpre [Hr0 Hres]]]]]].
        exists (r :: pre), r0, post. split; [rewrite Er; reflexivity|].
        split; [constructor; assumption|]. split; [exact Hr0|].
        cbn [map process_rows]. rewrite E1.
        destruct (process_rows m saga dem fat_shadow fat_kernel st1 (S idx)
                    (map row_of pre)) as [st2 ress'] eqn:E2.
        cbn [snd] in *. rewrite Hres. reflexivity.
      - destruct IH as [Hall Hres]. split; [constructor; assumption|].
        cbn [map process_rows]. rewrite E1.
        destruct (process_rows m saga dem fat_shadow fat_kernel st1 (S idx)
                    (map row_of rest)) as [st2 ress'] eqn:E2.
        cbn [snd] in *. rewrite Hres. reflexivity. }
    destruct (table_complete r) eqn:Ec.
    + destruct (name_error r) as [msg|] eqn:En.
      * cbn [fst snd]. exists [], r, rest. split; [reflexivity|].
        split; [constructor|]. split; [exact En|reflexivity].
      * destruct (process_row m saga dem fat_shadow fat_kernel st idx (row_of r))
          as [st1 res] eqn:E1.
        apply Hstep; reflexivity.
    + assert (En : name_error r = None) by (unfold name_error; rewrite Ec; reflexivity).
      apply Hstep; [exact En|].
      apply process_row_incomplete. rewrite (complete_row_of r En). exact Ec.
Qed.



Lemma scan_same_masks (m : libm) (self self' : tool) (dem : dem_info) (az alt : Q)
    (octants octants' : Z) (maxd edge_bias_px edge_bias_px' : Q)
    (const_val : option Q) (fat_shadow : bool) (fat_kernel : nat) :
  eps_of self (gt dem) = eps_of self' (gt dem) ->
  gap_max_of self = gap_max_of self' ->
  let s := _compute_shadow_octant m self dem az alt octants maxd edge_bias_px
             const_val fat_shadow fat_kernel in
  let s' := _compute_shadow_octant m self' dem az alt octants' maxd edge_bias_px'
              const_val fat_shadow fat_kernel in
  r_raw s = r_raw s' /\ r_masked s = r_masked s' /\
  r_handed s = r_handed s' /\ r_written s = r_written s'.
Proof.
  intros He Hg. cbv zeta. unfold _compute_shadow_octant.
  cbn [r_raw r_masked r_handed r_written]. rewrite He, Hg. repeat split.
Qed.

Lemma process_row_settings (m : libm) (saga : nat -> Q -> Q -> saga_outcome)
    (dem : dem_info) (fat_shadow : bool) (fat_kernel : nat)
    (st : run_state) (idx : nat) (r : row) :
  let st' := fst (process_row m saga dem fat_shadow fat_kernel st idx r) in
  _MAX_DIST (self_ st') = _MAX_DIST (self_ st) /\
  __RAY_GAP_MAX (self_ st') = __RAY_GAP_MAX (self_ st).
Proof.
  cbv zeta. unfold process_row.
  destruct (azimuth r) as [az|]; [|split; reflexivity].
  destruct (altitude r) as [alt|]; [|split; reflexivity].
  destruct (constant r) as [cval|]; [|split; reflexivity].
  destruct (String.length (name r) =? 0)%nat; [split; reflexivity|].
  destruct (saga_enabled st).
  - destruct (try_saga saga dem idx az alt cval) as [w|err]; [split; reflexivity|].
    rewrite internal_scan_result. cbn [fst self_].
    destruct (is_unavailable err); split; reflexivity.
  - rewrite internal_scan_result. split; reflexivity.
Qed.

Lemma process_rows_nth (m : libm) (saga : nat -> Q -> Q -> saga_outcome)
    (dem : dem_info) (fat_shadow : bool) (fat_kernel : nat) (rows : list row) :
  forall st idx k r az alt cval,
    _MAX_DIST (self_ st) = 0 ->
    __RAY_GAP_MAX (self_ st) = Some 3%Z ->
    eps_state_ok (self_ st) (gt dem) ->
    nth_error rows k = Some r ->
    name r <> EmptyString ->
    azimuth r = Some az -> altitude r = Some alt -> constant r = Some cval ->
    let results := snd (process_rows m saga dem fat_shadow fat_kernel st idx rows) in
    let scan := _compute_shadow_octant m TOOLBOX_2_HILLSHADES dem az alt 32 0 (- (1 # 2))
                  (Some cval) fat_shadow fat_kernel in
    (exists w, nth_error results k = Some (RowSaga w) /\ saga_enabled st = true /\
               try_saga saga dem (idx + k) az alt cval = inl w) \/
    (exists s, nth_error results k = Some (RowScan s) /\
               r_raw s = r_raw scan /\ r_masked s = r_masked scan /\
               r_handed s = r_handed scan /\ r_written s = r_written scan).
Proof.
  induction rows as [|r0 rest IH]; intros st idx k r az alt cval Hd Hg He Hk Hn Ha Hl Hc;
    [destruct k; discriminate|].
  cbv zeta. cbn [process_rows].
  destruct (process_row m saga dem fat_shadow fat_kernel st idx r0) as [st1 res] eqn:E1.
  destruct (process_rows m saga dem fat_shadow fat_kernel st1 (S idx) rest)
    as [st2 ress] eqn:E2.
  cbn [snd]. destruct k as [|k].
  - cbn [nth_error] in *. inversion Hk; subst r0. clear Hk.
    pose proof (process_row_complete m saga dem fat_shadow fat_kernel st idx r
                  az alt cval Hn Ha Hl Hc) as Hr. cbv zeta in Hr. rewrite E1 in Hr.
    destruct Hr as [[w [Ew [Es Et]]] | [st' [Hs' Es]]].
    + left. exists w. inversion Ew; subst. rewrite Nat.add_0_r. auto.
    + right. rewrite internal_scan_result in Es. inversion Es; subst.
      eexists. split; [reflexivity|].
      rewrite Hs', Hd.
      apply scan_same_masks.
      * rewrite (eps_of_state_ok _ _ He). reflexivity.
      * unfold gap_max_of. rewrite Hg. reflexivity.
  - cbn [nth_error] in *.
    pose proof (process_row_settings m saga dem fat_shadow fat_kernel st idx r0) as Hs.
    cbv zeta in Hs. rewrite E1 in Hs. cbn [fst] in Hs. destruct Hs as [Hd1 Hg1].
    pose proof (process_row_eps_state m saga dem fat_shadow fat_kernel st idx r0 He) as He1.
    rewrite E1 in He1. cbn [fst] in He1.
    specialize (IH st1 (S idx) k r az alt cval).
    cbv zeta in IH. rewrite E2 in IH. cbn [snd] in IH.
    destruct IH as [[w [Ew [Es Et]]] | Hscan]; try assumption;
      try (rewrite Hd1; exact Hd); try (rewrite Hg1; exact Hg).
    + left. exists w. split; [exact Ew|]. split.
      * destruct (saga_enabled st) eqn:Est; [reflexivity|].
        pose proof (process_row_disabled m saga dem fat_shadow fat_kernel st idx r0 Est)
          as Hdis.
        rewrite E1 in Hdis. cbn [fst] in Hdis. congruence.
      * replace (idx + S k)%nat with (S idx + k)%nat by lia. exact Et.
    + right. exact Hscan.
Qed.

(** X26: the rows of a run do not influence each other when they are
    scanned internally: as long as no row before it ends the run at line
    704 (a complete row whose azimuth or altitude is [nan] or an infinity),
    the masks and the raster of a complete row of numbers are those of a
    scan with the class defaults, whatever the other rows, the row's
    position, the inferred number of octants and the earlier attempts with
    SAGA were, and whether or not a later row ends the run; a row is written
    from SAGA's mask only if SAGA was preferred and succeeded for that
    row. *)
Theorem rows_are_independent (m : libm) (saga : nat -> Q -> Q -> saga_outcome)
    (dem : dem_info) (rows : list table_row) (prefer_saga fat_shadow : bool)
    (fat_kernel_idx : nat) (octs : Z) (k : nat) (r : table_row) (az alt cval : Q) :
  nth_error rows k = Some r ->
  t_name r <> EmptyString ->
  t_azimuth r = Some (PyFin az) -> t_altitude r = Some (PyFin alt) ->
  t_constant r = Some cval ->
  (forall k' r', (k' < k)%nat -> nth_error rows k' = Some r' -> name_error r' = None) ->
  let results :=
    run_results (processAlgorithm_table m saga dem rows prefer_saga fat_shadow
                   fat_kernel_idx octs) in
  let fat_kernel := if (fat_kernel_idx =? 0)%nat then 3%nat else 2%nat in
  let scan := _compute_shadow_octant m TOOLBOX_2_HILLSHADES dem az alt 32 0 (- (1 # 2))
                (Some cval) fat_shadow fat_kernel in
  (exists w, nth_error results k = Some (RowSaga w) /\ prefer_saga = true /\
             try_saga saga dem (S k) az alt cval = inl w) \/
  (exists s, nth_error results k = Some (RowScan s) /\
             r_raw s = r_raw scan /\ r_masked s = r_masked scan /\
             r_handed s = r_handed scan /\ r_written s = r_written scan).
Proof.
  intros Hk Hn Ha Hl Hc Hbefore. cbv zeta. unfold processAlgorithm_table.
  destruct rows as [|r0 rest] eqn:Erows; [destruct k; discriminate|].
  rewrite <- Erows in *. cbv zeta.
  set (st := {| saga_enabled := prefer_saga;
                self_ := {| _EDGE_BIAS_PX := _EDGE_BIAS_PX TOOLBOX_2_HILLSHADES;
                            _MAX_DIST := _MAX_DIST TOOLBOX_2_HILLSHADES;
                            _EPS_M := None;
                            __RAY_GAP_MAX := __RAY_GAP_MAX TOOLBOX_2_HILLSHADES;
                            _OCTANTS := octs |} |}).
  set (fat_kernel := if (fat_kernel_idx =? 0)%nat then 3%nat else 2%nat).
  assert (He : eps_state_ok (self_ st) (gt dem)) by (left; reflexivity).
  assert (Hr : name_error r = None).
  { unfold name_error. rewrite Ha, Hl. destruct (table_complete r); reflexivity. }
  assert (Hrow : forall L, nth_error L k = Some r ->
            let res := snd (process_rows m saga dem fat_shadow fat_kernel st 1
                              (map row_of L)) in
            (exists w, nth_error res k = Some (RowSaga w) /\ prefer_saga = true /\
                       try_saga saga dem (S k) az alt cval = inl w) \/
            (exists s, nth_error res k = Some (RowScan s) /\
               r_raw s = r_raw (_compute_shadow_octant m TOOLBOX_2_HILLSHADES dem az alt
                                  32 0 (- (1 # 2)) (Some cval) fat_shadow fat_kernel) /\
               r_masked s = r_masked (_compute_shadow_octant m TOOLBOX_2_HILLSHADES dem
                                  az alt 32 0 (- (1 # 2)) (Some cval) fat_shadow fat_kernel) /\
               r_handed s = r_handed (_compute_shadow_octant m TOOLBOX_2_HILLSHADES dem
                                  az alt 32 0 (- (1 # 2)) (Some cval) fat_shadow fat_kernel) /\
               r_written s = r_written (_compute_shadow_octant m TOOLBOX_2_HILLSHADES dem
                                  az alt 32 0 (- (1 # 2)) (Some cval) fat_shadow fat_kernel))).
  { intros L HL.
    assert (HL' : nth_error (map row_of L) k = Some (row_of r))
      by (rewrite nth_error_map, HL; reflexivity).
    assert (Hn' : name (row_of r) <> EmptyString) by exact Hn.
    assert (Ha' : azimuth (row_of r) = Some az)
      by (unfold row_of; cbn [azimuth]; rewrite Ha; reflexivity).
    assert (Hl' : altitude (row_of r) = Some alt)
      by (unfold row_of; cbn [altitude]; rewrite Hl; reflexivity).
    exact (process_rows_nth m saga dem fat_shadow fat_kernel (map row_of L) st 1%nat k
             (row_of r) az alt cval eq_refl eq_refl He HL' Hn' Ha' Hl' Hc). }
  pose proof (table_loop_spec m saga dem fat_shadow fat_kernel rows st 1) as Hspec.
  cbv zeta in Hspec.
  destruct (table_loop m saga dem fat_shadow fat_kernel st 1 rows) as [results err].
  cbn [fst snd] in Hspec. destruct err as [msg|].
  - destruct Hspec as [pre [r1 [post [Er [Hpre [Hr1 Hres]]]]]].
    cbn [run_results]. rewrite Hres. apply Hrow.
    assert (Hlt : (k < length pre)%nat).
    { destruct (Nat.lt_trichotomy k (length pre)) as [H|[H|H]]; [exact H| |].
      - exfalso. rewrite Er, H, nth_error_app2, Nat.sub_diag in Hk by lia.
        cbn in Hk. inversion Hk; subst r1. congruence.
      - exfalso.
        assert (E : nth_error rows (length pre) = Some r1).
        { rewrite Er, nth_error_app2, Nat.sub_diag by lia. reflexivity. }
        rewrite (Hbefore (length pre) r1 H E) in Hr1. discriminate. }
    rewrite Er, nth_error_app1 in Hk by exact Hlt. exact Hk.
  - destruct Hspec as [Hall Hres].
    assert (Hrun : run_results
              (match created 1 results with
               | [] => RunRaises "No shadow masks were created." results
               | _ :: _ => RunReturns results (created 1 results)
               end) = results)
      by (destruct (created 1 results); reflexivity).
    rewrite Hrun, Hres. apply Hrow. exact Hk.
Qed.

Lemma rows_are_independent_witness :
  let rows := [table_west; table_west] in
  let results := run_results (processAlgorithm_table py_libm saga_flaky flat_dem rows
                                true false 0 32) in
  let scan := _compute_shadow_octant py_libm TOOLBOX_2_HILLSHADES flat_dem 270 45 32 0
                (- (1 # 2)) (Some 1) false 3 in
  (exists w, nth_error results 1 = Some (RowSaga w) /\ true = true /\
             try_saga saga_flaky flat_dem 2 270 45 1 = inl w) \/
  (exists s, nth_error results 1 = Some (RowScan s) /\
             r_raw s = r_raw scan /\ r_masked s = r_masked scan /\
             r_handed s = r_handed scan /\ r_written s = r_written scan).
Proof.
  apply (rows_are_independent py_libm saga_flaky flat_dem [table_west; table_west]
           true false 0 32 1 table_west 270 45 1);
    try first [reflexivity | discriminate].
  intros k' r' Hlt Hn. destruct k' as [|k']; [|lia].
  cbn in Hn. inversion Hn; subst r'. reflexivity.
Defined.

(** ** Rows written from SAGA's raster *)

Lemma get_map_map {A B : Type} (f : A -> B) (a : array2 A) (dA : A) (dB : B)
    (ny nx i j : nat) :
  has_shape a ny nx = true -> (i < ny)%nat -> (j < nx)%nat ->
  get dB (map (map f) a) i j = f (get dA a i j).
Proof.
  intros Hs Hi Hj. unfold get.
  rewrite (nth_indep _ [] (map f []))
    by (rewrite length_map, (has_shape_length _ _ _ Hs); exact Hi).
  rewrite (map_nth (map f) a [] i).
  rewrite (nth_indep _ dB (f dA))
    by (rewrite length_map, (has_shape_row _ _ _ _ Hs Hi); exact Hj).
  apply map_nth.
Qed.

Lemma has_shape_map_map {A B : Type} (f : A -> B) (a : array2 A) (ny nx : nat) :
  has_shape (map (map f) a) ny nx = has_shape a ny nx.
Proof.
  unfold has_shape. rewrite length_map. f_equal.
  induction a as [|r a IH]; [reflexivity|].
  cbn [map forallb]. rewrite length_map, IH. reflexivity.
Qed.

(** X27: a row for which SAGA returns a raster of the shape of the height
    raster is written from that raster alone, fat shadows or not: outside the
    no-data cells and the class-5 rule, a cell holds the constant exactly
    when SAGA's cell is finite and differs from SAGA's no-data value, and 0
    otherwise; the state of the run is left as it was. *)
Theorem saga_row_is_written_as_is (m : libm) (res : nat -> Q -> Q -> saga_run)
    (dem : dem_info) (fat_shadow : bool) (fat_kernel : nat)
    (st : run_state) (idx : nat) (r : row) (az alt cval : Q)
    (arr : array2 npfloat) (ndv : option npfloat) (i j : nat) :
  saga_enabled st = true ->
  name r <> EmptyString ->
  azimuth r = Some az -> altitude r = Some alt -> constant r = Some cval ->
  res idx az alt = SagaBand arr ndv ->
  has_shape arr (ny dem) (nx dem) = true ->
  (i < ny dem)%nat -> (j < nx dem)%nat ->
  let saga := fun idx az alt => _saga_shadow_mask (res idx az alt) in
  let v := get NaN arr i j in
  let sunlit := negb (isfinite v)
                || match ndv with Some ndv => eq_float v ndv | None => false end in
  let z := get NaN (dem_Z dem) i j in
  exists w,
    process_row m saga dem fat_shadow fat_kernel st idx r = (st, RowSaga w) /\
    get false (w_shadow w) i j = negb (get false (mask_nd dem) i j) && negb sunlit /\
    get 0 (w_out w) i j =
      if get false (mask_nd dem) i j then nodata dem
      else if Qltb (Qabs (cval - 5)) (1 # 1000000) && isfinite z && gt0 z then 5
      else if sunlit then 0 else cval.
Proof.
  intros Hs Hn Ha Hl Hc Hres Harr Hi Hj saga v sunlit z.
  set (f := fun v0 : npfloat =>
              negb (isfinite v0)
              || match ndv with Some ndv0 => eq_float v0 ndv0 | None => false end).
  assert (Hmask : saga idx az alt = SagaMask (logical_not (map (map f) arr))).
  { unfold saga. rewrite Hres. reflexivity. }
  assert (Hshape : has_shape (logical_not (map (map f) arr)) (ny dem) (nx dem) = true).
  { apply has_shape_logical_not. rewrite has_shape_map_map. exact Harr. }
  assert (Hget : get false (logical_not (map (map f) arr)) i j = negb sunlit).
  { rewrite (get_logical_not _ (ny dem) (nx dem)); try assumption;
      [|rewrite has_shape_map_map; exact Harr].
    rewrite (get_map_map f arr NaN false (ny dem) (nx dem)) by assumption.
    reflexivity. }
  destruct (write_shadow_mask_cells dem (logical_not (map (map f) arr)) (Some cval) i j
              Hshape Hi Hj) as [w [Ew [Hws Hwo]]].
  exists w. split; [|split].
  - unfold process_row. rewrite Ha, Hl, Hc.
    destruct (name r) as [|ch rest]; [congruence|]. cbn [String.length Nat.eqb].
    rewrite Hs. unfold try_saga. rewrite Hmask, Ew. reflexivity.
  - rewrite Hws, Hget. destruct (get false (mask_nd dem) i j); reflexivity.
  - rewrite Hwo. cbv zeta. rewrite Hget. fold z.
    destruct (get false (mask_nd dem) i j); [reflexivity|].
    destruct (Qltb (Qabs (cval - 5)) (1 # 1000000) && isfinite z && gt0 z); [reflexivity|].
    destruct sunlit; reflexivity.
Qed.

Lemma saga_row_is_written_as_is_witness :
  let res := fun (_ : nat) (_ _ : Q) => SagaBand [[Fin (3 # 2)]] (Some (Fin (-99999))) in
  let saga := fun idx az alt => _saga_shadow_mask (res idx az alt) in
  let st := {| saga_enabled := true; self_ := TOOLBOX_2_HILLSHADES |} in
  let v := get NaN [[Fin (3 # 2)]] 0 0 in
  let sunlit := negb (isfinite v) || eq_float v (Fin (-99999)) in
  let z := get NaN (dem_Z one_cell_dem) 0 0 in
  exists w,
    process_row py_libm saga one_cell_dem true 2 st 1 row_west = (st, RowSaga w) /\
    get false (w_shadow w) 0 0 = negb (get false (mask_nd one_cell_dem) 0 0) && negb sunlit /\
    get 0 (w_out w) 0 0 =
      if get false (mask_nd one_cell_dem) 0 0 then nodata one_cell_dem
      else if Qltb (Qabs (1 - 5)) (1 # 1000000) && isfinite z && gt0 z then 5
      else if sunlit then 0 else 1.
Proof.
  apply (saga_row_is_written_as_is py_libm
           (fun (_ : nat) (_ _ : Q) => SagaBand [[Fin (3 # 2)]] (Some (Fin (-99999))))
           one_cell_dem true 2 {| saga_enabled := true; self_ := TOOLBOX_2_HILLSHADES |}
           1 row_west 270 45 1 [[Fin (3 # 2)]] (Some (Fin (-99999))) 0 0);
    first [reflexivity | discriminate | (simpl; lia)].
Defined.

(** X28: when [_saga_shadow_mask] fails on SAGA's output (no "SHADE" entry,
    a raster that cannot be opened or read) or returns a mask of another
    shape than the height raster, the row is scanned internally and SAGA
    stays switched on for the rows that follow. *)
Theorem saga_output_failure_keeps_saga (m : libm) (res : nat -> Q -> Q -> saga_run)
    (dem : dem_info) (fat_shadow : bool) (fat_kernel : nat)
    (st : run_state) (idx : nat) (r : row) (az alt cval : Q) :
  saga_enabled st = true ->
  name r <> EmptyString ->
  azimuth r = Some az -> altitude r = Some alt -> constant r = Some cval ->
  res idx az alt = SagaNoShade \/ res idx az alt = SagaNotOpened \/
  res idx az alt = SagaNotRead \/
  (exists arr ndv, res idx az alt = SagaBand arr ndv /\
                   has_shape arr (ny dem) (nx dem) = false) ->
  let saga := fun idx az alt => _saga_shadow_mask (res idx az alt) in
  let out := process_row m saga dem fat_shadow fat_kernel st idx r in
  let scan := _compute_shadow_octant m (self_ st) dem az alt (_OCTANTS (self_ st))
                (_MAX_DIST (self_ st)) (_EDGE_BIAS_PX (self_ st)) (Some cval)
                fat_shadow fat_kernel in
  snd out = RowScan scan /\ saga_enabled (fst out) = true.
Proof.
  intros Hs Hn Ha Hl Hc Hres saga out scan.
  assert (Ht : exists err, try_saga saga dem idx az alt cval = inr err /\
                           is_unavailable err = false).
  { unfold try_saga, saga.
    destruct Hres as [E | [E | [E | [arr [ndv [E Hsh]]]]]]; rewrite E; cbn [_saga_shadow_mask].
    - eexists. split; [reflexivity | vm_compute; reflexivity].
    - eexists. split; [reflexivity | vm_compute; reflexivity].
    - eexists. split; [reflexivity | vm_compute; reflexivity].
    - rewrite write_shadow_mask_raises.
      + eexists. split; [reflexivity | vm_compute; reflexivity].
      + rewrite <- Hsh. unfold logical_not.
        rewrite has_shape_map_map, has_shape_map_map. reflexivity. }
  destruct Ht as [err [Et Hu]].
  unfold out, process_row. rewrite Ha, Hl, Hc.
  destruct (name r) as [|ch rest]; [congruence|]. cbn [String.length Nat.eqb].
  rewrite Hs, Et, Hu. rewrite internal_scan_result. cbn [fst snd saga_enabled].
  split; [reflexivity | exact Hs].
Qed.

Lemma saga_output_failure_keeps_saga_witness :
  let res := fun (_ : nat) (_ _ : Q) => SagaBand [[Fin 1; Fin 1]] None in
  let saga := fun idx az alt => _saga_shadow_mask (res idx az alt) in
  let st := {| saga_enabled := true; self_ := TOOLBOX_2_HILLSHADES |} in
  let out := process_row py_libm saga one_cell_dem false 3 st 1 row_west in
  let scan := _compute_shadow_octant py_libm TOOLBOX_2_HILLSHADES one_cell_dem 270 45
                (_OCTANTS TOOLBOX_2_HILLSHADES) (_MAX_DIST TOOLBOX_2_HILLSHADES)
                (_EDGE_BIAS_PX TOOLBOX_2_HILLSHADES) (Some 1) false 3 in
  snd out = RowScan scan /\ saga_enabled (fst out) = true.
Proof.
  apply (saga_output_failure_keeps_saga py_libm
           (fun (_ : nat) (_ _ : Q) => SagaBand [[Fin 1; Fin 1]] None)
           one_cell_dem false 3 {| saga_enabled := true; self_ := TOOLBOX_2_HILLSHADES |}
           1 row_west 270 45 1);
    try first [reflexivity | discriminate].
  right. right. right. exists [[Fin 1; Fin 1]], None. split; reflexivity.
Defined.

(** * The scan in binary64: properties *)

Module B64Facts.
Import B64.
#[local] Set Warnings "-inexact-float".
Local Open Scope float_scope.

(** ** Shapes *)






(** ** The cells of the strips *)





(** ** The sort *)



(** ** The sweep and its tests *)




(** ** The spike scenario *)

(** In binary64 the scan of the spike scenario (azimuth 270, altitude 45)
    gives the mask it gives in exact arithmetic: the four cells east of the
    spike, before and after the closing. *)
Lemma binary64_spike :
  exists r,
    snd (_compute_shadow_octant py_libm TOOLBOX_2_HILLSHADES spike_dem 270.0 45.0
           32 0.0 (-0.5) (Some 1.0) false 3) = Some r /\
    r_raw r = tabulate 10 10 (fun i j => (i =? 5)%nat && (6 <=? j)%nat) /\
    r_handed r = tabulate 10 10 (fun i j => (i =? 5)%nat && (6 <=? j)%nat) /\
    option_map w_shadow (r_written r) =
      Some (tabulate 10 10 (fun i j => (i =? 5)%nat && (6 <=? j)%nat)).
Proof.
  eexists. split; [vm_compute; reflexivity|].
  split; [vm_compute; reflexivity|]. split; vm_compute; reflexivity.
Qed.

(** ** Rasters of uniform height *)












(** The same happens under a higher sun where binary64 absorbs the rise of
    the ray: at the uniform height 2^37, with 1 m cells and altitude 0.0007
    degrees, [tan_alt * (L' - L)] is 1.22e-5, above the tolerance 1e-5, yet
    [T] stays at 2^37 from one cell to the next and the cell (0, 1) is
    marked. *)
Lemma flat_surface_rounding :
  (eps_of TOOLBOX_2_HILLSHADES (gt high_flat_dem)
     <=? tan_alt py_libm 0.0007 * 1.0) = true /\
  strips_separated py_libm TOOLBOX_2_HILLSHADES high_flat_dem 270.0 0.0007
    137438953472.0 = false /\
  exists r,
    snd (_compute_shadow_octant py_libm TOOLBOX_2_HILLSHADES high_flat_dem 270.0 0.0007
           32 0.0 (-0.5) (Some 1.0) false 3) = Some r /\
    get false (r_raw r) 0 1 = true /\
    get false (r_handed r) 0 1 = true.
Proof.
  split; [vm_compute; reflexivity|]. split; [vm_compute; reflexivity|].
  eexists. split; [vm_compute; reflexivity|].
  split; vm_compute; reflexivity.
Qed.
(** ** Altitude monotonicity *)








(** It also fails below 90 degrees where rounding decides a test: on the
    row of heights 0.5, 1, 1, 0.5, 10 the altitude 26.565509541480615
    (tangent 0.5000099999999997) leaves every cell lit, and the higher
    altitude 26.565509541480626 (tangent 0.50001) shadows the cell
    (0, 3). *)
Lemma altitude_monotone_rounding :
  (26.565509541480615 <? 26.565509541480626) = true /\
  (tan_alt py_libm 26.565509541480615 <? tan_alt py_libm 26.565509541480626) = true /\
  tests_ordered py_libm TOOLBOX_2_HILLSHADES ridge_dem 270.0
    26.565509541480615 26.565509541480626 0.0 = false /\
  exists r1 r2,
    snd (_compute_shadow_octant py_libm TOOLBOX_2_HILLSHADES ridge_dem 270.0
           26.565509541480615 32 0.0 (-0.5) (Some 1.0) false 3) = Some r1 /\
    snd (_compute_shadow_octant py_libm TOOLBOX_2_HILLSHADES ridge_dem 270.0
           26.565509541480626 32 0.0 (-0.5) (Some 1.0) false 3) = Some r2 /\
    r_raw r1 = zeros 1 5 /\
    get false (r_raw r2) 0 3 = true /\
    get false (r_handed r2) 0 3 = true /\
    get false (r_handed r1) 0 3 = false.
Proof.
  split; [vm_compute; reflexivity|]. split; [vm_compute; reflexivity|].
  split; [vm_compute; reflexivity|].
  eexists. eexists. split; [vm_compute; reflexivity|].
  split; [vm_compute; reflexivity|].
  split; [vm_compute; reflexivity|].
  split; [vm_compute; reflexivity|].
  split; vm_compute; reflexivity.
Qed.

(** ** The strip partition *)

(** C5, at the failing input: on the flat 4 x 4 grid with cells 1.5 m wide
    and 1 m high, lit from azimuth 45, the strip loop of lines 527-552 runs
    over the strips -1 to 9 and collects the cell (3, 3), which is not
    no-data, in none of them: its distances to the centres of the strips 7
    and 8 are both 0.35355339059327395, above [half_w] =
    0.3535533905932738.  Every other cell is collected exactly once. *)
Theorem strip_partition_gap :
  get false (mask_nd oblong_dem) 3 3 = false /\
  s_idx_min (dS_col py_libm (gt oblong_dem) 45.0) (dS_row py_libm (gt oblong_dem) 45.0)
    4 4 = Some (-1)%Z /\
  s_idx_max (dS_col py_libm (gt oblong_dem) 45.0) (dS_row py_libm (gt oblong_dem) 45.0)
    4 4 = Some 9%Z /\
  (let dSc := dS_col py_libm (gt oblong_dem) 45.0 in
   let dSr := dS_row py_libm (gt oblong_dem) 45.0 in
   let w := strip_w dSc dSr in
   let S := of_int 3 * dSr + of_int 3 * dSc in
   0.5 * w = 0.3535533905932738 /\
   abs (S - of_int 7 * w) = 0.35355339059327395 /\
   abs (S - of_int 8 * w) = 0.35355339059327395) /\
  exists strips,
    strips_of py_libm oblong_dem 45.0 = Some strips /\
    forallb (fun cells_i => negb (holds_cell 3 3 cells_i)) strips = true /\
    forallb (fun ij =>
               (length (filter (holds_cell (fst ij) (snd ij)) strips) =? 1)%nat)
      [ (0, 0); (0, 1); (0, 2); (0, 3); (1, 0); (1, 1); (1, 2); (1, 3);
        (2, 0); (2, 1); (2, 2); (2, 3); (3, 0); (3, 1); (3, 2) ]%nat = true.
Proof.
  split; [reflexivity|]. split; [vm_compute; reflexivity|].
  split; [vm_compute; reflexivity|].
  split; [cbv zeta; repeat split; vm_compute; reflexivity|].
  eexists. split; [vm_compute; reflexivity|].
  split; vm_compute; reflexivity.
Qed.
End B64Facts.
